(** * EPOS: the fit-parameter registry, range grid, density evaluation,
      bin builder and catalogue set-up of [EPOS/classes.py] and
      [EPOS/population.py], embedded in Rocq.

    Conventions of the embedding.

    - A Python/numpy float is idealised as a real number ([R]).  Order
      comparisons, [min] and [max] are exact on floats, so every statement
      about ordering carries over as it stands.  Arithmetic identities are
      those of exact arithmetic, and every theorem about a quotient lists
      the divisors it needs to be nonzero (numpy yields [inf]/[nan]
      there, the real field has no such values).  The two infinities only
      occur as the default bounds of [fitparameters.add] and are kept in
      the type [bound].
    - A Python exception is a value of [exn]; a method that can fail
      returns a [result].  A method that mutates [self] is a function
      [self -> result * self]: the state that comes back with [Raise] is
      the partly updated object the exception leaves behind.
    - An object is a function from its attribute names to optional
      values, each attribute with its own type; reading an attribute that
      no method call has created yet is [AttributeError].
    - [print] statements and the plotting-only attributes are left out;
      the module [EPOS.multi] and the module [cgs] are not part of the
      sources at hand. *)

From Stdlib Require Import Reals Lra Lia ZArith.
From stdpp Require Import gmap strings list fin_maps sorting.

Open Scope R_scope.

(** ** Exceptions, results and the state-and-error monad *)

Inductive exn : Set :=
| ValueError | KeyError | IndexError | AssertionError | AttributeError | NameError
| ZeroDivisionError.

Inductive result (A : Type) : Type :=
| Ok (a : A)
| Raise (e : exn).
Arguments Ok {A} a.
Arguments Raise {A} e.

#[global] Instance result_ret : MRet result := fun A a => Ok a.
#[global] Instance result_bind : MBind result := fun A B f c =>
  match c with Ok a => f a | Raise e => Raise e end.
#[global] Instance result_fmap : FMap result := fun A B f c =>
  match c with Ok a => Ok (f a) | Raise e => Raise e end.

(** [stateM S A]: a computation on an object of type [S] that returns an
    [A] or raises, together with the object as it is afterwards. *)
Definition stateM (S A : Type) : Type := S -> result A * S.

#[global] Instance stateM_ret {S} : MRet (stateM S) := fun A a s => (Ok a, s).
#[global] Instance stateM_bind {S} : MBind (stateM S) := fun A B f c s =>
  match c s with
  | (Ok a, s') => f a s'
  | (Raise e, s') => (Raise e, s')
  end.

Definition raise {S A} (e : exn) : stateM S A := fun s => (Raise e, s).
Definition gets {S A} (f : S -> A) : stateM S A := fun s => (Ok (f s), s).
Definition modify {S} (f : S -> S) : stateM S unit := fun s => (Ok tt, f s).
(** Run a computation that only reads the object. *)
Definition reading {S A} (f : S -> result A) : stateM S A := fun s => (f s, s).

(** Dictionary and sequence access as Python does it. *)
Definition getitem {A} (l : list A) (i : nat) : result A :=
  match l !! i with Some a => Ok a | None => Raise IndexError end.
Definition getkey {A} (m : gmap string A) (k : string) : result A :=
  match m !! k with Some a => Ok a | None => Raise KeyError end.
Definition getattr {A} (o : option A) : result A :=
  match o with Some a => Ok a | None => Raise AttributeError end.
(** [d[k]] for a dictionary entry that may be missing. *)
Definition getopt {A} (o : option A) : result A :=
  match o with Some a => Ok a | None => Raise KeyError end.

(** ** Comparisons on floats *)

Definition ltb_R (x y : R) : bool := if Rlt_dec x y then true else false.
Definition eqb_R (x y : R) : bool := if Req_dec_T x y then true else false.

(** A bound of a fit parameter: a float, or one of the infinities that
    [add] takes as defaults ([min=-np.inf], [max=np.inf]). *)
Inductive bound : Type := NegInf | Fin (r : R) | PosInf.

(** [v < b] and [v > b] for a finite float [v]. *)
Definition lt_bound (v : R) (b : bound) : bool :=
  match b with NegInf => false | Fin m => ltb_R v m | PosInf => true end.
Definition gt_bound (v : R) (b : bound) : bool :=
  match b with NegInf => true | Fin m => ltb_R m v | PosInf => false end.

(** The same two relations as propositions. *)
Definition below (v : R) (b : bound) : Prop :=
  match b with NegInf => False | Fin m => v < m | PosInf => True end.
Definition above (v : R) (b : bound) : Prop :=
  match b with NegInf => True | Fin m => m < v | PosInf => False end.

(** [b <= v] and [v <= b]: the closed side of a bound. *)
Definition at_least (v : R) (b : bound) : Prop :=
  match b with NegInf => True | Fin m => m <= v | PosInf => False end.
Definition at_most (v : R) (b : bound) : Prop :=
  match b with NegInf => False | Fin m => v <= m | PosInf => True end.

(** ** class fitparameters *)

Module Registry.

(** One entry of [self.fitpars]: a dictionary with the keys ['key'],
    ['value_init'] and ['fixed'], with ['min'], ['max'] and ['dx'] only
    when the parameter is free, and ['value_fit'] once [setfit] ran. *)
Record fitpar : Type := FitPar {
  fp_key : string;
  fp_value_init : R;
  fp_fixed : bool;
  fp_min : option bound;
  fp_max : option bound;
  fp_dx : option R;
  fp_value_fit : option R
}.

Record fitparameters : Type := FitParameters {
  fitpars : gmap string fitpar;
  keysall : list string;
  keysfit : list string;
  keys2d : list string
}.

(** [__init__] *)
Definition init : fitparameters :=
  {| fitpars := ∅; keysall := []; keysfit := []; keys2d := [] |}.

(** The dictionary [fp] that [add] fills in. *)
Definition new_fitpar (key : string) (value : R) (fixed : bool)
    (min max : bound) (dx : option R) : fitpar :=
  if fixed then
    {| fp_key := key; fp_value_init := value; fp_fixed := true;
       fp_min := None; fp_max := None; fp_dx := None; fp_value_fit := None |}
  else
    let dx' := match dx with None => 0.1 * value | Some d => d end in
    {| fp_key := key; fp_value_init := value; fp_fixed := false;
       fp_min := Some min; fp_max := Some max;
       fp_dx := Some (if eqb_R dx' 0 then 0.1 else Rabs dx');
       fp_value_fit := None |}.

(** [add(key, value, fixed, min, max, dx, text, is2D)]; [text] is unused. *)
Definition add (key : string) (value : R) (fixed : bool) (min max : bound)
    (dx : option R) (is2D : bool) : stateM fitparameters unit :=
  modify (fun self =>
    {| fitpars := <[key := new_fitpar key value fixed min max dx]> (fitpars self);
       keysall := keysall self ++ [key];
       keysfit := if fixed then keysfit self else keysfit self ++ [key];
       keys2d := if is2D then keys2d self ++ [key] else keys2d self |}).

(** [default(key, value)]: [add] as a fixed parameter with the defaults
    of the other arguments, unless the key is listed already. *)
Definition default (key : string) (value : R) : stateM fitparameters unit :=
  fun self =>
    if bool_decide (key ∈ keysall self) then (Ok tt, self)
    else add key value true NegInf PosInf None false self.

Definition with_fitpars (self : fitparameters) (m : gmap string fitpar) : fitparameters :=
  {| fitpars := m; keysall := keysall self; keysfit := keysfit self;
     keys2d := keys2d self |}.

Definition set_value_init (fp : fitpar) (v : R) : fitpar :=
  {| fp_key := fp_key fp; fp_value_init := v; fp_fixed := fp_fixed fp;
     fp_min := fp_min fp; fp_max := fp_max fp; fp_dx := fp_dx fp;
     fp_value_fit := fp_value_fit fp |}.

Definition set_value_fit (fp : fitpar) (v : R) : fitpar :=
  {| fp_key := fp_key fp; fp_value_init := fp_value_init fp; fp_fixed := fp_fixed fp;
     fp_min := fp_min fp; fp_max := fp_max fp; fp_dx := fp_dx fp;
     fp_value_fit := Some v |}.

(** [set(key, value)] *)
Definition set (key : string) (value : R) : stateM fitparameters unit :=
  fun self =>
    match fitpars self !! key with
    | None => (Raise KeyError, self)
    | Some fp => (Ok tt, with_fitpars self (<[key := set_value_init fp value]> (fitpars self)))
    end.

(** The loop of [setfit]: [keys] is what is left of [enumerate(self.keysfit)],
    [i] the index of its head. *)
Fixpoint setfit_loop (i : nat) (keys : list string) (mclist : list R)
    : stateM fitparameters unit :=
  match keys with
  | [] => mret tt
  | key :: keys' => fun self =>
      match mclist !! i with
      | None => (Raise IndexError, self)
      | Some v =>
          match fitpars self !! key with
          | None => (Raise KeyError, self)
          | Some fp =>
              setfit_loop (S i) keys' mclist
                (with_fitpars self (<[key := set_value_fit fp v]> (fitpars self)))
          end
      end
  end.

(** [setfit(mclist)] *)
Definition setfit (mclist : list R) : stateM fitparameters unit :=
  fun self => setfit_loop 0 (keysfit self) mclist self.

(** [get(key, Init)] with [attr=None]: the initial or the fitted value. *)
Definition get (key : string) (Init : bool) (self : fitparameters) : result R :=
  fp ← getkey (fitpars self) key;
  match fp_value_fit fp with
  | Some v => if Init then Ok (fp_value_init fp) else Ok v
  | None => Ok (fp_value_init fp)
  end.

(** A value stored under an attribute of a parameter dictionary. *)
Inductive pyval : Type :=
| VStr (s : string) | VFloat (r : R) | VBool (b : bool) | VBound (b : bound).

(** [get(key, attr=a)] with [a] not [None]: [self.fitpars[key][a]]. *)
Definition get_attr (key : string) (a : string) (self : fitparameters) : result pyval :=
  fp ← getkey (fitpars self) key;
  if String.eqb a "key" then Ok (VStr (fp_key fp))
  else if String.eqb a "value_init" then Ok (VFloat (fp_value_init fp))
  else if String.eqb a "fixed" then Ok (VBool (fp_fixed fp))
  else if String.eqb a "min" then VBound <$> getopt (fp_min fp)
  else if String.eqb a "max" then VBound <$> getopt (fp_max fp)
  else if String.eqb a "dx" then VFloat <$> getopt (fp_dx fp)
  else if String.eqb a "value_fit" then VFloat <$> getopt (fp_value_fit fp)
  else Raise KeyError.

(** [get2d(Init)] *)
Definition get2d (Init : bool) (self : fitparameters) : result (list R) :=
  mapM (fun key => get key Init self) (keys2d self).

(** [getfit(Init)] with [attr=None], and [getfit(attr=a)]. *)
Definition getfit (Init : bool) (self : fitparameters) : result (list R) :=
  mapM (fun key => get key Init self) (keysfit self).

Definition getfit_attr (a : string) (self : fitparameters) : result (list pyval) :=
  mapM (fun key => get_attr key a self) (keysfit self).

(** [list.index]: the position of the first occurrence, [ValueError]
    when there is none. *)
Fixpoint index (key : string) (l : list string) : result nat :=
  match l with
  | [] => Raise ValueError
  | k :: l' => if bool_decide (k = key) then Ok 0%nat else S <$> index key l'
  end.

(** [getmc(key, parlist)] *)
Definition getmc (key : string) (parlist : list R) (self : fitparameters) : result R :=
  fp ← getkey (fitpars self) key;
  if fp_fixed fp then Ok (fp_value_init fp)
  else i ← index key (keysfit self); getitem parlist i.

(** [get2d_fromlist(parlist)] *)
Definition get2d_fromlist (parlist : list R) (self : fitparameters) : result (list R) :=
  mapM (fun key => getmc key parlist self) (keys2d self).

(** The loop of [checkbounds] over [enumerate(self.keysfit)]. *)
Fixpoint checkbounds_loop (i : nat) (keys : list string) (parlist : list R)
    : stateM fitparameters unit :=
  match keys with
  | [] => mret tt
  | key :: keys' =>
      v ← reading (fun _ => getitem parlist i);
      mn ← reading (fun self => fp ← getkey (fitpars self) key; getopt (fp_min fp));
      if lt_bound v mn then raise ValueError
      else
        mx ← reading (fun self => fp ← getkey (fitpars self) key; getopt (fp_max fp));
        if gt_bound v mx then raise ValueError
        else checkbounds_loop (S i) keys' parlist
  end.

(** [checkbounds(parlist)] *)
Definition checkbounds (parlist : list R) : stateM fitparameters unit :=
  fun self => checkbounds_loop 0 (keysfit self) parlist self.

(** A call of one of the mutating methods, and the registries that a
    sequence of such calls builds from an empty one. *)
Inductive call : Type :=
| CallAdd (key : string) (value : R) (fixed : bool) (min max : bound)
    (dx : option R) (is2D : bool)
| CallDefault (key : string) (value : R)
| CallSet (key : string) (value : R)
| CallSetfit (mclist : list R).

Definition exec (c : call) : stateM fitparameters unit :=
  match c with
  | CallAdd key value fixed mn mx dx is2D => add key value fixed mn mx dx is2D
  | CallDefault key value => default key value
  | CallSet key value => set key value
  | CallSetfit mclist => setfit mclist
  end.

Inductive built : fitparameters -> Prop :=
| built_init : built init
| built_call self c : built self -> built (snd (exec c self)).

(** Every listed key has an entry in [fitpars]. *)
Definition keys_registered (self : fitparameters) : Prop :=
  forall key, key ∈ keysall self ++ keysfit self ++ keys2d self ->
    is_Some (fitpars self !! key).

(** Every free key names an entry that carries bounds, that is, an entry
    that was registered with [fixed=False]. *)
Definition free_bounds (self : fitparameters) : Prop :=
  forall key, key ∈ keysfit self ->
    exists fp mn mx, fitpars self !! key = Some fp /\
      fp_min fp = Some mn /\ fp_max fp = Some mx.

(** [v] lies strictly outside the interval of the entry [fp], and [v]
    lies in the closed interval [[min, max]]. *)
Definition outside (v : R) (fp : fitpar) : Prop :=
  (exists mn, fp_min fp = Some mn /\ below v mn) \/
  (exists mx, fp_max fp = Some mx /\ above v mx).

Definition within (v : R) (fp : fitpar) : Prop :=
  exists mn mx, fp_min fp = Some mn /\ fp_max fp = Some mx /\
    at_least v mn /\ at_most v mx.

End Registry.

(** ** Python built-ins and the numpy functions the code calls *)

(** A 2-D array, as the list of its rows. *)
Definition grid : Type := list (list R).

Module Np.

(** [l[z]], with Python's negative indices. *)
Definition item {A} (l : list A) (z : Z) : result A :=
  let k := if (z <? 0)%Z then (z + Z.of_nat (length l))%Z else z in
  if (k <? 0)%Z then Raise IndexError else getitem l (Z.to_nat k).

(** [l[i:j]]: both indices are first brought into [0 .. len(l)]. *)
Definition clip (n k : Z) : Z :=
  if (k <? 0)%Z then Z.max (k + n) 0 else Z.min k n.

Definition slice {A} (i j : Z) (l : list A) : list A :=
  let n := Z.of_nat (length l) in
  take (Z.to_nat (clip n j - clip n i)) (drop (Z.to_nat (clip n i)) l).

(** [g[i:j, k:l]] *)
Definition slice2 (i j k l : Z) (g : grid) : grid := map (slice k l) (slice i j g).

(** [l[order]]: indexing with an array of indices. *)
Definition take_indices {A} (l : list A) (order : list nat) : result (list A) :=
  mapM (getitem l) order.

(** [max(a, b)] and [min(a, b)] *)
Definition max2 (a b : R) : R := if ltb_R a b then b else a.
Definition min2 (a b : R) : R := if ltb_R b a then b else a.

(** [max(l)] and [min(l)], also [np.max] and [np.min]: [ValueError] on an
    empty sequence. *)
Definition max (l : list R) : result R :=
  match l with [] => Raise ValueError | x :: l' => Ok (fold_left max2 l' x) end.
Definition min (l : list R) : result R :=
  match l with [] => Raise ValueError | x :: l' => Ok (fold_left min2 l' x) end.

Definition log (x : R) : R := ln x.
Definition log10 (x : R) : R := ln x / ln 10.

(** [a ** b] on floats.  For a positive base it is the real power, and
    for a whole exponent the repeated product or its inverse, so a zero
    base gives [1] under the exponent [0] and [0] under a positive
    exponent, as in numpy.  In the cases that are left numpy yields
    [inf] (a zero base under a negative exponent) or [nan] (a negative
    base under an exponent that is not whole); the real field has
    neither, [power] has no meaning there, and every theorem whose
    statement depends on such a power excludes the case by a
    hypothesis. *)
Definition power (a b : R) : R :=
  if ltb_R 0 a then Rpower a b
  else if eqb_R b (IZR (Int_part b)) then powerRZ a (Int_part b)
  else 0.

(** [np.sum(a)] of a 1-D and of a 2-D array, and along one axis. *)
Definition sum (a : list R) : R := fold_right Rplus 0 a.
Definition sum2 (a : grid) : R := sum (map sum a).
Definition sum_axis1 (a : grid) : list R := map sum a.
Definition sum_axis0 (a : grid) : list R :=
  match a with [] => [] | r :: rs => fold_left (zip_with Rplus) rs r end.

(** [np.average(a, axis=1)] and [np.average(a, axis=0)] *)
Definition average_axis1 (a : grid) : list R :=
  map (fun r => sum r / INR (length r)) a.
Definition average_axis0 (a : grid) : list R :=
  map (fun c => c / INR (length a)) (sum_axis0 a).

(** [np.meshgrid(x, y, indexing='ij')] *)
Definition meshgrid (x y : list R) : grid * grid :=
  (map (fun xi => map (fun _ => xi) y) x, map (fun _ => y) x).

(** [np.logspace(start, stop, num)] *)
Definition logspace (start stop : R) (num : nat) : list R :=
  map (fun k => power 10 (start + INR k * ((stop - start) / INR (num - 1))))
      (seq 0 num).

(** [np.searchsorted(a, v, side='left')] for an ascending [a]: the number
    of elements in front of the first one that is not below [v]. *)
Fixpoint searchsorted (a : list R) (v : R) : nat :=
  match a with
  | [] => 0
  | x :: a' => if ltb_R x v then S (searchsorted a' v) else 0
  end.

(** [zip(g[:-1], g[1:])] as rows [[i, j]]. *)
Fixpoint consecutive (g : list R) : grid :=
  match g with
  | i :: ((j :: _) as g') => [i; j] :: consecutive g'
  | _ => []
  end.

(** [np.tile(a, (reps, 1))]: [reps] copies of the rows of [a], one after
    the other; an array without rows gives [reps] empty rows. *)
Definition tile (a : grid) (reps : nat) : grid :=
  match a with
  | [] => replicate reps []
  | _ => concat (replicate reps a)
  end.

(** [np.shape] of a list of rows. *)
Definition shape (a : grid) : list nat :=
  match a with
  | [] => [0%nat]
  | r :: _ => [length a; length r]
  end.

(** [np.unique(ids).size] *)
Definition unique_size (ids : list Z) : nat := length (remove_dups ids).

(** [np.lexsort((xs, ids))]: the indices that sort by [ids] and, among
    equal [ids], by [xs]; equal keys keep their order (the sort is stable).
    [key_le i j] compares the keys of two positions. *)
Definition key_le (ids : list Z) (xs : list R) (i j : nat) : bool :=
  let a := nth i ids 0%Z in let b := nth j ids 0%Z in
  (a <? b)%Z || ((a =? b)%Z && negb (ltb_R (nth j xs 0) (nth i xs 0))).

(** The key of position [i], and the order of the keys: by identifier,
    then by the float. *)
Definition key (ids : list Z) (xs : list R) (i : nat) : Z * R :=
  (nth i ids 0%Z, nth i xs 0).

Definition lex_le (p q : Z * R) : Prop :=
  (fst p < fst q)%Z \/ (fst p = fst q /\ snd p <= snd q).

Fixpoint insert_index (le : nat -> nat -> bool) (i : nat) (l : list nat) : list nat :=
  match l with
  | [] => [i]
  | j :: l' => if le i j then i :: l else j :: insert_index le i l'
  end.

Definition lexsort (xs : list R) (ids : list Z) : result (list nat) :=
  if bool_decide (length xs = length ids)
  then Ok (foldr (insert_index (key_le ids xs)) [] (seq 0 (length ids)))
  else Raise ValueError.

End Np.

(** ** Objects *)

(** An object with attribute names [K], the attribute [k] holding a value
    of type [T k] once it has been assigned. *)
Section objects.
Context {K : Type} `{EqDecision K} {T : K -> Type}.

Definition obj : Type := forall k : K, option (T k).

Definition empty_obj : obj := fun _ => None.

(** [self.a = v] *)
Definition setattr (a : K) (v : T a) (self : obj) : obj :=
  fun b =>
    match decide (a = b) with
    | left e => Some (eq_rect a T v b e)
    | right _ => self b
    end.

(** [self.a], and [self.a = v] as a step of a method. *)
Definition load_attr (a : K) : stateM obj (T a) :=
  reading (fun self => getattr (self a)).
Definition store_attr (a : K) (v : T a) : stateM obj unit := modify (setattr a v).
End objects.
Arguments obj K T : clear implicits.

(** ** class epos *)

Module Epos.

(** The parametric density [func(X, Y, *fitpars2d)]. *)
Definition pdf_func : Type := grid -> grid -> list R -> grid.

(** The constants of the module [cgs] that [set_survey] uses. *)
Record cgs_units : Type := { cgs_G : R; cgs_Msun : R; cgs_Rsun : R; cgs_day : R }.

(** The dictionary [focc['bin']] and the dictionary [self.occurrence]. *)
Record bin_dict : Type := { bin_x : option grid; bin_y_in : option grid }.

Record occurrence_dict : Type := {
  occ_xzoom : option (list (R * R) * grid);   (* ['xzoom']: 'x' and 'y' *)
  occ_yzoom : option (grid * list (R * R));   (* ['yzoom']: 'x' and 'y' *)
  occ_bin : option bin_dict
}.

(** The keys of the dictionary [self.pfm] and the types of their values. *)
Inductive pfm_key : Set :=
| k_name | k_sma | k_M | k_ID | k_tag | k_inc | k_P | k_np | k_ns | k_dP
| k_M_limits | k_P_limits.

Definition pfm_type (k : pfm_key) : Type :=
  match k with
  | k_name => string
  | k_sma | k_M | k_tag | k_inc | k_P | k_dP => list R
  | k_ID => list Z
  | k_np | k_ns => nat
  | k_M_limits | k_P_limits => (R * R)%type
  end.

#[global] Instance pfm_key_eq_dec : EqDecision pfm_key.
Proof. solve_decision. Defined.

Definition pfm_dict : Type := obj pfm_key pfm_type.

(** The attributes of an [epos] object that are followed here, and their
    types.  The methods assign further attributes, which none of them
    reads and which are left out: [xticks], [yticks] and the entry
    ['area'] of [plotpars] ([set_ranges]), [pdfpars] and [modelpars],
    which are further names of the object in [fitpars] ([set_parametric],
    [set_population]), the class attribute [multi] ([set_observation],
    from [EPOS.multi]), and [name], [plotdir], [seed] and the other
    switches of [__init__]. *)
Inductive attr : Set :=
| RV | Multi | Observation | Range | DetectionEfficiency | MassRadius
| PDF | Parametric
| obs_xvar | obs_yvar | obs_starID | nstars | obs_xlim | obs_ylim
| eff_xvar | eff_yvar | eff_2D | eff_xlim | eff_ylim
| Mstar | Rstar | Pindex | fgeo_prefac | completeness
| xtrim | ytrim | xzoom | yzoom | Zoom
| MC_xvar | MC_yvar | MC_eff | scale_x | scale_y | scale | X | Y
| in_ytrim | in_yvar | scale_in_y | scale_in | X_in | Y_in
| masslimits | func | fitpars | occurrence | pfm | mod_xlim | mod_ylim.

Definition attr_type (a : attr) : Type :=
  match a with
  | RV | Multi | Observation | Range | DetectionEfficiency | MassRadius
  | PDF | Parametric | Zoom => bool
  | obs_xvar | obs_yvar | eff_xvar | eff_yvar | MC_xvar | MC_yvar | in_yvar => list R
  | obs_starID => list Z
  | nstars | Mstar | Rstar | Pindex | fgeo_prefac
  | scale_x | scale_y | scale | scale_in_y | scale_in => R
  | obs_xlim | obs_ylim | eff_xlim | eff_ylim | xtrim | ytrim | xzoom | yzoom
  | in_ytrim | masslimits | mod_xlim | mod_ylim => (R * R)%type
  | eff_2D | completeness | MC_eff | X | Y | X_in | Y_in => grid
  | func => pdf_func
  | fitpars => Registry.fitparameters
  | occurrence => occurrence_dict
  | pfm => pfm_dict
  end.

#[global] Instance attr_eq_dec : EqDecision attr.
Proof. solve_decision. Defined.

Definition epos : Type := obj attr attr_type.

Definition load (a : attr) : stateM epos (attr_type a) := load_attr a.
Definition store (a : attr) (v : attr_type a) : stateM epos unit := store_attr a v.

(** [__init__(name, RV)]: the switches. *)
Definition init (rv : bool) : epos :=
  setattr MassRadius false (setattr DetectionEfficiency false
    (setattr Range false (setattr Observation false
      (setattr Multi false (setattr RV rv empty_obj))))).

(** [_trimarray(array, trim)] *)
Definition _trimarray (array : list R) (trim : R * R) : result (Z * Z) :=
  a1 ← Np.item array 1;
  let imin := if ltb_R (fst trim) a1 then 0%Z
              else (Z.of_nat (Np.searchsorted array (fst trim)) - 1)%Z in
  a2 ← Np.item array (-2);
  let imax := if ltb_R a2 (snd trim) then Z.of_nat (length array)
              else (Z.of_nat (Np.searchsorted array (snd trim)) + 1)%Z in
  Ok (imin, imax).

(** [[max(t[0], lim[0]), min(t[1], lim[1])]] *)
Definition clamp (t lim : R * R) : R * R :=
  (Np.max2 (fst t) (fst lim), Np.min2 (snd t) (snd lim)).

(** The pair of bounds [inner] lies within the interval [outer]: each of
    its two bounds is a value of the interval. *)
Definition contained (inner outer : R * R) : Prop :=
  fst outer <= fst inner <= snd outer /\ fst outer <= snd inner <= snd outer.

(** [a == b] for two-element lists. *)
Definition eqb_pair (a b : R * R) : bool :=
  eqb_R (fst a) (fst b) && eqb_R (snd a) (snd b).

(** [a.size / area(a[-1] / a[0])] *)
Definition log_scale (area : R -> R) (a : list R) : result R :=
  hi ← Np.item a (-1);
  lo ← Np.item a 0;
  Ok (INR (length a) / area (hi / lo)).

(** [set_survey(xvar, yvar, eff_2D, Rstar, Mstar)] *)
Definition set_survey (u : cgs_units) (xvar yvar : list R) (eff2D : grid)
    (rstar mstar : R) : stateM epos unit :=
  store eff_xvar xvar;;
  store eff_yvar yvar;;
  store eff_2D eff2D;;
  (* ndim of [eff_2D]: a list without rows, or with rows of different
     lengths, does not make a 2-D array *)
  match eff2D with
  | [] => raise AssertionError
  | r :: _ =>
      if negb (forallb (fun r' => Nat.eqb (length r') (length r)) eff2D)
      then raise AssertionError
      else if negb (Nat.eqb (length eff2D) (length xvar)
                    && Nat.eqb (length r) (length yvar))
      then raise ValueError
      else
        xmin ← reading (fun _ => Np.min xvar);
        xmax ← reading (fun _ => Np.max xvar);
        store eff_xlim (xmin, xmax);;
        ymin ← reading (fun _ => Np.min yvar);
        ymax ← reading (fun _ => Np.max yvar);
        store eff_ylim (ymin, ymax);;
        store Mstar mstar;;
        rv ← load RV;
        (if rv : bool then store completeness eff2D
         else
           store Rstar rstar;;
           store Pindex (- 2 / 3);;
           (* [Mstar], [Rstar] and the constants of [cgs] are Python
              floats: a zero divisor raises [ZeroDivisionError], a
              negative base under a fractional exponent [ValueError] *)
           if eqb_R (cgs_G u * mstar * cgs_Msun u) 0 then raise ZeroDivisionError else
           let fourpi2_GM := 4 * Np.power PI 2 / (cgs_G u * mstar * cgs_Msun u) in
           if ltb_R fourpi2_GM 0 then raise ValueError else
           if ltb_R (cgs_day u) 0 then raise ValueError else
           if eqb_R (Np.power (cgs_day u) (2 / 3)) 0 then raise ZeroDivisionError else
           let prefac := rstar * cgs_Rsun u * Np.power fourpi2_GM (1 / 3)
                         / Np.power (cgs_day u) (2 / 3) in
           store fgeo_prefac prefac;;
           let P := fst (Np.meshgrid xvar yvar) in
           store completeness
             (zip_with (zip_with (fun e p => e * prefac * Np.power p (- 2 / 3)))
                eff2D P));;
        store DetectionEfficiency true
  end.

(** [set_ranges(xtrim, ytrim, xzoom, yzoom, LogArea, Occ)] *)
Definition set_ranges (xtrim_ ytrim_ xzoom_ yzoom_ : option (R * R))
    (LogArea Occ : bool) : stateM epos unit :=
  rng ← load Range;
  if rng : bool then raise ValueError else
  obs ← load Observation;
  if negb obs then raise ValueError else
  de ← load DetectionEfficiency;
  if negb de then raise ValueError else
  (* the region where completeness is calculated *)
  xlim ← load eff_xlim;
  store xtrim (match xtrim_ with None => xlim | Some t => clamp t xlim end);;
  ylim ← load eff_ylim;
  store ytrim (match ytrim_ with None => ylim | Some t => clamp t ylim end);;
  (* the smaller region where the comparison is performed *)
  xt ← load xtrim;
  store xzoom (match xzoom_ with None => xt | Some z => clamp z xt end);;
  yt ← load ytrim;
  store yzoom (match yzoom_ with None => yt | Some z => clamp z yt end);;
  xz ← load xzoom;
  yz ← load yzoom;
  store Zoom (match xzoom_, yzoom_ with
              | None, None => false
              | _, _ => negb (eqb_pair xz xt && eqb_pair yz yt)
              end);;
  (* the grid for the observable: make sure range encompasses trim *)
  ex ← load eff_xvar;
  '(ixmin, ixmax) ← reading (fun _ => _trimarray ex xt);
  ey ← load eff_yvar;
  '(iymin, iymax) ← reading (fun _ => _trimarray ey yt);
  store MC_xvar (Np.slice ixmin ixmax ex);;
  store MC_yvar (Np.slice iymin iymax ey);;
  e2 ← load eff_2D;
  store MC_eff (Np.slice2 ixmin ixmax iymin iymax e2);;
  (* the factor that puts the pdf in units of dlnR dlnP *)
  let area := if LogArea then Np.log10 else Np.log in
  mx ← load MC_xvar;
  sx ← reading (fun _ => log_scale area mx);
  store scale_x sx;;
  my ← load MC_yvar;
  sy ← reading (fun _ => log_scale area my);
  store scale_y sy;;
  store scale (sx * sy);;
  store X (fst (Np.meshgrid mx my));;
  store Y (snd (Np.meshgrid mx my));;
  (* the grid for the pdf, if a mass-radius conversion is used *)
  pdf ← load PDF;
  (if pdf : bool then
     mr ← load MassRadius;
     if mr : bool then
       ml ← load masslimits;
       store in_ytrim ml;;
       let iy := Np.logspace (Np.log10 (fst ml)) (Np.log10 (snd ml)) 50 in
       store in_yvar iy;;
       siy ← reading (fun _ => log_scale area iy);
       store scale_in_y siy;;
       store scale_in (sx * siy);;
       store X_in (fst (Np.meshgrid mx iy));;
       store Y_in (snd (Np.meshgrid mx iy))
     else
       store in_ytrim yt;;
       store in_yvar my;;
       store scale_in_y sy;;
       store scale_in (sx * sy);;
       store X_in (fst (Np.meshgrid mx my));;
       store Y_in (snd (Np.meshgrid mx my))
   else mret tt);;
  store Range true;;
  if Occ then
    mr ← load MassRadius;
    (* [raise ValuError(...)]: the misspelt name is itself the error *)
    if mr : bool then raise NameError else
    focc ← (fun self => match self occurrence with
                        | Some d => (Ok d, self)
                        | None => (Ok {| occ_xzoom := None; occ_yzoom := None;
                                         occ_bin := None |}, self)
                        end);
    store occurrence
      {| occ_xzoom := Some (replicate (length my - 1) xz, Np.consecutive my);
         occ_yzoom := Some (Np.consecutive mx, replicate (length mx - 1) yz);
         occ_bin := occ_bin focc |}
  else mret tt.

(** The argument [xbins] or [ybins] of [set_bins], by its [np.ndim]: a
    bare pair of edges, a list of rows of edges, or anything else. *)
Inductive bins_arg : Type :=
| Bins1 (edges : list R)
| Bins2 (rows : grid)
| BinsN.

(** The list of inner and outer bin edges, from the grid when there is
    one, from the bins otherwise. *)
Definition bin_edges (bins : bins_arg) (g : option (list R)) : result grid :=
  match g with
  | Some g => Ok (Np.consecutive g)
  | None =>
      match bins with
      | Bins1 e => if Nat.eqb (length e) 2 then Ok [e] else Raise AssertionError
      | Bins2 rows => Ok rows
      | BinsN => Raise ValueError
      end
  end.

(** [set_bins(xbins, ybins, xgrid, ygrid, Grid)] *)
Definition set_bins (xbins ybins : bins_arg) (xgrid ygrid : option (list R))
    (Grid : bool) : stateM epos unit :=
  focc ← (fun self => match self occurrence with
                      | Some d => (Ok d, self)
                      | None =>
                          let d := {| occ_xzoom := None; occ_yzoom := None;
                                      occ_bin := None |} in
                          (Ok d, setattr occurrence d self)
                      end);
  _xbins ← reading (fun _ => bin_edges xbins xgrid);
  _ybins ← reading (fun _ => bin_edges ybins ygrid);
  let with_bin b := {| occ_xzoom := occ_xzoom focc; occ_yzoom := occ_yzoom focc;
                       occ_bin := Some b |} in
  store occurrence (with_bin {| bin_x := None; bin_y_in := None |});;
  if Grid then
    store occurrence
      (with_bin {| bin_x := Some (Np.tile _xbins (length _ybins));
                   bin_y_in := Some (Np.tile _ybins (length _xbins)) |})
  else if bool_decide (Np.shape _xbins = Np.shape _ybins) then
    store occurrence (with_bin {| bin_x := Some _xbins; bin_y_in := Some _ybins |})
  else raise ValueError.

(** [set_parametric(func)] *)
Definition set_parametric (f : pdf_func) : stateM epos unit :=
  store func f;;
  store Parametric true;;
  store PDF true;;
  store fitpars Registry.init.

(** [set_observation(xvar, yvar, starID, nstars)].  The multiplicity
    statistics that close the method come from [EPOS.multi] and are kept
    in dictionaries of their own; they are not part of the model. *)
Definition set_observation (xvar yvar : list R) (starID : list Z) (n : R)
    : stateM epos unit :=
  order ← reading (fun _ => Np.lexsort xvar starID);   (* by ID, then P *)
  ox ← reading (fun _ => Np.take_indices xvar order);
  store obs_xvar ox;;
  oy ← reading (fun _ => Np.take_indices yvar order);
  store obs_yvar oy;;
  oid ← reading (fun _ => Np.take_indices starID order);
  store obs_starID oid;;
  store nstars n;;
  if negb (Nat.eqb (length ox) (length oy) && Nat.eqb (length oy) (length oid))
  then raise AssertionError else
  (* plot limits 5% wider than the data *)
  xmin ← reading (fun _ => Np.min ox);
  xmax ← reading (fun _ => Np.max ox);
  ymin ← reading (fun _ => Np.min oy);
  ymax ← reading (fun _ => Np.max oy);
  let dx := Np.power (xmax / xmin) 0.05 in
  let dy := Np.power (ymax / ymin) 0.05 in
  store obs_xlim (xmin / dx, xmax * dx);;
  store obs_ylim (ymin / dy, ymax * dy);;
  store Observation true.

(** Modelled from the spec: [EPOS.multi.nth_planet], which is not among
    the sources.  For a catalogue sorted by star and period, a planet
    with an inner neighbour around the same star gets the ratio of its
    period to the neighbour's; the first planet of a star gets the
    sentinel, which [set_population] takes to be [0] for a star with one
    planet ([dP[single] = 0]) and leaves at the [1] of [np.ones_like] for
    the innermost planet of a multi-planet star. *)
Definition first_sentinel (id : Z) (rest : list (Z * R)) : R :=
  match rest with
  | (id1, _) :: _ => if (id1 =? id)%Z then 1 else 0
  | [] => 0
  end.

Fixpoint neighbor_ratio (prev : option (Z * R)) (l : list (Z * R)) : list R :=
  match l with
  | [] => []
  | (id, p) :: l' =>
      match prev with
      | Some (id0, p0) => if (id0 =? id)%Z then p / p0 else first_sentinel id l'
      | None => first_sentinel id l'
      end :: neighbor_ratio (Some (id, p)) l'
  end.

(** [pfm[k] = v]: [pfm] is the dictionary that [self.pfm] names. *)
Definition pfm_set (k : pfm_key) (v : pfm_type k) : stateM epos unit :=
  d ← load pfm; store pfm (setattr k v d).

(** [pfm[k]] *)
Definition pfm_get (k : pfm_key) : stateM epos (pfm_type k) :=
  d ← load pfm; reading (fun _ => getopt ((d : pfm_dict) k)).

(** [if key in pfm: pfm[key] = pfm[key][order]] *)
Definition pfm_reorder (field : pfm_dict -> option (list R))
    (put : list R -> stateM epos unit) (order : list nat) : stateM epos unit :=
  d ← load pfm;
  match field d with
  | Some a => a' ← reading (fun _ => Np.take_indices a order); put a'
  | None => mret tt
  end.

(** [set_population(name, sma, mass, inc, starID, tag)] *)
Definition set_population (name : string) (sma mass : list R)
    (inc : option (list R)) (starID : option (list Z)) (tag : option (list R))
    : stateM epos unit :=
  old ← gets (fun self => self pfm);
  if bool_decide (is_Some old) then raise ValueError else
  store Parametric false;;
  store fitpars Registry.init;;
  (* length checks *)
  if negb (Nat.eqb (length sma) (length mass)) then raise ValueError else
  store Multi (bool_decide (is_Some inc));;
  store pfm empty_obj;;
  pfm_set k_name name;;
  pfm_set k_sma sma;;
  pfm_set k_M mass;;
  let ids := match starID with
             | None => map Z.of_nat (seq 0 (length sma))
             | Some ids => ids
             end in
  pfm_set k_ID ids;;
  match tag with Some t => pfm_set k_tag t | None => mret tt end;;
  match inc with
  | None => store Multi false
  | Some i => store Multi true;; pfm_set k_inc i
  end;;
  let P := map (fun a => Np.power a 1.5 * 365.25) sma in
  pfm_set k_P P;;
  pfm_set k_np (length ids);;
  pfm_set k_ns (Np.unique_size ids);;
  (* multiple planets per star: lexsort, period ratio *)
  (if (Np.unique_size ids <? length ids)%nat then
     order ← reading (fun _ => Np.lexsort sma ids);   (* by ID, then sma *)
     ids' ← reading (fun _ => Np.take_indices ids order);
     pfm_set k_ID ids';;
     sma' ← reading (fun _ => Np.take_indices sma order);
     pfm_set k_sma sma';;
     mass' ← reading (fun _ => Np.take_indices mass order);
     pfm_set k_M mass';;
     P' ← reading (fun _ => Np.take_indices P order);
     pfm_set k_P P';;
     pfm_reorder (fun d => d k_inc) (pfm_set k_inc) order;;
     pfm_reorder (fun d => d k_tag) (pfm_set k_tag) order;;
     pfm_set k_dP (neighbor_ratio None (zip ids' P'))
   else mret tt);;
  M ← pfm_get k_M;
  P ← pfm_get k_P;
  mmin ← reading (fun _ => Np.min M);
  mmax ← reading (fun _ => Np.max M);
  pfm_set k_M_limits (mmin, mmax);;
  pmin ← reading (fun _ => Np.min P);
  pmax ← reading (fun _ => Np.max P);
  pfm_set k_P_limits (pmin, pmax);;
  (* plot limits 5% wider than the data *)
  let dx := Np.power (pmax / pmin) 0.05 in
  let dy := Np.power (mmax / mmin) 0.05 in
  store mod_xlim (pmin / dx, pmax * dx);;
  store mod_ylim (mmin / dy, mmax * dy).

(** The rows that [set_bins] stores. *)
Definition stored_bins (self : epos) : option (grid * grid) :=
  d ← self occurrence; b ← occ_bin d;
  x ← bin_x b; y ← bin_y_in b; Some (x, y).

End Epos.

(** ** EPOS.population *)

Module Population.
Import Epos.

(** [k * a / s * c], element by element. *)
Definition normalise (k s c : R) (a : list R) : list R :=
  map (fun v => k * v / s * c) a.

(** The first statement of [periodradius]: [pps] and the parameters of
    the 2D function, from the registry or from the list [fpara]. *)
Definition fit_values (Init : bool) (fpara : option (list R))
    (pars : Registry.fitparameters) : result (R * list R) :=
  match fpara with
  | None =>
      pps ← Registry.get "pps" Init pars;
      fpar2d ← Registry.get2d Init pars;
      Ok (pps, fpar2d)
  | Some fpara =>
      pps ← Registry.getmc "pps" fpara pars;
      fpar2d ← Registry.get2d_fromlist fpara pars;
      Ok (pps, fpar2d)
  end.

(** [periodradius(epos, Init, fpara, xbin, ybin, xgrid, ygrid)] returns
    [(pps, pdf, pdf_X, pdf_Y)]. *)
Definition periodradius (self : epos) (Init : bool) (fpara : option (list R))
    (xbin ybin xgrid ygrid : option (list R))
    : result (R * grid * list R * list R) :=
  pars ← getattr (self fitpars);
  '(pps, fpar2d) ← fit_values Init fpara pars;
  f ← getattr (self func);
  x_in ← getattr (self X_in);
  y_in ← getattr (self Y_in);
  let _pdf := f x_in y_in fpar2d in
  let _pdf_X := Np.sum_axis1 _pdf in
  let _pdf_Y := Np.sum_axis0 _pdf in
  (* calculate pdf on different grid? *)
  xgrid ← match xbin with
          | Some b =>
              lo ← Np.item b 0; hi ← Np.item b (-1);
              Ok (Some (Np.logspace (Np.log10 lo) (Np.log10 hi) 5))
          | None => Ok xgrid
          end;
  ygrid ← match ybin with
          | Some b =>
              lo ← Np.item b 0; hi ← Np.item b (-1);
              Ok (Some (Np.logspace (Np.log10 lo) (Np.log10 hi) 5))
          | None => Ok ygrid
          end;
  if bool_decide (is_Some xgrid \/ is_Some ygrid) then
    xgrid ← match xgrid with Some g => Ok g | None => getattr (self MC_xvar) end;
    ygrid ← match ygrid with Some g => Ok g | None => getattr (self MC_yvar) end;
    let pdf0 := f (fst (Np.meshgrid xgrid ygrid)) (snd (Np.meshgrid xgrid ygrid))
                  fpar2d in
    (* normalized per unit dlnxdlny *)
    sc ← getattr (self scale);
    let pdf := map (normalise pps (Np.sum2 _pdf) sc) pdf0 in
    xhi ← Np.item xgrid (-1); xlo ← Np.item xgrid 0;
    let dlnx := Np.log (xhi / xlo) in
    yhi ← Np.item ygrid (-1); ylo ← Np.item ygrid 0;
    let dlny := Np.log (yhi / ylo) in
    let pdf_X := map (fun v => v * dlny) (Np.average_axis1 pdf) in
    let pdf_Y := map (fun v => v * dlnx) (Np.average_axis0 pdf) in
    Ok (pps, pdf, pdf_X, pdf_Y)
  else
    (* normalized in units dlnx, dlny, and dlnxdlny *)
    sx ← getattr (self scale_x);
    let pdf_X := normalise pps (Np.sum _pdf_X) sx _pdf_X in
    siy ← getattr (self scale_in_y);
    let pdf_Y := normalise pps (Np.sum _pdf_Y) siy _pdf_Y in
    sc ← getattr (self scale);
    let pdf := map (normalise pps (Np.sum2 _pdf) sc) _pdf in
    Ok (pps, pdf, pdf_X, pdf_Y).

End Population.

(** ** Running examples *)

Module Examples.
Import Epos.

(** The registry of the running examples: a free 2D parameter [a] in
    [[0, 2]], and a free parameter [b] in [[0, 5]]. *)
Definition reg_ab : Registry.fitparameters :=
  snd (Registry.add "b" 1 false (Fin 0) (Fin 5) None false
    (snd (Registry.add "a" 1 false (Fin 0) (Fin 2) None true Registry.init))).

(** A registry in which the free key [a] was registered a second time,
    as a fixed parameter: [a] is still a free key, and its entry has no
    bounds. *)
Definition reg_a_refixed : Registry.fitparameters :=
  snd (Registry.add "a" 1 true NegInf PosInf None false
    (snd (Registry.add "a" 1 false (Fin 0) (Fin 2) None false Registry.init))).

Definition xbins_example : bins_arg := Bins2 [[1; 10]; [10; 100]].
Definition ybins_example : bins_arg := Bins2 [[1; 2]; [2; 4]].

(** A density that is [1] in every cell. *)
Definition flat_pdf : pdf_func := fun X _ _ => map (map (fun _ => 1)) X.

(** A registry that holds [pps = 1] as a fixed parameter. *)
Definition pps_registry : Registry.fitparameters :=
  snd (Registry.default "pps" 1 Registry.init).

(** An object after [set_observation], [set_survey] on the two-by-two
    grid over [[1, 10]] and [set_parametric] with [flat_pdf], with [pps]
    registered. *)
Definition surveyed : epos :=
  setattr fitpars pps_registry
    (setattr PDF true (setattr Parametric true (setattr func flat_pdf
      (setattr DetectionEfficiency true
        (setattr eff_ylim (1, 10) (setattr eff_xlim (1, 10)
          (setattr eff_2D [[1; 1]; [1; 1]]
            (setattr eff_yvar [1; 10] (setattr eff_xvar [1; 10]
              (setattr Observation true (init false))))))))))).

(** [surveyed] after [set_ranges()] with the given [LogArea]. *)
Definition configured (LogArea : bool) : epos :=
  snd (set_ranges None None None None LogArea false surveyed).

End Examples.

(** ** Invariants of the registry *)

Module Invariants.
Import Registry.

(** What every entry of a registry looks like: it is stored under its own
    key, its [dx], when it has one, is positive, a free entry carries
    [min], [max] and [dx], and a fixed entry carries none of them. *)
Definition entry_ok (k : string) (fp : fitpar) : Prop :=
  fp_key fp = k /\
  (forall d, fp_dx fp = Some d -> 0 < d) /\
  (fp_fixed fp = false ->
     is_Some (fp_min fp) /\ is_Some (fp_max fp) /\ is_Some (fp_dx fp)) /\
  (fp_fixed fp = true ->
     fp_min fp = None /\ fp_max fp = None /\ fp_dx fp = None).

(** Two entries that differ at most in their fitted value. *)
Definition same_but_fit (fp fp' : fitpar) : Prop :=
  fp_key fp' = fp_key fp /\ fp_value_init fp' = fp_value_init fp /\
  fp_fixed fp' = fp_fixed fp /\ fp_min fp' = fp_min fp /\
  fp_max fp' = fp_max fp /\ fp_dx fp' = fp_dx fp.

End Invariants.

(** ** Further examples *)

Module MoreExamples.

(** A registry with a free 2D parameter [a], a fixed 2D parameter [c]
    and a free parameter [b] that the 2D function does not take. *)
Definition reg_acb : Registry.fitparameters :=
  snd (Registry.add "b" 1 false (Fin 0) (Fin 5) None false
    (snd (Registry.add "c" 3 true NegInf PosInf None true
      (snd (Registry.add "a" 1 false (Fin 0) (Fin 2) None true Registry.init))))).

(** Units in which every constant of [cgs] is [1]. *)
Definition unit_cgs : Epos.cgs_units :=
  {| Epos.cgs_G := 1; Epos.cgs_Msun := 1; Epos.cgs_Rsun := 1; Epos.cgs_day := 1 |}.

(** A radial-velocity object after [set_observation] and
    [set_parametric], before [set_survey]. *)
Definition observed_rv : Epos.epos :=
  setattr Epos.fitpars Registry.init
    (setattr Epos.PDF true (setattr Epos.Parametric true
      (setattr Epos.func Examples.flat_pdf
        (setattr Epos.Observation true (Epos.init true))))).

End MoreExamples.

(** ** Frames of the methods of [epos] *)

Module Frames.
Import Epos.

(** The method [m] leaves the attribute [a] as it is, whether it returns
    or raises. *)
Definition preserves {A} (a : attr) (m : stateM epos A) : Prop :=
  forall self, snd (m self) a = self a.

(** The attributes that each method may assign. *)
Definition writes_set_observation : list attr :=
  [obs_xvar; obs_yvar; obs_starID; nstars; obs_xlim; obs_ylim; Observation].
Definition writes_set_survey : list attr :=
  [eff_xvar; eff_yvar; eff_2D; eff_xlim; eff_ylim; Mstar; Rstar; Pindex;
   fgeo_prefac; completeness; DetectionEfficiency].
Definition writes_set_ranges : list attr :=
  [xtrim; ytrim; xzoom; yzoom; Zoom; MC_xvar; MC_yvar; MC_eff;
   scale_x; scale_y; scale; X; Y;
   in_ytrim; in_yvar; scale_in_y; scale_in; X_in; Y_in; Range; occurrence].
Definition writes_set_parametric : list attr := [func; Parametric; PDF; fitpars].
Definition writes_set_population : list attr :=
  [Parametric; fitpars; Multi; pfm; mod_xlim; mod_ylim].

End Frames.

(** ** Densities that differ by a constant factor *)

Module Densities.
Import Epos.

(** The parametric function [f] with every value multiplied by [c]. *)
Definition scaled (c : R) (f : pdf_func) : pdf_func :=
  fun X Y p => map (map (Rmult c)) (f X Y p).

End Densities.

Module PopExamples.

(** A registry in which [pps] is a free parameter in [[0, 10]], and the
    configured example object holding it. *)
Definition pps_free_registry : Registry.fitparameters :=
  snd (Registry.add "pps" 2 false (Fin 0) (Fin 10) None false Registry.init).

Definition configured_free : Epos.epos :=
  setattr Epos.fitpars pps_free_registry (Examples.configured false).

End PopExamples.

(** ** EPOS.kepler *)

Module Kepler.

(** One planet candidate of the table [koi] that [dr25] loads: the
    columns come from one table and have one length, so the table is a
    list of rows.  [giantflag] is a column of the table built with
    [Gaia=True] only, the one case in which it is read. *)
Record koi_row : Type := {
  kepid : Z;
  koi_prad : R;
  koi_period : R;
  koi_steff : R;
  koi_slogg : R;
  koi_pdisposition : string;
  koi_score : R;
  giantflag : R
}.

(** The argument [subsample], by the branch of [dr25] that takes it:
    ['all']; one of ['M'], ['K'], ['G'], ['F']; a string that starts with
    ['T'], with the integer that [int] reads from the rest, if it reads
    one; the empty string; any other string. *)
Inductive sptype : Set := M | K | G | F.

Inductive subsample_arg : Type :=
| SubAll
| SubType (t : sptype)
| SubT (n : option Z)
| SubEmpty
| SubOther.

(** The dictionary [Teff] of temperature windows. *)
Definition Teff (t : sptype) : R * R :=
  match t with
  | M => (2400, 3865)
  | K => (3865, 5310)
  | G => (5310, 5980)
  | F => (5980, 7320)
  end.

(** Remove giant stars: the mask [isdwarf]. *)
Definition isdwarf (Gaia Huber : bool) (r : koi_row) : bool :=
  if Gaia then eqb_R (giantflag r) 0
  else if Huber then
    ltb_R (1 / 4.671 * atan ((koi_steff r - 6300) / - 67.172) + 3.876) (koi_slogg r)
  else ltb_R 4.2 (koi_slogg r).

(** Select reliable candidates: the masks [iscandidate], [isreliable]
    and [isall]. *)
Definition iscandidate (r : koi_row) : bool :=
  String.eqb (koi_pdisposition r) "CANDIDATE".

Definition isreliable (score : R) (r : koi_row) : bool :=
  negb (ltb_R (koi_score r) score).

Definition isall (Gaia Huber : bool) (score : R) (r : koi_row) : bool :=
  if negb (ltb_R score 0.5)
  then isdwarf Gaia Huber r && isreliable score r
  else isdwarf Gaia Huber r && iscandidate r && isreliable score r.

(** [(lo < koi['koi_steff']) & (koi['koi_steff'] <= hi)] *)
Definition in_window (lo hi : R) (r : koi_row) : bool :=
  ltb_R lo (koi_steff r) && negb (ltb_R hi (koi_steff r)).

(** Select a spectral type sub-sample: the mask [slice]. *)
Definition slice (Gaia Huber : bool) (score : R) (subsample : subsample_arg)
    : result (koi_row -> bool) :=
  match subsample with
  | SubAll => Ok (isall Gaia Huber score)
  | SubType t =>
      Ok (fun r => isall Gaia Huber score r && in_window (fst (Teff t)) (snd (Teff t)) r)
  | SubT (Some n) =>
      Ok (fun r => isall Gaia Huber score r
                   && in_window (IZR (n - 250)) (IZR (n + 250)) r)
  | SubT None => Raise ValueError
  | SubEmpty => Raise IndexError
  | SubOther => Raise ValueError
  end.

(** The dictionary [obs] as [dr25] builds it from the table; ['nstars']
    is added later from the completeness file. *)
Record obs_dict : Type := { xvar : list R; yvar : list R; starID : list Z }.

(** [dr25(subsample, score, Gaia, Huber)]: the selection of the observed
    planets, from the table [koi] as loaded. *)
Definition dr25 (koi : list koi_row) (subsample : subsample_arg) (score : R)
    (Gaia Huber : bool) : result obs_dict :=
  m ← slice Gaia Huber score subsample;
  let sel := List.filter m koi in
  Ok {| xvar := map koi_period sel; yvar := map koi_prad sel;
        starID := map kepid sel |}.

(** [fbpl2d((x,y), a, b, c, d, e, f, g)] at one point of the grid, and on
    the grids [X], [Y]. *)
Definition fbpl2d (x y a b c d e f g : R) : R :=
  let bpl := a * Np.power (x / b) (if ltb_R x b then c else d)
               * Np.power (y / e) (if ltb_R y e then f else g) in
  Np.max2 0.2 (Np.min2 bpl 1).

Definition fbpl2d_grid (X Y : grid) (a b c d e f g : R) : grid :=
  zip_with (zip_with (fun x y => fbpl2d x y a b c d e f g)) X Y.

(** The parameters [vetpars] of the vetting completeness. *)
Definition vetpars (Gaia : bool) : R * R * R * R * R * R * R :=
  if Gaia then (0.84, 55, - 0.07, - 0.37, 8.2, 0.13, 0.13)
  else (0.88, 53, - 0.07, - 0.39, 5.7, 0.19, 0.19).

End Kepler.

Module KeplerExamples.
Import Kepler.

(** Two dwarfs with a planet candidate each: an M star and a G star. *)
Definition two_kois : list koi_row :=
  [ {| kepid := 1; koi_prad := 2; koi_period := 10; koi_steff := 3500;
       koi_slogg := 4.8; koi_pdisposition := "CANDIDATE"; koi_score := 1;
       giantflag := 0 |};
    {| kepid := 2; koi_prad := 1; koi_period := 100; koi_steff := 5700;
       koi_slogg := 4.5; koi_pdisposition := "CANDIDATE"; koi_score := 0.95;
       giantflag := 0 |} ].

End KeplerExamples.

(** * Properties *)

(** ** Float comparisons *)

Lemma ltb_R_true x y : x < y -> ltb_R x y = true.
Proof. unfold ltb_R. destruct (Rlt_dec x y); [reflexivity | contradiction]. Qed.

Lemma ltb_R_false x y : y <= x -> ltb_R x y = false.
Proof. unfold ltb_R. destruct (Rlt_dec x y); [lra | reflexivity]. Qed.

Lemma ltb_R_spec x y : ltb_R x y = true <-> x < y.
Proof. unfold ltb_R. destruct (Rlt_dec x y); split; intros; try easy. Qed.

Lemma ltb_R_nspec x y : ltb_R x y = false <-> y <= x.
Proof. unfold ltb_R. destruct (Rlt_dec x y); split; intros; try easy; lra. Qed.

Lemma eqb_R_true x y : x = y -> eqb_R x y = true.
Proof. unfold eqb_R. destruct (Req_dec_T x y); [reflexivity | contradiction]. Qed.

Lemma eqb_R_false x y : x <> y -> eqb_R x y = false.
Proof. unfold eqb_R. destruct (Req_dec_T x y); [contradiction | reflexivity]. Qed.

(** Decide every float comparison in the goal whose outcome [lra] finds. *)
Ltac Rdecide :=
  repeat match goal with
  | |- context [ltb_R ?a ?b] =>
      first [ rewrite (ltb_R_true a b) by lra | rewrite (ltb_R_false a b) by lra ]
  | |- context [eqb_R ?a ?b] =>
      first [ rewrite (eqb_R_true a b) by lra | rewrite (eqb_R_false a b) by lra ]
  end.

(** Evaluate an expression over concrete floats. *)
Ltac Reval :=
  repeat (progress (cbv -[ltb_R eqb_R IZR Rplus Rmult Rdiv Rminus Ropp Rinv INR
                          ln exp Rpower Np.log Np.log10 Np.power];
                    Rdecide)).

Lemma lt_bound_spec v b : lt_bound v b = true <-> below v b.
Proof. destruct b; simpl; [easy | apply ltb_R_spec | easy]. Qed.

Lemma gt_bound_spec v b : gt_bound v b = true <-> above v b.
Proof. destruct b; simpl; [easy | apply ltb_R_spec | easy]. Qed.


(** ** The fit-parameter registry *)

Section mapM_result.
Context {A B : Type} (f : A -> result B).

Lemma mapM_result_cons x l :
  mapM f (x :: l) = y ← f x; k ← mapM f l; mret (y :: k).
Proof. reflexivity. Qed.

Lemma mapM_result_length l v : mapM f l = Ok v -> length v = length l.
Proof.
  revert v. induction l as [|x l IH]; intros v H.
  - inversion H. reflexivity.
  - rewrite mapM_result_cons in H. destruct (f x) as [y|e]; [|discriminate].
    simpl in H. destruct (mapM f l) as [k|e]; [|discriminate].
    inversion H. simpl. f_equal. apply IH. reflexivity.
Qed.

Lemma mapM_result_Ok l :
  (forall x, x ∈ l -> exists y, f x = Ok y) -> exists v, mapM f l = Ok v.
Proof.
  induction l as [|x l IH]; intros H.
  - exists []. reflexivity.
  - destruct (H x) as [y Hy]; [left|].
    destruct IH as [k Hk]; [intros z Hz; apply H; right; exact Hz|].
    exists (y :: k). rewrite mapM_result_cons, Hy. simpl. rewrite Hk. reflexivity.
Qed.

Lemma mapM_result_lookup l v i x :
  mapM f l = Ok v -> l !! i = Some x -> exists y, v !! i = Some y /\ f x = Ok y.
Proof.
  revert v i. induction l as [|a l IH]; intros v i H Hi; [discriminate|].
  rewrite mapM_result_cons in H. destruct (f a) as [y|e] eqn:Ha; [|discriminate].
  simpl in H. destruct (mapM f l) as [k|e]; [|discriminate].
  inversion H; subst v. destruct i as [|i]; simpl in *.
  - inversion Hi; subst. eauto.
  - eapply IH; eauto.
Qed.
End mapM_result.

Module RegistryFacts.
Import Registry.

(** Membership in the concatenated key lists. *)
Ltac elem_app_tac :=
  repeat match goal with
  | H : _ ∈ _ ++ _ |- _ => apply elem_of_app in H
  | H : _ ∈ [_] |- _ => apply list_elem_of_singleton in H
  | H : _ \/ _ |- _ => destruct H
  end;
  subst; repeat rewrite elem_of_app; try rewrite list_elem_of_singleton;
  try congruence; tauto.

Lemma get_registered key Init self :
  is_Some (fitpars self !! key) -> exists v, get key Init self = Ok v.
Proof.
  intros [fp Hfp]. unfold get, getkey. rewrite Hfp. simpl.
  destruct (fp_value_fit fp), Init; eauto.
Qed.

(** What [setfit]'s loop leaves untouched. *)
Lemma setfit_loop_frame keys : forall i mclist self,
  let self' := snd (setfit_loop i keys mclist self) in
  keysall self' = keysall self /\ keysfit self' = keysfit self /\
  keys2d self' = keys2d self /\
  (forall k, is_Some (fitpars self !! k) -> is_Some (fitpars self' !! k)) /\
  (forall k, k ∉ keys -> fitpars self' !! k = fitpars self !! k).
Proof.
  induction keys as [|key keys IH]; intros i mclist self; simpl.
  - repeat split; auto.
  - destruct (mclist !! i) as [v|]; simpl; [|repeat split; auto].
    destruct (fitpars self !! key) as [fp|] eqn:Hfp; simpl; [|repeat split; auto].
    specialize (IH (S i) mclist
      (with_fitpars self (<[key := set_value_fit fp v]> (fitpars self)))).
    simpl in IH. destruct IH as (H1 & H2 & H3 & H4 & H5).
    repeat split; auto.
    + intros k Hk. apply H4. simpl.
      destruct (decide (key = k)) as [->|Hne].
      * rewrite lookup_insert_eq. eauto.
      * rewrite lookup_insert_ne by exact Hne. exact Hk.
    + intros k Hk. rewrite H5.
      * simpl. apply lookup_insert_ne. intros ->. apply Hk. left.
      * intros Hin. apply Hk. right. exact Hin.
Qed.

(** A registry built by method calls lists only registered keys. *)
Lemma built_keys_registered self : built self -> keys_registered self.
Proof.
  induction 1 as [|self c Hb IH].
  - intros key Hk. simpl in Hk. inversion Hk.
  - destruct c as [key value fixed mn mx dx is2D|key value|key value|mclist]; simpl.
    + intros k Hk. simpl in *.
      destruct (decide (key = k)) as [->|Hne]; [rewrite lookup_insert_eq; eauto|].
      rewrite lookup_insert_ne by exact Hne. apply IH.
      destruct fixed, is2D; elem_app_tac.
    + unfold default. case_bool_decide as Hin; [exact IH|].
      intros k Hk. simpl in *.
      destruct (decide (key = k)) as [->|Hne]; [rewrite lookup_insert_eq; eauto|].
      rewrite lookup_insert_ne by exact Hne. apply IH. elem_app_tac.
    + unfold set. destruct (fitpars self !! key) as [fp|] eqn:Hfp; [|exact IH].
      intros k Hk. simpl in *.
      destruct (decide (key = k)) as [->|Hne]; [rewrite lookup_insert_eq; eauto|].
      rewrite lookup_insert_ne by exact Hne. apply IH. exact Hk.
    + unfold setfit.
      destruct (setfit_loop_frame (keysfit self) 0 mclist self) as (H1 & H2 & H3 & H4 & _).
      intros k Hk. apply H4, IH. rewrite H1, H2, H3 in Hk. exact Hk.
Qed.

(** [setfit] on pairwise distinct keys: it succeeds when the vector is long
    enough, and afterwards [get] reads back the component of each key. *)
Lemma setfit_loop_get keys : forall i mclist self,
  NoDup keys ->
  (forall k, k ∈ keys -> is_Some (fitpars self !! k)) ->
  (i + length keys <= length mclist)%nat ->
  exists self', setfit_loop i keys mclist self = (Ok tt, self') /\
    forall j key, keys !! j = Some key ->
      exists v, mclist !! (i + j)%nat = Some v /\ get key false self' = Ok v.
Proof.
  induction keys as [|key keys IH]; intros i mclist self Hnd Hreg Hlen; simpl.
  - exists self. split; [reflexivity|]. intros j key Hj. discriminate.
  - simpl in Hlen. apply NoDup_cons in Hnd as [Hnin Hnd].
    destruct (mclist !! i) as [v|] eqn:Hv;
      [|apply lookup_ge_None in Hv; lia].
    destruct (Hreg key) as [fp Hfp]; [left|]. rewrite Hfp.
    set (self1 := with_fitpars self (<[key := set_value_fit fp v]> (fitpars self))).
    destruct (IH (S i) mclist self1) as (self' & Hrun & Hget); [exact Hnd| |lia|].
    { intros k Hk. simpl. destruct (decide (key = k)) as [->|Hne].
      - rewrite lookup_insert_eq. eauto.
      - rewrite lookup_insert_ne by exact Hne. apply Hreg. right. exact Hk. }
    exists self'. split; [exact Hrun|].
    intros [|j] k Hj; simpl in Hj.
    + inversion Hj; subst k. exists v. rewrite Nat.add_0_r. split; [exact Hv|].
      destruct (setfit_loop_frame keys (S i) mclist self1) as (_ & _ & _ & _ & Hfr).
      rewrite Hrun in Hfr. simpl in Hfr.
      unfold get, getkey. rewrite (Hfr key Hnin). simpl.
      rewrite lookup_insert_eq. reflexivity.
    + destruct (Hget j k Hj) as (w & Hw & Hgw). exists w.
      replace (i + S j)%nat with (S i + j)%nat by lia. split; assumption.
Qed.

(** The free vector of a built registry has one entry per free key. *)
Lemma getfit_length self Init :
  built self ->
  exists vec, getfit Init self = Ok vec /\ length vec = length (keysfit self).
Proof.
  intros Hb. pose proof (built_keys_registered self Hb) as Hreg.
  destruct (mapM_result_Ok (fun key => get key Init self) (keysfit self)) as [vec Hvec].
  { intros k Hk. apply get_registered, Hreg. elem_app_tac. }
  exists vec. split; [exact Hvec|]. eapply mapM_result_length, Hvec.
Qed.

(** C4. For every registry the class can build whose free keys are pairwise
    distinct, and every vector as long as the free-key list: [getfit]
    returns a vector of the length of [keysfit], [setfit] succeeds, and
    afterwards [get(key, Init=False)] returns, for the free key at each
    position, the vector component at that position. *)
Theorem setfit_get_roundtrip (self : fitparameters) (mclist : list R) :
  built self ->
  NoDup (keysfit self) ->
  length mclist = length (keysfit self) ->
  (forall Init, exists vec,
     getfit Init self = Ok vec /\ length vec = length (keysfit self)) /\
  exists self', setfit mclist self = (Ok tt, self') /\
    forall i key, keysfit self !! i = Some key ->
      exists v, mclist !! i = Some v /\ get key false self' = Ok v.
Proof.
  intros Hb Hnd Hlen. pose proof (built_keys_registered self Hb) as Hreg.
  assert (Hfree : forall k, k ∈ keysfit self -> is_Some (fitpars self !! k)).
  { intros k Hk. apply Hreg. elem_app_tac. }
  split.
  - intros Init. apply getfit_length, Hb.
  - unfold setfit.
    destruct (setfit_loop_get (keysfit self) 0 mclist self Hnd Hfree) as (self' & Hrun & Hget);
      [lia|].
    exists self'. split; [exact Hrun|]. intros i key Hi. exact (Hget i key Hi).
Qed.

Lemma reg_ab_built : built Examples.reg_ab.
Proof.
  exact (built_call _ (CallAdd "b" 1 false (Fin 0) (Fin 5) None false)
    (built_call _ (CallAdd "a" 1 false (Fin 0) (Fin 2) None true) built_init)).
Defined.

Lemma setfit_get_roundtrip_witness :
  exists self', setfit [3; 4] Examples.reg_ab = (Ok tt, self') /\ get "b" false self' = Ok 4.
Proof.
  destruct (setfit_get_roundtrip Examples.reg_ab [3; 4]) as [_ (self' & Hrun & Hget)].
  - exact reg_ab_built.
  - apply (bool_decide_unpack _). vm_compute. reflexivity.
  - reflexivity.
  - exists self'. split; [exact Hrun|].
    destruct (Hget 1%nat "b" eq_refl) as (v & Hv & Hg).
    inversion Hv; subst v. exact Hg.
Defined.

Lemma not_below_at_least v b : ~ below v b <-> at_least v b.
Proof. destruct b; simpl; [tauto | lra | tauto]. Qed.

Lemma not_above_at_most v b : ~ above v b <-> at_most v b.
Proof. destruct b; simpl; [tauto | lra | tauto]. Qed.

Lemma lt_bound_false v b : lt_bound v b = false <-> at_least v b.
Proof.
  rewrite <- not_below_at_least, <- lt_bound_spec.
  destruct (lt_bound v b); split; congruence.
Qed.

Lemma gt_bound_false v b : gt_bound v b = false <-> at_most v b.
Proof.
  rewrite <- not_above_at_most, <- gt_bound_spec.
  destruct (gt_bound v b); split; congruence.
Qed.

(** [checkbounds] only reads the registry. *)
Lemma checkbounds_loop_state keys : forall i parlist self,
  snd (checkbounds_loop i keys parlist self) = self.
Proof.
  induction keys as [|key keys IH]; intros i parlist self; simpl; [reflexivity|].
  unfold mbind, stateM_bind, result_bind, reading, raise, getkey, getopt.
  destruct (getitem parlist i) as [v|e]; [|reflexivity].
  destruct (fitpars self !! key) as [fp|] eqn:Hfp; [|reflexivity].
  destruct (fp_min fp) as [mn|]; [|reflexivity].
  destruct (lt_bound v mn); [reflexivity|]. cbv beta. rewrite Hfp.
  destruct (fp_max fp) as [mx|]; [|reflexivity].
  destruct (gt_bound v mx); [reflexivity|]. apply IH.
Qed.

(** One round of the loop, for a key whose entry carries bounds. *)
Lemma checkbounds_loop_step i key keys parlist self v fp mn mx :
  parlist !! i = Some v -> fitpars self !! key = Some fp ->
  fp_min fp = Some mn -> fp_max fp = Some mx ->
  checkbounds_loop i (key :: keys) parlist self =
    if lt_bound v mn then (Raise ValueError, self)
    else if gt_bound v mx then (Raise ValueError, self)
    else checkbounds_loop (S i) keys parlist self.
Proof.
  intros Hv Hfp Hmn Hmx. simpl.
  unfold mbind, stateM_bind, result_bind, reading, raise, getitem, getkey, getopt.
  cbv beta. rewrite Hv, Hfp, Hmn.
  destruct (lt_bound v mn); [reflexivity|].
  rewrite Hfp, Hmx. destruct (gt_bound v mx); reflexivity.
Qed.

Lemma checkbounds_loop_spec keys : forall i parlist self,
  (forall key, key ∈ keys -> exists fp mn mx, fitpars self !! key = Some fp /\
     fp_min fp = Some mn /\ fp_max fp = Some mx) ->
  (i + length keys <= length parlist)%nat ->
  let r := fst (checkbounds_loop i keys parlist self) in
  (r = Ok tt \/ r = Raise ValueError) /\
  (r = Raise ValueError <->
     exists j key v fp, keys !! j = Some key /\ parlist !! (i + j)%nat = Some v /\
       fitpars self !! key = Some fp /\ outside v fp).
Proof.
  induction keys as [|key keys IH]; intros i parlist self Hb Hlen.
  - simpl. split; [left; reflexivity|]. split; [discriminate|].
    intros (j & k & v & fp & Hj & _). discriminate.
  - simpl in Hlen.
    destruct (parlist !! i) as [v|] eqn:Hv; [|apply lookup_ge_None in Hv; lia].
    destruct (Hb key) as (fp & mn & mx & Hfp & Hmn & Hmx); [left|].
    rewrite (checkbounds_loop_step i key keys parlist self v fp mn mx Hv Hfp Hmn Hmx).
    destruct (lt_bound v mn) eqn:Hlt; [|destruct (gt_bound v mx) eqn:Hgt].
    + simpl. split; [right; reflexivity|]. split; [intros _|reflexivity].
      exists 0%nat, key, v, fp. rewrite Nat.add_0_r. repeat split; try assumption.
      left. exists mn. split; [exact Hmn|]. apply lt_bound_spec, Hlt.
    + simpl. split; [right; reflexivity|]. split; [intros _|reflexivity].
      exists 0%nat, key, v, fp. rewrite Nat.add_0_r. repeat split; try assumption.
      right. exists mx. split; [exact Hmx|]. apply gt_bound_spec, Hgt.
    + destruct (IH (S i) parlist self) as [Hcase Hiff];
        [intros k Hk; apply Hb; right; exact Hk | lia |].
      split; [exact Hcase|]. rewrite Hiff. split.
      * intros (j & k & w & fq & Hj & Hw & Hfq & Hout).
        exists (S j), k, w, fq. replace (i + S j)%nat with (S i + j)%nat by lia.
        repeat split; assumption.
      * intros (j & k & w & fq & Hj & Hw & Hfq & Hout).
        destruct j as [|j]; simpl in Hj.
        -- exfalso. inversion Hj; subst k. rewrite Nat.add_0_r in Hw.
           rewrite Hv in Hw. inversion Hw; subst w.
           rewrite Hfp in Hfq. inversion Hfq; subst fq.
           apply lt_bound_false, not_below_at_least in Hlt.
           apply gt_bound_false, not_above_at_most in Hgt.
           destruct Hout as [(mn' & Hmn' & Hbel)|(mx' & Hmx' & Habo)].
           ++ rewrite Hmn in Hmn'. inversion Hmn'; subst mn'. tauto.
           ++ rewrite Hmx in Hmx'. inversion Hmx'; subst mx'. tauto.
        -- exists j, k, w, fq. replace (S i + j)%nat with (i + S j)%nat by lia.
           repeat split; assumption.
Qed.

(** C5, for the registries whose free keys name entries with bounds.
    For every such registry and every vector as long as the free-key
    list: [checkbounds] raises [ValueError] exactly when some component
    lies strictly below the [min] or strictly above the [max] of the free
    parameter at its position; it returns normally when every component
    lies in the closed interval, so values equal to a bound pass; it
    never fails in another way, and it leaves the registry as it was. *)
Theorem checkbounds_raises_iff_outside (self : fitparameters) (parlist : list R) :
  free_bounds self ->
  length parlist = length (keysfit self) ->
  let r := fst (checkbounds parlist self) in
  (r = Raise ValueError <->
     exists i key v fp, keysfit self !! i = Some key /\ parlist !! i = Some v /\
       fitpars self !! key = Some fp /\ outside v fp) /\
  ((forall i key v fp, keysfit self !! i = Some key -> parlist !! i = Some v ->
      fitpars self !! key = Some fp -> within v fp) -> r = Ok tt) /\
  (r = Ok tt \/ r = Raise ValueError) /\
  snd (checkbounds parlist self) = self.
Proof.
  intros Hfb Hlen. unfold checkbounds.
  destruct (checkbounds_loop_spec (keysfit self) 0 parlist self Hfb) as [Hcase Hiff];
    [simpl; lia|].
  simpl in Hiff. split; [exact Hiff|]. split; [|split; [exact Hcase|]].
  - intros Hin. destruct Hcase as [Hok|Hraise]; [exact Hok|]. exfalso.
    apply Hiff in Hraise. destruct Hraise as (j & key & v & fp & Hj & Hv & Hfp & Hout).
    destruct (Hin j key v fp Hj Hv Hfp) as (mn & mx & Hmn & Hmx & Hge & Hle).
    apply not_below_at_least in Hge. apply not_above_at_most in Hle.
    destruct Hout as [(mn' & Hmn' & Hbel)|(mx' & Hmx' & Habo)].
    + rewrite Hmn in Hmn'. inversion Hmn'; subst mn'. tauto.
    + rewrite Hmx in Hmx'. inversion Hmx'; subst mx'. tauto.
  - apply checkbounds_loop_state.
Qed.

(** [setfit] keeps the bounds of every entry. *)
Lemma setfit_loop_bounds keys : forall i mclist self k fp,
  fitpars self !! k = Some fp ->
  exists fp', fitpars (snd (setfit_loop i keys mclist self)) !! k = Some fp' /\
    fp_min fp' = fp_min fp /\ fp_max fp' = fp_max fp.
Proof.
  induction keys as [|key keys IH]; intros i mclist self k fp Hk; simpl.
  - exists fp. auto.
  - destruct (mclist !! i) as [v|]; simpl; [|exists fp; auto].
    destruct (fitpars self !! key) as [fq|] eqn:Hq; simpl; [|exists fp; auto].
    destruct (decide (key = k)) as [->|Hne].
    + rewrite Hk in Hq. inversion Hq; subst fq.
      destruct (IH (S i) mclist
                  (with_fitpars self (<[k := set_value_fit fp v]> (fitpars self)))
                  k (set_value_fit fp v)) as (fp' & H1 & H2 & H3);
        [simpl; apply lookup_insert_eq|].
      exists fp'. split; [exact H1|]. split; assumption.
    + apply IH. simpl. rewrite lookup_insert_ne by exact Hne. exact Hk.
Qed.

(** In a registry built without registering a key twice, every free key
    names an entry with bounds. *)
Lemma built_nodup_free_bounds self :
  built self -> NoDup (keysall self) ->
  (forall k, k ∈ keysfit self -> k ∈ keysall self) /\ free_bounds self.
Proof.
  induction 1 as [|self c Hb IH].
  - intros _. split; intros k Hk; inversion Hk.
  - destruct c as [key value fixed mn mx dx is2D|key value|key value|mclist]; simpl.
    + intros Hnd. apply NoDup_app in Hnd as (Hnd & Hdisj & _).
      destruct (IH Hnd) as [Hsub Hfb].
      assert (Hfresh : key ∉ keysall self).
      { intros Hin. apply (Hdisj key Hin). left. }
      split.
      * intros k Hk. apply elem_of_app. destruct fixed; [left; auto|].
        apply elem_of_app in Hk as [Hk|Hk]; [left; auto|right; exact Hk].
      * intros k Hk. simpl in *.
        destruct (decide (key = k)) as [->|Hne].
        -- rewrite lookup_insert_eq. destruct fixed.
           ++ exfalso. apply Hfresh, Hsub, Hk.
           ++ eexists _, _, _. split; [reflexivity|]. split; reflexivity.
        -- rewrite lookup_insert_ne by exact Hne. apply Hfb.
           destruct fixed; [exact Hk|].
           apply elem_of_app in Hk as [Hk|Hk]; [exact Hk|].
           apply list_elem_of_singleton in Hk. congruence.
    + unfold default. case_bool_decide as Hin; [exact IH|]. simpl.
      intros Hnd. apply NoDup_app in Hnd as (Hnd & _ & _).
      destruct (IH Hnd) as [Hsub Hfb]. split.
      * intros k Hk. apply elem_of_app. left. auto.
      * intros k Hk. simpl in *.
        rewrite lookup_insert_ne by (intros ->; apply Hin, Hsub, Hk). apply Hfb, Hk.
    + unfold set. destruct (fitpars self !! key) as [fp|] eqn:Hfp; [|exact IH]. simpl.
      intros Hnd. destruct (IH Hnd) as [Hsub Hfb]. split; [exact Hsub|].
      intros k Hk. simpl in *. destruct (Hfb k Hk) as (fq & mn & mx & Hq & Hmn & Hmx).
      destruct (decide (key = k)) as [->|Hne].
      * rewrite lookup_insert_eq. rewrite Hq in Hfp. inversion Hfp; subst fp.
        eexists _, mn, mx. split; [reflexivity|]. split; assumption.
      * rewrite lookup_insert_ne by exact Hne. eauto 6.
    + unfold setfit.
      destruct (setfit_loop_frame (keysfit self) 0 mclist self) as (H1 & H2 & H3 & _).
      rewrite H1. intros Hnd. destruct (IH Hnd) as [Hsub Hfb]. split.
      * intros k Hk. rewrite H2 in Hk. auto.
      * intros k Hk. rewrite H2 in Hk.
        destruct (Hfb k Hk) as (fq & mn & mx & Hq & Hmn & Hmx).
        destruct (setfit_loop_bounds (keysfit self) 0 mclist self k fq Hq)
          as (fp' & Hp' & Hmin & Hmax).
        exists fp', mn, mx. split; [exact Hp'|]. split; congruence.
Qed.

Lemma reg_ab_a : fitpars Examples.reg_ab !! "a" = Some (new_fitpar "a" 1 false (Fin 0) (Fin 2) None).
Proof. unfold Examples.reg_ab. simpl. rewrite lookup_insert_ne by discriminate. apply lookup_insert_eq. Qed.

Lemma reg_ab_b : fitpars Examples.reg_ab !! "b" = Some (new_fitpar "b" 1 false (Fin 0) (Fin 5) None).
Proof. unfold Examples.reg_ab. simpl. apply lookup_insert_eq. Qed.

Lemma reg_ab_free_bounds : free_bounds Examples.reg_ab.
Proof.
  apply built_nodup_free_bounds; [exact reg_ab_built|].
  apply (bool_decide_unpack _). vm_compute. reflexivity.
Qed.

(** Both components sit on the upper bound of their parameter. *)
Lemma checkbounds_raises_iff_outside_witness :
  fst (checkbounds [2; 5] Examples.reg_ab) = Ok tt.
Proof.
  destruct (checkbounds_raises_iff_outside Examples.reg_ab [2; 5]) as (_ & Hin & _).
  - exact reg_ab_free_bounds.
  - reflexivity.
  - apply Hin. intros i key v fp Hi Hv Hfp.
    destruct i as [|[|i]]; simpl in Hi; inversion Hi; subst key;
      simpl in Hv; inversion Hv; subst v.
    + rewrite reg_ab_a in Hfp. inversion Hfp; subst fp.
      eexists _, _. split; [reflexivity|]. split; [reflexivity|]. simpl. lra.
    + rewrite reg_ab_b in Hfp. inversion Hfp; subst fp.
      eexists _, _. split; [reflexivity|]. split; [reflexivity|]. simpl. lra.
Defined.

(** C5 as stated, for every registry, fails on [reg_a_refixed], where the
    free key [a] was registered again as a fixed parameter: the vector
    [[1]] has the length of the free-key list and none of its components
    lies outside an interval, since the entry of [a] has none, and yet
    [checkbounds] does not return: looking up ['min'] raises [KeyError],
    a failure that is not the one for a value out of bounds. *)
Lemma checkbounds_refixed_key_raises_KeyError :
  built Examples.reg_a_refixed /\
  length [1] = length (keysfit Examples.reg_a_refixed) /\
  checkbounds [1] Examples.reg_a_refixed = (Raise KeyError, Examples.reg_a_refixed) /\
  ~ (fst (checkbounds [1] Examples.reg_a_refixed) = Ok tt \/
     fst (checkbounds [1] Examples.reg_a_refixed) = Raise ValueError) /\
  ~ (exists i key v fp,
       keysfit Examples.reg_a_refixed !! i = Some key /\ [1] !! i = Some v /\
       fitpars Examples.reg_a_refixed !! key = Some fp /\ outside v fp).
Proof.
  split.
  { unfold Examples.reg_a_refixed.
    apply (built_call _ (CallAdd "a" 1 true NegInf PosInf None false)).
    apply (built_call _ (CallAdd "a" 1 false (Fin 0) (Fin 2) None false)).
    apply built_init. }
  split; [reflexivity|]. split; [reflexivity|].
  split; [intros [H|H]; discriminate H|].
  intros (i & key & v & fp & Hk & Hv & Hfp & Hout).
  destruct i as [|i]; [|destruct i; discriminate Hk].
  simpl in Hk. inversion Hk; subst key.
  change (fitpars Examples.reg_a_refixed !! "a")
    with (Some (new_fitpar "a" 1 true NegInf PosInf None)) in Hfp.
  inversion Hfp; subst fp.
  destruct Hout as [(mn & Hmn & _)|(mx & Hmx & _)]; discriminate.
Qed.

(** C9. For every built registry and every key it lists already, [add]
    does not raise: it replaces the entry stored under the key by the new
    one, appends the key once more to [keysall], to [keysfit] when
    [fixed=False] and to [keys2d] when [is2D=True]; [keysall] then holds
    the key twice, and with [fixed=False] the free vector is one longer
    than before. *)
Theorem add_registered_key_overwrites (self : fitparameters) (key : string)
    (value : R) (fixed : bool) (mn mx : bound) (dx : option R) (is2D : bool) :
  built self ->
  key ∈ keysall self ->
  exists self', add key value fixed mn mx dx is2D self = (Ok tt, self') /\
    fitpars self' !! key = Some (new_fitpar key value fixed mn mx dx) /\
    keysall self' = keysall self ++ [key] /\
    keysfit self' = (if fixed then keysfit self else keysfit self ++ [key]) /\
    keys2d self' = (if is2D then keys2d self ++ [key] else keys2d self) /\
    ~ NoDup (keysall self') /\
    (fixed = false -> forall Init, exists vec vec',
       getfit Init self = Ok vec /\ getfit Init self' = Ok vec' /\
       length vec' = S (length vec)).
Proof.
  intros Hb Hin. eexists. split; [reflexivity|]. simpl.
  split; [apply lookup_insert_eq|]. do 3 (split; [reflexivity|]). split.
  - intros Hnd. apply NoDup_app in Hnd as (_ & Hdisj & _).
    apply (Hdisj key Hin). left.
  - intros -> Init.
    destruct (getfit_length self Init Hb) as (vec & Hvec & Hlen).
    pose proof (built_call self (CallAdd key value false mn mx dx is2D) Hb) as Hb'.
    destruct (getfit_length _ Init Hb') as (vec' & Hvec' & Hlen').
    exists vec, vec'. split; [exact Hvec|]. split; [exact Hvec'|].
    rewrite Hlen', Hlen. simpl. rewrite length_app. simpl. lia.
Qed.

Lemma add_registered_key_overwrites_witness :
  exists self', add "a" 7 false NegInf PosInf None false Examples.reg_ab = (Ok tt, self') /\
    keysfit self' = ["a"; "b"; "a"].
Proof.
  destruct (add_registered_key_overwrites Examples.reg_ab "a" 7 false NegInf PosInf None false)
    as (self' & Hrun & _ & _ & Hfit & _).
  - exact reg_ab_built.
  - left.
  - exists self'. split; [exact Hrun|]. exact Hfit.
Defined.

End RegistryFacts.

(** ** Running a method *)

Lemma setattr_eq {K} `{EqDecision K} {T : K -> Type} (a : K) (v : T a)
    (self : obj K T) :
  setattr a v self a = Some v.
Proof.
  unfold setattr. destruct (decide (a = a)) as [e|n]; [|contradiction].
  rewrite (proof_irrel e eq_refl). reflexivity.
Qed.

Lemma setattr_ne {K} `{EqDecision K} {T : K -> Type} (a b : K) (v : T a)
    (self : obj K T) :
  a <> b -> setattr a v self b = self b.
Proof.
  intros Hne. unfold setattr. destruct (decide (a = b)); [contradiction|reflexivity].
Qed.

(** Unfold the monad of a method down to pairs of a result and a state. *)
Ltac unfold_stateM :=
  unfold mbind, mret, stateM_bind, stateM_ret, result_bind, result_ret,
    Epos.load, Epos.store, load_attr, store_attr, reading, raise, gets, modify,
    getattr, getopt.

(** Inversion of a run that returned normally. *)
Lemma bind_Ok_inv {S A B} (c : stateM S A) (f : A -> stateM S B) s b s' :
  (c ≫= f) s = (Ok b, s') ->
  exists a s1, c s = (Ok a, s1) /\ f a s1 = (Ok b, s').
Proof.
  unfold mbind, stateM_bind. destruct (c s) as [[a|e] s1]; intros H.
  - exists a, s1. split; [reflexivity | exact H].
  - discriminate.
Qed.

Lemma bind_Ok_intro {S A B} (c : stateM S A) (f : A -> stateM S B) s a s1 :
  c s = (Ok a, s1) -> (c ≫= f) s = f a s1.
Proof. unfold mbind, stateM_bind. intros ->. reflexivity. Qed.

Lemma reading_Ok_inv {S A} (g : S -> result A) s a s' :
  reading g s = (Ok a, s') -> g s = Ok a /\ s' = s.
Proof. unfold reading. intros H. inversion H. split; reflexivity. Qed.

Lemma load_Ok_inv {K} `{EqDecision K} {T : K -> Type} (a : K) (s s' : obj K T) v :
  load_attr a s = (Ok v, s') -> s a = Some v /\ s' = s.
Proof.
  unfold load_attr, reading, getattr. destruct (s a); intros H; inversion H.
  split; reflexivity.
Qed.

Lemma store_Ok_inv {K} `{EqDecision K} {T : K -> Type} (a : K) (v : T a)
    (s s' : obj K T) u :
  store_attr a v s = (Ok u, s') -> s' = setattr a v s.
Proof. unfold store_attr, modify. intros H. inversion H. reflexivity. Qed.

Lemma ret_Ok_inv {S A} (a b : A) (s s' : S) :
  (mret a : stateM S A) s = (Ok b, s') -> b = a /\ s' = s.
Proof. unfold mret, stateM_ret. intros H. inversion H. split; reflexivity. Qed.

(** ** Indexing, slicing and searching *)

Module NpFacts.

Lemma item_nonneg {A} (l : list A) (z : Z) :
  (0 <= z)%Z -> Np.item l z = getitem l (Z.to_nat z).
Proof.
  intros Hz. unfold Np.item.
  destruct (z <? 0)%Z eqn:E; [apply Z.ltb_lt in E; lia|]. rewrite E. reflexivity.
Qed.

Lemma item_neg {A} (l : list A) (z : Z) :
  (z < 0)%Z -> (0 <= z + Z.of_nat (length l))%Z ->
  Np.item l z = getitem l (Z.to_nat (z + Z.of_nat (length l))).
Proof.
  intros Hz Hn. unfold Np.item.
  destruct (z <? 0)%Z eqn:E; [|apply Z.ltb_ge in E; lia].
  destruct (z + Z.of_nat (length l) <? 0)%Z eqn:E'; [apply Z.ltb_lt in E'; lia|].
  reflexivity.
Qed.

Lemma item_neg_short {A} (l : list A) (z : Z) :
  (z + Z.of_nat (length l) < 0)%Z -> Np.item l z = Raise IndexError.
Proof.
  intros Hn. unfold Np.item.
  destruct (z <? 0)%Z eqn:E; [|apply Z.ltb_ge in E; lia].
  destruct (z + Z.of_nat (length l) <? 0)%Z eqn:E'; [reflexivity|].
  apply Z.ltb_ge in E'. lia.
Qed.

Lemma slice_nat {A} (l : list A) (i j : nat) :
  (i <= j <= length l)%nat ->
  Np.slice (Z.of_nat i) (Z.of_nat j) l = take (j - i) (drop i l).
Proof.
  intros H. unfold Np.slice, Np.clip.
  destruct (Z.of_nat i <? 0)%Z eqn:Ei; [apply Z.ltb_lt in Ei; lia|].
  destruct (Z.of_nat j <? 0)%Z eqn:Ej; [apply Z.ltb_lt in Ej; lia|].
  rewrite !Z.min_l by lia. f_equal; [|f_equal]; lia.
Qed.

(** The first and the last element of a non-empty slice. *)
Lemma slice_first {A} (l : list A) (i j : nat) :
  (i < j <= length l)%nat ->
  Np.item (Np.slice (Z.of_nat i) (Z.of_nat j) l) 0 = getitem l i.
Proof.
  intros H. rewrite slice_nat by lia. rewrite item_nonneg by lia.
  unfold getitem. simpl. rewrite lookup_take_lt by lia.
  rewrite lookup_drop. rewrite Nat.add_0_r. reflexivity.
Qed.

Lemma slice_last {A} (l : list A) (i j : nat) :
  (i < j <= length l)%nat ->
  Np.item (Np.slice (Z.of_nat i) (Z.of_nat j) l) (-1) = getitem l (j - 1).
Proof.
  intros H. rewrite slice_nat by lia.
  assert (Hlen : length (take (j - i) (drop i l)) = (j - i)%nat).
  { rewrite length_take, length_drop. lia. }
  rewrite item_neg by (rewrite ?Hlen; lia). rewrite Hlen.
  unfold getitem. rewrite lookup_take_lt by lia. rewrite lookup_drop.
  replace (i + Z.to_nat (-1 + Z.of_nat (j - i)))%nat with (j - 1)%nat by lia.
  reflexivity.
Qed.

(** [searchsorted]: the elements in front of the returned position lie
    below [v], the element at the position does not. *)
Lemma searchsorted_le_length l v : (Np.searchsorted l v <= length l)%nat.
Proof. induction l as [|x l IH]; simpl; [lia|]. destruct (ltb_R x v); simpl; lia. Qed.

Lemma searchsorted_below l v : forall i a,
  (i < Np.searchsorted l v)%nat -> l !! i = Some a -> a < v.
Proof.
  induction l as [|x l IH]; intros i a Hi Ha; [discriminate|].
  simpl in Hi. destruct (ltb_R x v) eqn:E; [|lia].
  destruct i as [|i]; simpl in Ha.
  - inversion Ha; subst. apply ltb_R_spec, E.
  - eapply IH; [|exact Ha]. lia.
Qed.

Lemma searchsorted_at l v a :
  l !! (Np.searchsorted l v) = Some a -> v <= a.
Proof.
  induction l as [|x l IH]; intros Ha; [discriminate|].
  simpl in Ha. destruct (ltb_R x v) eqn:E; simpl in Ha.
  - apply IH, Ha.
  - inversion Ha; subst. apply ltb_R_nspec, E.
Qed.

Lemma searchsorted_mono l lo hi :
  lo <= hi -> (Np.searchsorted l lo <= Np.searchsorted l hi)%nat.
Proof.
  intros Hle. induction l as [|x l IH]; simpl; [lia|].
  destruct (ltb_R x lo) eqn:E; [|lia].
  apply ltb_R_spec in E. rewrite ltb_R_true by lra. lia.
Qed.

Lemma sorted_lookup_lt (l : list R) : forall i j a b,
  StronglySorted Rlt l -> l !! i = Some a -> l !! j = Some b -> (i < j)%nat -> a < b.
Proof.
  induction l as [|x l IH]; intros i j a b Hs Ha Hb Hij; [discriminate|].
  apply StronglySorted_inv in Hs as [Hs Hx].
  destruct j as [|j]; [lia|]. simpl in Hb.
  destruct i as [|i]; simpl in Ha.
  - inversion Ha; subst. rewrite Forall_forall in Hx.
    apply Hx. eapply list_elem_of_lookup_2, Hb.
  - eapply IH; eauto. lia.
Qed.

(** On a strictly ascending list every element below [v] lies in front
    of the returned position. *)
Lemma searchsorted_above l v : forall i a,
  StronglySorted Rlt l -> l !! i = Some a -> a < v -> (i < Np.searchsorted l v)%nat.
Proof.
  induction l as [|x l IH]; intros i a Hs Ha Hlt; [discriminate|].
  pose proof Hs as Hs'. apply StronglySorted_inv in Hs as [Hs Hx].
  destruct i as [|i]; simpl in Ha |- *.
  - inversion Ha; subst. rewrite ltb_R_true by exact Hlt. lia.
  - assert (x < a).
    { eapply (sorted_lookup_lt (x :: l) 0 (S i)); eauto. lia. }
    rewrite ltb_R_true by lra. apply ->Nat.succ_lt_mono. eapply IH; eauto.
Qed.

(** [min] and [max] of a strictly ascending list are its ends. *)
Lemma min_sorted x l : StronglySorted Rlt (x :: l) -> Np.min (x :: l) = Ok x.
Proof.
  intros Hs. simpl. f_equal. apply StronglySorted_inv in Hs as [_ Hx].
  induction l as [|y l IH]; [reflexivity|]. simpl.
  apply Forall_cons in Hx as [Hy Hx].
  unfold Np.min2 at 2. rewrite ltb_R_false by lra. apply IH, Hx.
Qed.

Lemma last_cons_default (l : list R) y d d' :
  List.last (y :: l) d = List.last (y :: l) d'.
Proof.
  revert y. induction l as [|z l IH]; intros y; [reflexivity|].
  change (List.last (z :: l) d = List.last (z :: l) d'). apply IH.
Qed.

Lemma max_sorted l : forall x,
  StronglySorted Rlt (x :: l) -> Np.max (x :: l) = Ok (List.last l x).
Proof.
  induction l as [|y l IH]; intros x Hs; [reflexivity|].
  apply StronglySorted_inv in Hs as [Hs Hx]. apply Forall_cons in Hx as [Hy _].
  specialize (IH y Hs). simpl in IH |- *. inversion IH as [IH'].
  unfold Np.max2 at 2. rewrite ltb_R_true by lra.
  rewrite IH'. f_equal. destruct l as [|z l]; [reflexivity|].
  change (List.last (z :: l) y = List.last (z :: l) x). apply last_cons_default.
Qed.

Lemma lookup_last_cons (l : list R) x : (x :: l) !! length l = Some (List.last l x).
Proof.
  revert x. induction l as [|y l IH]; intros x; [reflexivity|].
  simpl. rewrite (IH y). f_equal. destruct l as [|z l]; [reflexivity|].
  change (List.last (z :: l) y = List.last (z :: l) x). apply last_cons_default.
Qed.

(** [lexsort] returns a permutation of the positions along which the keys
    ascend. *)
Section lexsort.
Variables (ids : list Z) (xs : list R).

Lemma key_le_spec i j :
  Np.key_le ids xs i j = true <-> Np.lex_le (Np.key ids xs i) (Np.key ids xs j).
Proof.
  unfold Np.key_le, Np.lex_le, Np.key. simpl.
  rewrite orb_true_iff, andb_true_iff, negb_true_iff, Z.ltb_lt, Z.eqb_eq, ltb_R_nspec.
  tauto.
Qed.

Lemma key_le_total i j : Np.key_le ids xs i j = false -> Np.key_le ids xs j i = true.
Proof.
  intros H. apply key_le_spec.
  assert (Hn : ~ Np.lex_le (Np.key ids xs i) (Np.key ids xs j)).
  { intros Hl. apply key_le_spec in Hl. congruence. }
  unfold Np.lex_le, Np.key in *. simpl in *.
  destruct (Z.lt_trichotomy (nth i ids 0%Z) (nth j ids 0%Z)) as [Hlt|[Heq|Hgt]].
  - exfalso. apply Hn. left. exact Hlt.
  - right. split; [symmetry; exact Heq|].
    destruct (Rle_or_lt (nth i xs 0) (nth j xs 0)) as [Hle|Hlt].
    + exfalso. apply Hn. right. split; assumption.
    + lra.
  - left. exact Hgt.
Qed.

Lemma insert_index_perm i l : Np.insert_index (Np.key_le ids xs) i l ≡ₚ i :: l.
Proof.
  induction l as [|j l IH]; simpl; [reflexivity|].
  destruct (Np.key_le ids xs i j); [reflexivity|].
  rewrite IH. apply Permutation_swap.
Qed.

Lemma insert_index_sorted i l :
  Sorted (fun a b => Np.key_le ids xs a b = true) l ->
  Sorted (fun a b => Np.key_le ids xs a b = true)
    (Np.insert_index (Np.key_le ids xs) i l).
Proof.
  induction l as [|j l IH]; intros Hs; simpl.
  - repeat constructor.
  - destruct (Np.key_le ids xs i j) eqn:E.
    + constructor; [exact Hs|]. constructor. exact E.
    + apply Sorted_inv in Hs as [Hs Hd]. constructor; [apply IH, Hs|].
      destruct l as [|k l]; simpl.
      * constructor. apply key_le_total, E.
      * destruct (Np.key_le ids xs i k); constructor.
        -- apply key_le_total, E.
        -- inversion Hd; assumption.
Qed.

Lemma lexsort_spec :
  length xs = length ids ->
  exists order, Np.lexsort xs ids = Ok order /\
    order ≡ₚ seq 0 (length ids) /\
    Sorted (fun a b => Np.key_le ids xs a b = true) order.
Proof.
  intros Hlen. unfold Np.lexsort. rewrite bool_decide_eq_true_2 by exact Hlen.
  eexists. split; [reflexivity|].
  generalize (seq 0 (length ids)) as l.
  induction l as [|i l [IHp IHs]]; simpl.
  - split; [reflexivity | constructor].
  - split; [rewrite insert_index_perm, IHp; reflexivity | apply insert_index_sorted, IHs].
Qed.
End lexsort.

#[global] Instance lex_le_trans : Transitive Np.lex_le.
Proof.
  intros [a x] [b y] [c z]. unfold Np.lex_le. simpl.
  intros [H1|[H1 H1']] [H2|[H2 H2']].
  - left. lia.
  - left. lia.
  - left. lia.
  - right. split; [lia|lra].
Qed.

(** Indexing with positions that all lie within the list. *)
Lemma take_indices_Ok {A} (d : A) (l : list A) (order : list nat) :
  Forall (fun i => (i < length l)%nat) order ->
  Np.take_indices l order = Ok (map (fun i => nth i l d) order).
Proof.
  unfold Np.take_indices. induction 1 as [|i order Hi _ IH]; [reflexivity|].
  rewrite mapM_result_cons. fold (Np.take_indices l order) in IH |- *.
  rewrite IH. unfold getitem.
  destruct (l !! i) as [a|] eqn:E; [|apply lookup_ge_None in E; lia].
  simpl. do 2 f_equal.
  symmetry. apply nth_lookup_Some with (d := d) in E. exact E.
Qed.

Lemma forall_lt_of_perm_seq (order : list nat) (n : nat) :
  order ≡ₚ seq 0 n -> Forall (fun i => (i < n)%nat) order.
Proof.
  intros Hp. apply Forall_forall. intros i Hi.
  rewrite Hp in Hi. apply list_elem_of_In, in_seq in Hi. lia.
Qed.

Lemma map_nth_seq_id {A} (d : A) (l : list A) :
  map (fun i => nth i l d) (seq 0 (length l)) = l.
Proof.
  induction l as [|x l IH]; [reflexivity|].
  simpl. f_equal. rewrite <- seq_shift, map_map. exact IH.
Qed.

Lemma zip_map_same {A B C} (f : A -> B) (g : A -> C) (l : list A) :
  zip (map f l) (map g l) = map (fun a => (f a, g a)) l.
Proof. induction l as [|a l IH]; simpl; [reflexivity|]. rewrite IH. reflexivity. Qed.

Lemma sorted_weaken {A} (R1 R2 : A -> A -> Prop) (l : list A) :
  (forall a b, R1 a b -> R2 a b) -> Sorted R1 l -> Sorted R2 l.
Proof.
  intros Himp. induction 1 as [|a l Hs IH Hd]; constructor; [exact IH|].
  destruct Hd; constructor. apply Himp. assumption.
Qed.

Lemma sorted_map_keys {A B} (R : B -> B -> Prop) (f : A -> B) (l : list A) :
  Sorted (fun a b => R (f a) (f b)) l -> Sorted R (map f l).
Proof.
  induction 1 as [|a l Hs IH Hd]; simpl; constructor; [exact IH|].
  destruct Hd; simpl; constructor. assumption.
Qed.

End NpFacts.

Module EposFacts.
Import Epos.

Lemma load_inv (a : attr) (s s' : epos) (v : attr_type a) :
  load a s = (Ok v, s') -> s a = Some v /\ s' = s.
Proof. apply load_Ok_inv. Qed.

Lemma store_inv (a : attr) (v : attr_type a) (s s' : epos) u :
  store a v s = (Ok u, s') -> s' = setattr a v s.
Proof. apply store_Ok_inv. Qed.

(** Take apart the run [H : c self = (Ok r, self')] of a method, one
    statement at a time. *)
Ltac attr_simpl_in H :=
  repeat first [ rewrite setattr_eq in H
               | rewrite setattr_ne in H by discriminate ].

Ltac attr_simpl :=
  repeat first [ rewrite setattr_eq | rewrite setattr_ne by discriminate ].

Ltac run_inv H :=
  lazymatch type of H with
  | (_ ≫= _) _ = (Ok _, _) =>
      let a := fresh "v" in let s1 := fresh "s" in
      let Hc := fresh "Hc" in
      apply bind_Ok_inv in H; destruct H as (a & s1 & Hc & H);
      run_inv Hc; cbv beta in H; run_inv H
  | load ?a _ = (Ok _, _) =>
      let E := fresh "L" in
      apply (load_inv a) in H; destruct H as [E ->]; attr_simpl_in E;
      try (injection E as E; subst)
  | store ?a ?v _ = (Ok _, _) => apply (store_inv a v) in H; try subst
  | reading _ _ = (Ok _, _) =>
      let E := fresh "R" in
      apply reading_Ok_inv in H; destruct H as [E ->]; cbv beta in E
  | raise _ _ = (Ok _, _) => discriminate H
  | mret _ _ = (Ok _, _) => apply ret_Ok_inv in H; destruct H as [? ->]
  | (if ?b then _ else _) _ = (Ok _, _) =>
      let E := fresh "B" in destruct b eqn:E; run_inv H
  | (let '(_, _) := ?p in _) _ = (Ok _, _) =>
      destruct p; run_inv H
  | (Ok _, _) = (Ok _, _) => inversion H; subst; clear H
  | match ?o with _ => _ end = (Ok _, _) =>
      let E := fresh "O" in
      attr_simpl_in H; destruct o eqn:E; try discriminate H; run_inv H
  | _ => idtac
  end.

(** *** set_bins *)

Lemma set_bins_run xbins ybins xgrid ygrid Grid x y self :
  bin_edges xbins xgrid = Ok x -> bin_edges ybins ygrid = Ok y ->
  exists self',
    set_bins xbins ybins xgrid ygrid Grid self =
      (if Grid then Ok tt
       else if bool_decide (Np.shape x = Np.shape y) then Ok tt
       else Raise ValueError, self') /\
    (Grid = true ->
       stored_bins self' = Some (Np.tile x (length y), Np.tile y (length x))) /\
    (Grid = false -> Np.shape x = Np.shape y -> stored_bins self' = Some (x, y)).
Proof.
  intros Hx Hy. unfold set_bins. unfold_stateM. cbv beta.
  destruct (self occurrence) as [d|]; rewrite Hx, Hy; cbv beta iota;
    destruct Grid; try case_bool_decide;
    (eexists; split; [reflexivity|]);
    (split; [intros HG | intros HG Hs]); try discriminate; try contradiction;
    unfold stored_bins; rewrite setattr_eq; reflexivity.
Qed.

(** In grid mode the stored lists have [nx * ny] rows each. *)
Lemma tile_length (a : grid) (reps : nat) :
  a <> [] -> length (Np.tile a reps) = (reps * length a)%nat.
Proof.
  intros Ha. destruct a as [|r a]; [contradiction|]. unfold Np.tile.
  induction reps as [|n IH]; [reflexivity|].
  simpl in *. rewrite length_app, IH. reflexivity.
Qed.

Lemma set_bins_grid_row_count (xb yb : grid) (self : epos) :
  xb <> [] -> yb <> [] ->
  exists self' x y,
    set_bins (Bins2 xb) (Bins2 yb) None None true self = (Ok tt, self') /\
    stored_bins self' = Some (x, y) /\
    length x = (length xb * length yb)%nat /\ length y = (length xb * length yb)%nat.
Proof.
  intros Hx Hy.
  destruct (set_bins_run (Bins2 xb) (Bins2 yb) None None true xb yb self)
    as (self' & Hrun & Hgrid & _); [reflexivity..|].
  exists self', (Np.tile xb (length yb)), (Np.tile yb (length xb)).
  split; [exact Hrun|]. split; [apply Hgrid; reflexivity|].
  rewrite !tile_length by assumption. lia.
Qed.

(** Without grid mode the bins are stored as they are when both lists
    have the same number of rows of two edges, and the call raises
    [ValueError] when the numbers differ. *)
Lemma set_bins_paired (xb yb : list (R * R)) (self : epos) :
  let rows := map (fun p : R * R => [fst p; snd p]) in
  exists self',
    set_bins (Bins2 (rows xb)) (Bins2 (rows yb)) None None false self =
      (if bool_decide (length xb = length yb) then Ok tt else Raise ValueError, self') /\
    (length xb = length yb -> stored_bins self' = Some (rows xb, rows yb)).
Proof.
  intros rows.
  assert (Hshape : Np.shape (rows xb) = Np.shape (rows yb) <-> length xb = length yb).
  { unfold rows. destruct xb as [|p xb], yb as [|q yb]; simpl;
      rewrite ?length_map; split; intros H; try discriminate; try reflexivity.
    - inversion H. congruence.
    - inversion H. congruence. }
  destruct (set_bins_run (Bins2 (rows xb)) (Bins2 (rows yb)) None None false
              (rows xb) (rows yb) self) as (self' & Hrun & _ & Hpair);
    [reflexivity..|].
  exists self'. split.
  - rewrite Hrun. f_equal. repeat case_bool_decide; tauto.
  - intros Hlen. apply Hpair; [reflexivity|]. apply Hshape, Hlen.
Qed.

(** C6, at [xbins=[[1,10],[10,100]]], [ybins=[[1,2],[2,4]]], [Grid=True]:
    [set_bins] stores four rows, but they are the two index-for-index
    pairs, each twice: the x bin [[1,10]] is never combined with the y bin
    [[2,4]], so the rows are not the Cartesian tiling. *)
Theorem set_bins_grid_example_not_cartesian (self : epos) :
  exists self',
    set_bins Examples.xbins_example Examples.ybins_example None None true self = (Ok tt, self') /\
    stored_bins self' =
      Some ([[1; 10]; [10; 100]; [1; 10]; [10; 100]],
            [[1; 2]; [2; 4]; [1; 2]; [2; 4]]) /\
    forall x y, stored_bins self' = Some (x, y) ->
      length x = 4%nat /\ length y = 4%nat /\
      ~ exists k, x !! k = Some [1; 10] /\ y !! k = Some [2; 4].
Proof.
  destruct (set_bins_run Examples.xbins_example Examples.ybins_example None None true
              [[1; 10]; [10; 100]] [[1; 2]; [2; 4]] self)
    as (self' & Hrun & Hgrid & _); [reflexivity..|].
  specialize (Hgrid eq_refl). simpl in Hgrid.
  exists self'. split; [exact Hrun|]. split; [exact Hgrid|].
  intros x y Hxy. rewrite Hgrid in Hxy. inversion Hxy; subst x y.
  split; [reflexivity|]. split; [reflexivity|].
  intros (k & Hx & Hy).
  destruct k as [|[|[|[|k]]]]; simpl in Hx, Hy; try discriminate;
    inversion Hx; inversion Hy; lra.
Qed.

(** *** set_ranges *)

(** What a call of [set_ranges] that returns has read and stored. *)
Lemma set_ranges_Ok_inv xtrim_ ytrim_ xzoom_ yzoom_ LogArea Occ self self' :
  set_ranges xtrim_ ytrim_ xzoom_ yzoom_ LogArea Occ self = (Ok tt, self') ->
  exists xlim ylim ex ey ixmin ixmax iymin iymax sx sy,
    let xt := match xtrim_ with None => xlim | Some t => clamp t xlim end in
    let yt := match ytrim_ with None => ylim | Some t => clamp t ylim end in
    let xz := match xzoom_ with None => xt | Some z => clamp z xt end in
    let yz := match yzoom_ with None => yt | Some z => clamp z yt end in
    let area := if LogArea then Np.log10 else Np.log in
    let mx := Np.slice ixmin ixmax ex in
    let my := Np.slice iymin iymax ey in
    self eff_xlim = Some xlim /\ self eff_ylim = Some ylim /\
    self eff_xvar = Some ex /\ self eff_yvar = Some ey /\
    _trimarray ex xt = Ok (ixmin, ixmax) /\ _trimarray ey yt = Ok (iymin, iymax) /\
    log_scale area mx = Ok sx /\ log_scale area my = Ok sy /\
    self' xtrim = Some xt /\ self' ytrim = Some yt /\
    self' xzoom = Some xz /\ self' yzoom = Some yz /\
    self' MC_xvar = Some mx /\ self' MC_yvar = Some my /\
    self' scale_x = Some sx /\ self' scale_y = Some sy /\
    self' scale = Some (sx * sy) /\
    self' X = Some (fst (Np.meshgrid mx my)) /\
    self' Y = Some (snd (Np.meshgrid mx my)) /\
    self' Range = Some true /\
    self' func = self func /\ self' fitpars = self fitpars /\
    self' eff_xlim = self eff_xlim /\ self' eff_ylim = self eff_ylim /\
    (self PDF = Some true -> self MassRadius = Some false ->
       self' X_in = Some (fst (Np.meshgrid mx my)) /\
       self' Y_in = Some (snd (Np.meshgrid mx my)) /\
       self' scale_in_y = Some sy).
Proof.
  unfold set_ranges. intros H. run_inv H.
  all: do 10 eexists; cbv zeta.
  all: repeat match goal with |- _ /\ _ => split end.
  all: try (attr_simpl; first [eassumption | reflexivity]).
  all: try (intros HP HM; congruence).
  all: try (intros HP HM; repeat split; attr_simpl; reflexivity).
Qed.

Lemma max2_ge_r a b : b <= Np.max2 a b.
Proof. unfold Np.max2, ltb_R. destruct (Rlt_dec a b); lra. Qed.

Lemma max2_ge_l a b : a <= Np.max2 a b.
Proof. unfold Np.max2, ltb_R. destruct (Rlt_dec a b); lra. Qed.

Lemma min2_le_r a b : Np.min2 a b <= b.
Proof. unfold Np.min2, ltb_R. destruct (Rlt_dec b a); lra. Qed.

Lemma min2_le_l a b : Np.min2 a b <= a.
Proof. unfold Np.min2, ltb_R. destruct (Rlt_dec b a); lra. Qed.

(** Clamping a request to an interval gives a pair within the interval
    exactly when the request reaches into it. *)
Lemma clamp_contained t lim :
  contained (clamp t lim) lim <->
  fst lim <= snd lim /\ fst t <= snd lim /\ fst lim <= snd t.
Proof.
  unfold contained, clamp, Np.max2, Np.min2, ltb_R. simpl.
  destruct (Rlt_dec (fst t) (fst lim)), (Rlt_dec (snd lim) (snd t)); split; lra.
Qed.

Lemma contained_refl p : fst p <= snd p -> contained p p.
Proof. intros H. unfold contained. lra. Qed.

Lemma contained_interval inner outer v :
  contained inner outer -> fst inner <= v <= snd inner -> fst outer <= v <= snd outer.
Proof. intros [H1 H2] [H3 H4]. split; lra. Qed.

(** The heart of the bracketing property: on a strictly ascending axis
    with a sample beyond each edge of [[lo, hi]], [_trimarray] returns
    indices of a non-empty slice whose ends enclose the interval. *)
Lemma trimarray_brackets (ax : list R) (lo hi xmin xmax : R) :
  StronglySorted Rlt ax -> lo <= hi ->
  Np.min ax = Ok xmin -> Np.max ax = Ok xmax -> xmin <= lo -> hi <= xmax ->
  (exists a, a ∈ ax /\ a < lo) -> (exists b, b ∈ ax /\ hi < b) ->
  exists imin imax first lastv,
    _trimarray ax (lo, hi) = Ok (imin, imax) /\
    Np.item (Np.slice imin imax ax) 0 = Ok first /\
    Np.item (Np.slice imin imax ax) (-1) = Ok lastv /\
    first <= lo /\ hi <= lastv.
Proof.
  intros Hs Hle Hmin Hmax Hlo Hhi (a & Ha & Hal) (b & Hb & Hbh).
  destruct ax as [|x0 [|x1 rest]].
  - inversion Ha.
  - apply list_elem_of_singleton in Ha, Hb. subst. lra.
  - clear a b Ha Hb Hal Hbh.
    rewrite NpFacts.min_sorted in Hmin by exact Hs. inversion Hmin; subst xmin.
    rewrite NpFacts.max_sorted in Hmax by exact Hs. inversion Hmax as [Hxmax].
    set (ax := x0 :: x1 :: rest) in *.
    set (n := length ax).
    assert (Hn : n = S (S (length rest))) by reflexivity.
    assert (Hlast : ax !! (n - 1)%nat = Some xmax).
    { rewrite <- Hxmax. replace (n - 1)%nat with (length (x1 :: rest)) by (simpl; lia).
      apply NpFacts.lookup_last_cons. }
    destruct (ax !! (n - 2)%nat) as [a2|] eqn:Ha2;
      [|apply lookup_ge_None in Ha2; fold n in Ha2; lia].
    set (p := Np.searchsorted ax lo). set (q := Np.searchsorted ax hi).
    pose proof (NpFacts.searchsorted_le_length ax lo) as Hpn. fold p n in Hpn.
    pose proof (NpFacts.searchsorted_mono ax lo hi Hle) as Hpq. fold p q in Hpq.
    assert (Hx01 : x0 < x1).
    { apply (NpFacts.sorted_lookup_lt ax 0 1 x0 x1 Hs); [reflexivity..|lia]. }
    (* the lower index *)
    assert (Himin : exists i first, (i <= p)%nat /\ (i < n)%nat /\
              (if ltb_R lo x1 then 0%Z else (Z.of_nat p - 1)%Z) = Z.of_nat i /\
              ax !! i = Some first /\ first <= lo).
    { destruct (ltb_R lo x1) eqn:E.
      - exists 0%nat, x0. repeat split; try reflexivity; try lia. exact Hlo.
      - apply ltb_R_nspec in E.
        assert (Hp : (0 < p)%nat).
        { apply (NpFacts.searchsorted_above ax lo 0 x0 Hs); [reflexivity|lra]. }
        destruct (ax !! (p - 1)%nat) as [c|] eqn:Hc;
          [|apply lookup_ge_None in Hc; fold n in Hc; lia].
        exists (p - 1)%nat, c. repeat split; try lia; [exact Hc|].
        apply Rlt_le. apply (NpFacts.searchsorted_below ax lo (p - 1) c); [fold p; lia|exact Hc]. }
    destruct Himin as (i & first & Hip & Hin & Hiz & Hfirst & Hfl).
    (* the upper index *)
    assert (Himax : exists j lastv, (i < j <= n)%nat /\
              (if ltb_R a2 hi then Z.of_nat n else (Z.of_nat q + 1)%Z) = Z.of_nat j /\
              ax !! (j - 1)%nat = Some lastv /\ hi <= lastv).
    { destruct (ltb_R a2 hi) eqn:E.
      - exists n, xmax. repeat split; try assumption; lia.
      - apply ltb_R_nspec in E.
        assert (Hq : (q <= n - 2)%nat).
        { destruct (Nat.le_gt_cases q (n - 2)) as [H|H]; [exact H|]. exfalso.
          pose proof (NpFacts.searchsorted_below ax hi (n - 2) a2 H Ha2). lra. }
        destruct (ax !! q) as [c|] eqn:Hc;
          [|apply lookup_ge_None in Hc; fold n in Hc; lia].
        exists (q + 1)%nat, c. repeat split; try lia.
        + replace (q + 1 - 1)%nat with q by lia. exact Hc.
        + apply (NpFacts.searchsorted_at ax hi c). exact Hc. }
    destruct Himax as (j & lastv & Hij & Hjz & Hlastv & Hlh).
    exists (Z.of_nat i), (Z.of_nat j), first, lastv. split.
    { unfold _trimarray. rewrite (NpFacts.item_nonneg ax 1) by lia.
      change (getitem ax (Z.to_nat 1)) with (Ok x1 : result R).
      rewrite (NpFacts.item_neg ax (-2)) by (fold n; lia).
      unfold getitem. fold n. replace (Z.to_nat (-2 + Z.of_nat n)) with (n - 2)%nat by lia.
      rewrite Ha2. unfold mbind, result_bind. cbn [fst snd].
      fold p q. rewrite Hiz, Hjz. reflexivity. }
    rewrite NpFacts.slice_first, NpFacts.slice_last by (fold n; lia).
    unfold getitem. rewrite Hfirst, Hlastv. repeat split; assumption.
Qed.

Lemma clamp_within lo hi lim :
  fst lim <= lo -> hi <= snd lim -> clamp (lo, hi) lim = (lo, hi).
Proof.
  intros H1 H2. unfold clamp, Np.max2, Np.min2. simpl.
  rewrite !ltb_R_false by lra. reflexivity.
Qed.

(** [set_survey] stores the axes and, as their extent, their least and
    their greatest sample. *)
Lemma set_survey_extent u xvar yvar eff2D rstar mstar self self' :
  set_survey u xvar yvar eff2D rstar mstar self = (Ok tt, self') ->
  exists xlim ylim,
    self' eff_xvar = Some xvar /\ self' eff_yvar = Some yvar /\
    self' eff_xlim = Some xlim /\ self' eff_ylim = Some ylim /\
    Np.min xvar = Ok (fst xlim) /\ Np.max xvar = Ok (snd xlim) /\
    Np.min yvar = Ok (fst ylim) /\ Np.max yvar = Ok (snd ylim) /\
    self' DetectionEfficiency = Some true.
Proof.
  unfold set_survey. intros H. run_inv H.
  all: destruct eff2D as [|r g]; [discriminate H|].
  all: repeat match type of H with
       | (if ?b then _ else _) _ = _ => destruct b; [discriminate H|]
       end.
  all: run_inv H.
  all: eexists (_, _), (_, _); repeat split; attr_simpl; try reflexivity; eassumption.
Qed.

(** C3. For a strictly ascending axis, an interval [[lo, hi]] within the
    extent of the axis, and a sample of the axis beyond each edge of the
    interval: [_trimarray] returns the indices of a non-empty slice whose
    first element is at most [lo] and whose last element is at least [hi];
    and whenever [set_ranges] is called with this interval as [xtrim] on
    an object that holds the axis as [eff_xvar] with its extent as
    [eff_xlim], and returns, it has stored the interval as [xtrim] and a
    working axis with [MC_xvar[0] <= xtrim[0]] and
    [MC_xvar[-1] >= xtrim[1]].  Likewise for [ytrim], [eff_yvar] and
    [MC_yvar]. *)
Theorem set_ranges_brackets_trim (ax : list R) (lo hi : R) (lim : R * R) :
  StronglySorted Rlt ax ->
  lo <= hi ->
  Np.min ax = Ok (fst lim) -> Np.max ax = Ok (snd lim) ->
  fst lim <= lo -> hi <= snd lim ->
  (exists a, a ∈ ax /\ a < lo) ->
  (exists b, b ∈ ax /\ hi < b) ->
  (exists imin imax first lastv,
     _trimarray ax (lo, hi) = Ok (imin, imax) /\
     Np.item (Np.slice imin imax ax) 0 = Ok first /\
     Np.item (Np.slice imin imax ax) (-1) = Ok lastv /\
     first <= lo /\ hi <= lastv) /\
  (forall trim_ xzoom_ yzoom_ LogArea Occ (self self' : epos),
     self eff_xvar = Some ax -> self eff_xlim = Some lim ->
     set_ranges (Some (lo, hi)) trim_ xzoom_ yzoom_ LogArea Occ self = (Ok tt, self') ->
     exists mc first lastv,
       self' xtrim = Some (lo, hi) /\ self' MC_xvar = Some mc /\
       Np.item mc 0 = Ok first /\ Np.item mc (-1) = Ok lastv /\
       first <= lo /\ hi <= lastv) /\
  (forall trim_ xzoom_ yzoom_ LogArea Occ (self self' : epos),
     self eff_yvar = Some ax -> self eff_ylim = Some lim ->
     set_ranges trim_ (Some (lo, hi)) xzoom_ yzoom_ LogArea Occ self = (Ok tt, self') ->
     exists mc first lastv,
       self' ytrim = Some (lo, hi) /\ self' MC_yvar = Some mc /\
       Np.item mc 0 = Ok first /\ Np.item mc (-1) = Ok lastv /\
       first <= lo /\ hi <= lastv).
Proof.
  intros Hs Hle Hmin Hmax Hlo Hhi Hbelow Habove.
  destruct (trimarray_brackets ax lo hi (fst lim) (snd lim) Hs Hle Hmin Hmax Hlo Hhi
              Hbelow Habove) as (imin & imax & first & lastv & Htrim & Hf & Hl & Hfl & Hlh).
  split; [exists imin, imax, first, lastv; repeat split; assumption|].
  split.
  - intros trim_ xzoom_ yzoom_ LogArea Occ self self' Hax Hlim Hrun.
    apply set_ranges_Ok_inv in Hrun.
    destruct Hrun as (xlim & ylim & ex & ey & ixmin & ixmax & iymin & iymax & sx & sy & H).
    cbv zeta in H.
    destruct H as (Hxl & _ & Hex & _ & Htx & _ & _ & _ & Hxt & _ & _ & _ & Hmc & _).
    rewrite Hlim in Hxl. inversion Hxl; subst xlim.
    rewrite Hax in Hex. inversion Hex; subst ex.
    rewrite clamp_within in Htx, Hxt by assumption.
    rewrite Htrim in Htx. inversion Htx; subst ixmin ixmax.
    exists (Np.slice imin imax ax), first, lastv. repeat split; assumption.
  - intros trim_ xzoom_ yzoom_ LogArea Occ self self' Hax Hlim Hrun.
    apply set_ranges_Ok_inv in Hrun.
    destruct Hrun as (xlim & ylim & ex & ey & ixmin & ixmax & iymin & iymax & sx & sy & H).
    cbv zeta in H.
    destruct H as (_ & Hyl & _ & Hey & _ & Hty & _ & _ & _ & Hyt & _ & _ & _ & Hmc & _).
    rewrite Hlim in Hyl. inversion Hyl; subst ylim.
    rewrite Hax in Hey. inversion Hey; subst ey.
    rewrite clamp_within in Hty, Hyt by assumption.
    rewrite Htrim in Hty. inversion Hty; subst iymin iymax.
    exists (Np.slice imin imax ax), first, lastv. repeat split; assumption.
Qed.

(** Running a method forwards on a given object. *)
Lemma load_run (a : attr) (s : epos) (v : attr_type a) :
  s a = Some v -> load a s = (Ok v, s).
Proof. unfold load, load_attr, reading, getattr. intros ->. reflexivity. Qed.

Lemma reading_run {S A} (g : S -> result A) (s : S) (v : A) :
  g s = Ok v -> reading g s = (Ok v, s).
Proof. unfold reading. intros ->. reflexivity. Qed.

Ltac run_prim :=
  lazymatch goal with
  | |- load ?a _ = _ => apply (load_run a); attr_simpl; reflexivity
  | |- store _ _ _ = _ => reflexivity
  | |- reading _ _ = _ => apply reading_run; Reval; reflexivity
  | |- mret _ _ = _ => reflexivity
  | |- _ => attr_simpl; reflexivity
  end.

Ltac run_fwd :=
  repeat (cbv beta iota zeta;
    lazymatch goal with
    | |- (_ ≫= _) _ = _ => erewrite bind_Ok_intro; [ | run_fwd_side ]
    | |- (if ?b then ?x else ?y) ?s = ?r =>
        let b' := eval lazy in b in
        lazymatch b' with
        | true => change (x s = r)
        | false => change (y s = r)
        end
    | |- pfm_set _ _ _ = _ => unfold pfm_set
    | |- pfm_get _ _ = _ => unfold pfm_get
    | |- pfm_reorder _ _ _ _ = _ => unfold pfm_reorder
    end)
with run_fwd_side :=
  cbv beta iota zeta;
  lazymatch goal with
  | |- (_ ≫= _) _ = _ => run_fwd; run_prim
  | |- (if _ then _ else _) _ = _ => run_fwd; run_prim
  | |- pfm_set _ _ _ = _ => run_fwd; run_prim
  | |- pfm_get _ _ = _ => run_fwd; run_prim
  | |- pfm_reorder _ _ _ _ = _ => run_fwd; run_prim
  | |- _ => run_prim
  end.

Lemma set_ranges_example_run :
  exists self', set_ranges (Some (0.5, 5)) None (Some (2, 20)) None false false
      Examples.surveyed = (Ok tt, self').
Proof.
  eexists. unfold set_ranges, Examples.surveyed, init.
  run_fwd. reflexivity.
Qed.

Lemma set_ranges_brackets_trim_witness :
  exists imin imax first lastv,
    _trimarray [1; 10; 100; 1000] (5, 50) = Ok (imin, imax) /\
    Np.item (Np.slice imin imax [1; 10; 100; 1000]) 0 = Ok first /\
    Np.item (Np.slice imin imax [1; 10; 100; 1000]) (-1) = Ok lastv /\
    first <= 5 /\ 50 <= lastv.
Proof.
  apply (set_ranges_brackets_trim [1; 10; 100; 1000] 5 50 (1, 1000)).
  - repeat (constructor; [|repeat (constructor; try lra)]). constructor.
  - lra.
  - simpl. unfold Np.min2. Rdecide. reflexivity.
  - simpl. unfold Np.max2. Rdecide. reflexivity.
  - simpl. lra.
  - simpl. lra.
  - exists 1. split; [left|lra].
  - exists 100. split; [do 2 right; left|lra].
Defined.

(** A request that lies wholly above the grid is clamped to a pair whose
    lower bound exceeds its upper bound: no value lies between them. *)
Example clamp_outside_grid : clamp (1000, 2000) (1, 100) = (1000, 100).
Proof. unfold clamp, Np.max2, Np.min2. simpl. Rdecide. reflexivity. Qed.

(** What holds of the stored bounds by the way they are clamped: on the
    period axis, when the survey grid has an extent, a requested trim
    [[lo, hi]] with [lo <= hi] that reaches into the extent is stored as
    a pair within the extent, and a requested zoom that reaches into the
    stored trim as a pair within the trim; without a request the inner
    pair is the outer one. *)
Lemma set_ranges_reaching_requests_contained
    (xtrim_ ytrim_ xzoom_ yzoom_ : option (R * R)) (LogArea Occ : bool)
    (self self' : epos) :
  set_ranges xtrim_ ytrim_ xzoom_ yzoom_ LogArea Occ self = (Ok tt, self') ->
  exists xlim xt xz,
    self' eff_xlim = Some xlim /\ self' xtrim = Some xt /\ self' xzoom = Some xz /\
    (fst xlim <= snd xlim ->
     (forall t, xtrim_ = Some t ->
        fst t <= snd t /\ fst t <= snd xlim /\ fst xlim <= snd t) ->
     contained xt xlim /\
     ((forall z, xzoom_ = Some z -> fst z <= snd xt /\ fst xt <= snd z) ->
      contained xz xt)).
Proof.
  intros H. apply set_ranges_Ok_inv in H.
  destruct H as (xlim & ylim & ex & ey & ixmin & ixmax & iymin & iymax & sx & sy & H).
  cbv zeta in H.
  destruct H as (Hxl & Hyl & _ & _ & _ & _ & _ & _ & Hxt & Hyt & Hxz & Hyz & _ & _ &
                 _ & _ & _ & _ & _ & _ & _ & _ & Hxl' & Hyl' & _).
  eexists xlim, _, _. rewrite Hxl'.
  do 3 (split; [eassumption|]).
  intros Hlim Ht.
  assert (Cxt : contained (match xtrim_ with None => xlim | Some t => clamp t xlim end) xlim).
  { destruct xtrim_ as [t|]; [|apply contained_refl, Hlim].
    apply clamp_contained. destruct (Ht t eq_refl) as (_ & ? & ?). auto. }
  assert (Hord : fst (match xtrim_ with None => xlim | Some t => clamp t xlim end)
                 <= snd (match xtrim_ with None => xlim | Some t => clamp t xlim end)).
  { destruct xtrim_ as [t|]; [|exact Hlim].
    destruct (Ht t eq_refl) as (? & ? & ?).
    unfold clamp, Np.max2, Np.min2, ltb_R. simpl.
    destruct (Rlt_dec (fst t) (fst xlim)), (Rlt_dec (snd xlim) (snd t)); lra. }
  split; [exact Cxt|]. intros Hz.
  destruct xzoom_ as [z|]; [|apply contained_refl, Hord].
  apply clamp_contained. destruct (Hz z eq_refl). auto.
Qed.

(** C7, at [xtrim=[100, 200]], and at [xzoom=[100, 200]], on the survey
    grid with the extent [[1, 10]]: [set_ranges] returns, and stores the
    pair [[100, 10]] as [xtrim], and as [xzoom] within the trim
    [[1, 10]].  The lower bound [100] of the stored pair lies above the
    extent: the stored trim is not within the extent of the grid, and the
    stored zoom is not within the stored trim. *)
Theorem set_ranges_request_outside_grid_not_contained :
  (exists self',
     set_ranges (Some (100, 200)) None None None false false Examples.surveyed
       = (Ok tt, self') /\
     self' eff_xlim = Some (1, 10) /\ self' xtrim = Some (100, 10) /\
     ~ contained (100, 10) (1, 10)) /\
  (exists self',
     set_ranges None None (Some (100, 200)) None false false Examples.surveyed
       = (Ok tt, self') /\
     self' xtrim = Some (1, 10) /\ self' xzoom = Some (100, 10) /\
     ~ contained (100, 10) (1, 10)).
Proof.
  assert (Hc : clamp (100, 200) (1, 10) = (100, 10)).
  { unfold clamp, Np.max2, Np.min2. simpl. Rdecide. reflexivity. }
  assert (Hn : ~ contained (100, 10) (1, 10)).
  { unfold contained. simpl. lra. }
  split.
  - assert (Hrun : exists self',
      set_ranges (Some (100, 200)) None None None false false Examples.surveyed
        = (Ok tt, self')).
    { eexists. unfold set_ranges, Examples.surveyed, init. run_fwd. reflexivity. }
    destruct Hrun as [self' Hrun]. exists self'. split; [exact Hrun|].
    apply set_ranges_Ok_inv in Hrun.
    destruct Hrun as (xlim & ylim & ex & ey & ixmin & ixmax & iymin & iymax & sx & sy & H).
    cbv zeta in H.
    destruct H as (Hxl & _ & _ & _ & _ & _ & _ & _ & Hxt & _ & _ & _ & _ & _ &
                   _ & _ & _ & _ & _ & _ & _ & _ & Hxl' & _).
    change (Examples.surveyed eff_xlim) with (Some (1, 10)) in Hxl, Hxl'.
    inversion Hxl; subst xlim. rewrite Hc in Hxt.
    split; [exact Hxl'|]. split; [exact Hxt|exact Hn].
  - assert (Hrun : exists self',
      set_ranges None None (Some (100, 200)) None false false Examples.surveyed
        = (Ok tt, self')).
    { eexists. unfold set_ranges, Examples.surveyed, init. run_fwd. reflexivity. }
    destruct Hrun as [self' Hrun]. exists self'. split; [exact Hrun|].
    apply set_ranges_Ok_inv in Hrun.
    destruct Hrun as (xlim & ylim & ex & ey & ixmin & ixmax & iymin & iymax & sx & sy & H).
    cbv zeta in H.
    destruct H as (Hxl & _ & _ & _ & _ & _ & _ & _ & Hxt & _ & Hxz & _).
    change (Examples.surveyed eff_xlim) with (Some (1, 10)) in Hxl.
    inversion Hxl; subst xlim. rewrite Hc in Hxz.
    split; [exact Hxt|]. split; [exact Hxz|exact Hn].
Qed.

(** The attributes of the configured example. *)
Lemma configured_run (LogArea : bool) :
  set_ranges None None None None LogArea false Examples.surveyed =
    (Ok tt, Examples.configured LogArea).
Proof.
  assert (H : exists self', set_ranges None None None None LogArea false
                Examples.surveyed = (Ok tt, self')).
  { destruct LogArea; eexists; unfold set_ranges, Examples.surveyed, init;
      run_fwd; reflexivity. }
  destruct H as [self' H]. unfold Examples.configured. rewrite H. reflexivity.
Qed.

Lemma trimarray_example : _trimarray [1; 10] (1, 10) = Ok (0%Z, 2%Z).
Proof. Reval. reflexivity. Qed.

Lemma configured_attrs (LogArea : bool) :
  let st := Examples.configured LogArea in
  let s := 2 / (if LogArea then Np.log10 else Np.log) (10 / 1) in
  st fitpars = Some Examples.pps_registry /\ st func = Some Examples.flat_pdf /\
  st X_in = Some [[1; 1]; [10; 10]] /\ st Y_in = Some [[1; 10]; [1; 10]] /\
  st MC_xvar = Some [1; 10] /\ st MC_yvar = Some [1; 10] /\
  st scale_x = Some s /\ st scale_in_y = Some s /\ st scale = Some (s * s).
Proof.
  intros st s. pose proof (configured_run LogArea) as H.
  apply set_ranges_Ok_inv in H.
  destruct H as (xlim & ylim & ex & ey & ixmin & ixmax & iymin & iymax & sx & sy & H).
  cbv zeta in H.
  destruct H as (Hxl & Hyl & Hex & Hey & Htx & Hty & Hsx & Hsy & _ & _ & _ & _ &
                 Hmx & Hmy & Hscx & Hscy & Hsc & _ & _ & _ & Hf & Hp & _ & _ & Hin).
  change (Examples.surveyed eff_xlim) with (Some (1, 10)) in Hxl.
  change (Examples.surveyed eff_ylim) with (Some (1, 10)) in Hyl.
  change (Examples.surveyed eff_xvar) with (Some [1; 10]) in Hex.
  change (Examples.surveyed eff_yvar) with (Some [1; 10]) in Hey.
  inversion Hxl; inversion Hyl; inversion Hex; inversion Hey; subst xlim ylim ex ey.
  rewrite trimarray_example in Htx, Hty.
  inversion Htx; inversion Hty; subst ixmin ixmax iymin iymax.
  change (Np.slice 0 2 [1; 10]) with [1; 10] in *.
  assert (Hs : sx = s /\ sy = s).
  { unfold log_scale in Hsx, Hsy. unfold Np.item in Hsx, Hsy. simpl in Hsx, Hsy.
    inversion Hsx; inversion Hsy. unfold s. split; f_equal; lra. }
  destruct Hs as [-> ->].
  destruct Hin as (Hxin & Hyin & Hsiy); [reflexivity..|].
  fold st in Hf, Hp. rewrite Hf, Hp.
  repeat split; try assumption; reflexivity.
Qed.

(** *** set_population *)

(** The one length check: [sma] against [mass]. *)
Lemma set_population_sma_mass_mismatch name sma mass inc starID tag (self : epos) :
  self pfm = None -> length sma <> length mass ->
  fst (set_population name sma mass inc starID tag self) = Raise ValueError.
Proof.
  intros Hpfm Hlen. unfold set_population.
  unfold mbind, stateM_bind, gets, store, store_attr, modify, raise.
  rewrite Hpfm. rewrite bool_decide_eq_false_2 by (intros [? H]; discriminate H).
  apply Nat.eqb_neq in Hlen. rewrite Hlen. reflexivity.
Qed.

(** C8, at [sma=[1,2]], [mass=[1,2]], [starID=[1,2,3]]: the three star
    identifiers are pairwise distinct, so the branch that sorts (and would
    stumble over the lengths) is not taken; [set_population] returns
    normally and leaves a catalogue with two semi-major axes and three
    identifiers. *)
Theorem set_population_accepts_starID_of_other_length :
  exists self' d,
    set_population "model" [1; 2] [1; 2] None (Some [1; 2; 3]%Z) None (init false) =
      (Ok tt, self') /\
    self' pfm = Some d /\
    d k_sma = Some [1; 2] /\ d k_M = Some [1; 2] /\ d k_ID = Some [1; 2; 3]%Z /\
    d k_np = Some 3%nat /\ d k_ns = Some 3%nat.
Proof.
  eexists _, _. split.
  { unfold set_population, init. run_fwd. reflexivity. }
  split; [attr_simpl; reflexivity|].
  repeat split; attr_simpl; reflexivity.
Qed.

(** *** set_observation *)

(** C10. For input arrays of equal length, given in any order,
    [set_observation] stores [obs_xvar], [obs_yvar] and [obs_starID] as
    the inputs read along one and the same permutation of their positions;
    the stored pairs (star identifier, period) ascend, first by identifier
    and then by period; and the stored triples are a permutation of the
    triples of the input.  The arrays are stored before the plot limits
    are taken: for non-empty input the call returns normally, for empty
    input it stores the empty arrays and then raises [ValueError] from
    [min]. *)
Theorem set_observation_sorts_by_star_then_period
    (xvar yvar : list R) (starID : list Z) (n : R) (self : epos) :
  length xvar = length yvar ->
  length yvar = length starID ->
  let run := set_observation xvar yvar starID n self in
  exists order ox oy oid,
    order ≡ₚ seq 0 (length xvar) /\
    ox = map (fun i => nth i xvar 0) order /\
    oy = map (fun i => nth i yvar 0) order /\
    oid = map (fun i => nth i starID 0%Z) order /\
    snd run obs_xvar = Some ox /\ snd run obs_yvar = Some oy /\
    snd run obs_starID = Some oid /\
    StronglySorted Np.lex_le (zip oid ox) /\
    zip (zip ox oy) oid ≡ₚ zip (zip xvar yvar) starID /\
    (xvar <> [] -> fst run = Ok tt) /\
    (xvar = [] -> fst run = Raise ValueError).
Proof.
  intros Hxy Hys run.
  destruct (NpFacts.lexsort_spec starID xvar) as (order & Hlex & Hperm & Hsorted);
    [congruence|].
  pose proof (NpFacts.forall_lt_of_perm_seq order _ Hperm) as Hlt.
  set (ox := map (fun i => nth i xvar 0) order).
  set (oy := map (fun i => nth i yvar 0) order).
  set (oid := map (fun i => nth i starID 0%Z) order).
  assert (Hox : Np.take_indices xvar order = Ok ox).
  { apply NpFacts.take_indices_Ok. rewrite Hxy, Hys. exact Hlt. }
  assert (Hoy : Np.take_indices yvar order = Ok oy).
  { apply NpFacts.take_indices_Ok. rewrite Hys. exact Hlt. }
  assert (Hoid : Np.take_indices starID order = Ok oid).
  { apply NpFacts.take_indices_Ok. exact Hlt. }
  exists order, ox, oy, oid.
  split; [rewrite Hxy, Hys; exact Hperm|]. do 3 (split; [reflexivity|]).
  assert (Hrun : exists s : epos,
    (s obs_xvar = Some ox /\ s obs_yvar = Some oy /\ s obs_starID = Some oid) /\
    run = (if bool_decide (xvar = []) then Raise ValueError else Ok tt, s)).
  { unfold run, set_observation.
    erewrite bind_Ok_intro by (apply reading_run; exact Hlex).
    erewrite bind_Ok_intro by (apply reading_run; exact Hox).
    erewrite bind_Ok_intro by reflexivity.
    erewrite bind_Ok_intro by (apply reading_run; exact Hoy).
    erewrite bind_Ok_intro by reflexivity.
    erewrite bind_Ok_intro by (apply reading_run; exact Hoid).
    erewrite bind_Ok_intro by reflexivity.
    erewrite bind_Ok_intro by reflexivity.
    assert (Hlen : length ox = length order /\ length oy = length order /\
                   length oid = length order).
    { unfold ox, oy, oid. rewrite !length_map. auto. }
    destruct Hlen as (L1 & L2 & L3). rewrite L1, L2, L3, Nat.eqb_refl. simpl negb.
    cbv iota.
    assert (Hperm' : order ≡ₚ seq 0 (length xvar)) by (rewrite Hxy, Hys; exact Hperm).
    destruct xvar as [|x xvar'].
    - simpl in Hperm'. apply Permutation_nil_r in Hperm'. subst order.
      simpl in ox, oy, oid.
      eexists. split; [|reflexivity]. repeat split; attr_simpl; reflexivity.
    - destruct order as [|i order'];
        [simpl in Hperm'; apply Permutation_nil_l in Hperm'; discriminate|].
      eexists. split; [|unfold ox, oy; simpl map; run_fwd; reflexivity].
      repeat split; attr_simpl; reflexivity. }
  destruct Hrun as (s & (S1 & S2 & S3) & Hrun). rewrite Hrun. simpl.
  do 3 (split; [assumption|]).
  split; [|split; [|split]].
  - apply Sorted_StronglySorted; [apply NpFacts.lex_le_trans|].
    unfold oid, ox. rewrite NpFacts.zip_map_same.
    apply NpFacts.sorted_map_keys.
    eapply NpFacts.sorted_weaken; [|exact Hsorted].
    intros a b Hab. apply NpFacts.key_le_spec in Hab. exact Hab.
  - assert (Hin : map (fun i => (nth i xvar 0, nth i yvar 0, nth i starID 0%Z))
                    (seq 0 (length xvar)) = zip (zip xvar yvar) starID).
    { rewrite <- (NpFacts.zip_map_same (fun i => (nth i xvar 0, nth i yvar 0))
                    (fun i => nth i starID 0%Z)).
      rewrite <- (NpFacts.zip_map_same (fun i => nth i xvar 0) (fun i => nth i yvar 0)).
      rewrite (NpFacts.map_nth_seq_id 0 xvar). rewrite Hxy.
      rewrite (NpFacts.map_nth_seq_id 0 yvar). rewrite Hys.
      rewrite (NpFacts.map_nth_seq_id 0%Z starID). reflexivity. }
    rewrite <- Hin. unfold ox, oy, oid. rewrite !NpFacts.zip_map_same.
    apply Permutation_map. rewrite Hxy, Hys. exact Hperm.
  - intros Hne. rewrite bool_decide_eq_false_2 by exact Hne. reflexivity.
  - intros ->. reflexivity.
Qed.

Lemma set_observation_sorts_by_star_then_period_witness :
  let run := set_observation [20; 5; 10] [1; 2; 3] [2; 1; 1]%Z 100 (init false) in
  exists order ox oy oid,
    order ≡ₚ seq 0 3 /\
    ox = map (fun i => nth i [20; 5; 10] 0) order /\
    oy = map (fun i => nth i [1; 2; 3] 0) order /\
    oid = map (fun i => nth i [2; 1; 1]%Z 0%Z) order /\
    snd run obs_xvar = Some ox /\ snd run obs_yvar = Some oy /\
    snd run obs_starID = Some oid /\
    StronglySorted Np.lex_le (zip oid ox) /\
    zip (zip ox oy) oid ≡ₚ zip (zip [20; 5; 10] [1; 2; 3]) [2; 1; 1]%Z /\
    ([20; 5; 10] <> [] -> fst run = Ok tt) /\
    ([20; 5; 10] = [] -> fst run = Raise ValueError).
Proof.
  apply (set_observation_sorts_by_star_then_period
           [20; 5; 10] [1; 2; 3] [2; 1; 1]%Z 100 (init false)); reflexivity.
Defined.

(** The planets of star 1 come first, inner planet first. *)
Example lexsort_example : Np.lexsort [20; 5; 10] [2; 1; 1]%Z = Ok [1; 2; 0]%nat.
Proof. Reval. reflexivity. Qed.

End EposFacts.

(** ** The period-radius density *)

Module PopulationFacts.
Import Epos Population.

Lemma sum_map_scaled (k : R) (r : list R) :
  Np.sum (map (fun v => k * v) r) = k * Np.sum r.
Proof. induction r as [|v r IH]; simpl; [lra|]. rewrite IH. lra. Qed.

Lemma sum_map_ext (g h : R -> R) (r : list R) :
  (forall v, g v = h v) -> Np.sum (map g r) = Np.sum (map h r).
Proof. intros E. induction r as [|v r IH]; simpl; [reflexivity|]. rewrite E, IH. reflexivity. Qed.

(** Dividing the cells of the normalised density by [pps * scale] leaves
    the cells of the raw density over its total. *)
Lemma sum2_normalised (pps s sc : R) (g : grid) :
  s <> 0 -> pps <> 0 -> sc <> 0 ->
  Np.sum2 (map (map (fun v => v / (pps * sc))) (map (normalise pps s sc) g)) =
  Np.sum2 g / s.
Proof.
  intros Hs Hp Hc. unfold Np.sum2, normalise. rewrite !map_map.
  induction g as [|r g IH]; simpl; [lra|]. rewrite IH.
  rewrite map_map.
  rewrite (sum_map_ext _ (fun v => / s * v)) by (intros v; field; auto).
  rewrite sum_map_scaled. field. exact Hs.
Qed.

(** C1. On the default grid (no [xbin], [ybin], [xgrid] or [ygrid]), for
    an object that holds a registry with [pps], a density function and
    the grid and scale attributes that [set_ranges] stores: when the raw
    density has a nonzero total and [pps * scale] is nonzero,
    [periodradius] returns, and the cells of [pdf / (pps * scale)] sum
    to one. *)
Theorem periodradius_default_total_one (self : epos) (Init : bool)
    (fpara : option (list R)) (pars : Registry.fitparameters) (f : pdf_func)
    (x_in y_in : grid) (pps sx siy sc : R) (fpar2d : list R) :
  self fitpars = Some pars ->
  fit_values Init fpara pars = Ok (pps, fpar2d) ->
  self func = Some f ->
  self X_in = Some x_in -> self Y_in = Some y_in ->
  self scale_x = Some sx -> self scale_in_y = Some siy -> self scale = Some sc ->
  Np.sum2 (f x_in y_in fpar2d) <> 0 ->
  pps <> 0 -> sc <> 0 ->
  exists pdf pdf_X pdf_Y,
    periodradius self Init fpara None None None None = Ok (pps, pdf, pdf_X, pdf_Y) /\
    Np.sum2 (map (map (fun v => v / (pps * sc))) pdf) = 1.
Proof.
  intros Hpars Hfit Hf Hx Hy Hsx Hsiy Hsc Hsum Hpps Hscale.
  unfold periodradius, getattr, mbind, result_bind.
  rewrite Hpars; cbv beta iota. rewrite Hfit; cbv beta iota.
  rewrite Hf, Hx, Hy; cbv beta iota zeta.
  rewrite bool_decide_eq_false_2 by (intros [[? H]|[? H]]; discriminate H).
  rewrite Hsx, Hsiy, Hsc; cbv beta iota.
  eexists _, _, _. split; [reflexivity|].
  rewrite sum2_normalised by assumption. field. exact Hsum.
Qed.

Lemma ln10_gt_1 : 1 < ln 10.
Proof.
  rewrite <- (ln_exp 1) at 1. apply ln_increasing; [apply exp_pos|].
  pose proof exp_le_3. lra.
Qed.

Lemma fit_values_example :
  fit_values false None Examples.pps_registry = Ok (1, []).
Proof. reflexivity. Qed.

Lemma periodradius_default_total_one_witness :
  exists pdf pdf_X pdf_Y,
    periodradius (Examples.configured false) false None None None None None =
      Ok (1, pdf, pdf_X, pdf_Y) /\
    Np.sum2 (map (map (fun v => v / (1 * (2 / Np.log (10 / 1) * (2 / Np.log (10 / 1))))))
               pdf) = 1.
Proof.
  destruct (EposFacts.configured_attrs false)
    as (Hp & Hf & Hx & Hy & _ & _ & Hsx & Hsiy & Hsc).
  assert (Hln : Np.log (10 / 1) <> 0).
  { unfold Np.log. replace (10 / 1) with 10 by lra. pose proof ln10_gt_1. lra. }
  apply (periodradius_default_total_one (Examples.configured false) false None
           Examples.pps_registry Examples.flat_pdf
           [[1; 1]; [10; 10]] [[1; 10]; [1; 10]] 1
           (2 / Np.log (10 / 1)) (2 / Np.log (10 / 1))
           (2 / Np.log (10 / 1) * (2 / Np.log (10 / 1))) []);
    try assumption.
  - exact fit_values_example.
  - unfold Examples.flat_pdf, Np.sum2. simpl. lra.
  - lra.
  - apply Rmult_integral_contrapositive_currified;
      (unfold Rdiv; apply Rmult_integral_contrapositive_currified;
         [lra | apply Rinv_neq_0_compat, Hln]).
Defined.

Lemma log10_10 : Np.log10 (10 / 1) = 1.
Proof.
  unfold Np.log10. replace (10 / 1) with 10 by lra.
  pose proof ln10_gt_1. field. lra.
Qed.

Lemma log_10 : Np.log (10 / 1) = ln 10.
Proof. unfold Np.log. f_equal. lra. Qed.

(** The sums along the axes of a scaled grid, and of a rectangular grid. *)
Lemma sum_normalise (k s c : R) (r : list R) :
  Np.sum (normalise k s c r) = k * Np.sum r / s * c.
Proof.
  unfold normalise. induction r as [|v r IH]; simpl; [unfold Rdiv; ring|].
  rewrite IH. unfold Rdiv. ring.
Qed.

Lemma zip_with_normalise (k s c : R) (a b : list R) :
  zip_with Rplus (normalise k s c a) (normalise k s c b) =
  normalise k s c (zip_with Rplus a b).
Proof.
  unfold normalise. revert b. induction a as [|x a IH]; intros [|y b]; simpl;
    try reflexivity.
  rewrite IH. f_equal. unfold Rdiv. ring.
Qed.

Lemma sum_axis0_normalise (k s c : R) (g : grid) :
  Np.sum_axis0 (map (normalise k s c) g) = normalise k s c (Np.sum_axis0 g).
Proof.
  destruct g as [|r g]; [reflexivity|]. simpl. revert r.
  induction g as [|r' g IH]; intros r; simpl; [reflexivity|].
  rewrite zip_with_normalise. apply IH.
Qed.

Lemma sum_zip_with_plus (a b : list R) :
  length a = length b -> Np.sum (zip_with Rplus a b) = Np.sum a + Np.sum b.
Proof.
  revert b. induction a as [|x a IH]; intros [|y b] H; simpl in *;
    try discriminate; [lra|].
  rewrite IH by lia. lra.
Qed.

Lemma sum_sum_axis0 (g : grid) (ny : nat) :
  Forall (fun r => length r = ny) g -> Np.sum (Np.sum_axis0 g) = Np.sum2 g.
Proof.
  unfold Np.sum2. destruct g as [|r g]; [reflexivity|]. intros H.
  apply Forall_cons in H as [Hr H]. simpl. revert r Hr.
  induction H as [|r' g Hr' _ IH]; intros r Hr; simpl; [lra|].
  rewrite IH by (rewrite length_zip_with; lia).
  rewrite sum_zip_with_plus by lia. lra.
Qed.

(** With [LogArea=False] and no mass-radius conversion the two paths of
    [periodradius] agree on the working grid: after a call of [set_ranges]
    that returns, for a density function that gives one row per sample of
    [MC_xvar] with one cell per sample of [MC_yvar] and a nonzero total,
    and for axes whose log-spans are nonzero, the call with
    [xgrid = MC_xvar], [ygrid = MC_yvar] returns what the default call
    returns. *)
Lemma periodradius_custom_grid_ln_agrees
    (xtrim_ ytrim_ xzoom_ yzoom_ : option (R * R)) (Occ Init : bool)
    (fpara : option (list R)) (self0 self : epos) (pars : Registry.fitparameters)
    (f : pdf_func) (mx my : list R) (pps : R) (fpar2d : list R) :
  set_ranges xtrim_ ytrim_ xzoom_ yzoom_ false Occ self0 = (Ok tt, self) ->
  self0 PDF = Some true -> self0 MassRadius = Some false ->
  self fitpars = Some pars -> fit_values Init fpara pars = Ok (pps, fpar2d) ->
  self func = Some f ->
  self MC_xvar = Some mx -> self MC_yvar = Some my ->
  (let g := f (fst (Np.meshgrid mx my)) (snd (Np.meshgrid mx my)) fpar2d in
   length g = length mx /\ Forall (fun r => length r = length my) g /\
   Np.sum2 g <> 0) ->
  (forall hi lo, Np.item mx (-1) = Ok hi -> Np.item mx 0 = Ok lo -> Np.log (hi / lo) <> 0) ->
  (forall hi lo, Np.item my (-1) = Ok hi -> Np.item my 0 = Ok lo -> Np.log (hi / lo) <> 0) ->
  exists pdf pdf_X pdf_Y,
    periodradius self Init fpara None None None None = Ok (pps, pdf, pdf_X, pdf_Y) /\
    periodradius self Init fpara None None (Some mx) (Some my) =
      Ok (pps, pdf, pdf_X, pdf_Y).
Proof.
  intros Hrun HPDF HMR Hpars Hfit Hf Hmx Hmy Hshape Hlx Hly.
  apply EposFacts.set_ranges_Ok_inv in Hrun.
  destruct Hrun as (xlim & ylim & ex & ey & ixmin & ixmax & iymin & iymax & sx & sy & H).
  cbv zeta in H.
  destruct H as (_ & _ & _ & _ & _ & _ & Hsx & Hsy & _ & _ & _ & _ &
                 Hmx' & Hmy' & Hscx & Hscy & Hsc & _ & _ & _ & _ & _ & _ & _ & Hin).
  rewrite Hmx in Hmx'. rewrite Hmy in Hmy'. inversion Hmx' as [Emx]. inversion Hmy' as [Emy].
  rewrite <- Emx, <- Emy in *. clear Hmx' Hmy' Emx Emy.
  destruct (Hin HPDF HMR) as (Hxin & Hyin & Hsiy). clear Hin.
  unfold log_scale, mbind, result_bind in Hsx, Hsy.
  destruct (Np.item mx (-1)) as [xhi|] eqn:Exhi; [|discriminate].
  destruct (Np.item mx 0) as [xlo|] eqn:Exlo; [|discriminate].
  destruct (Np.item my (-1)) as [yhi|] eqn:Eyhi; [|discriminate].
  destruct (Np.item my 0) as [ylo|] eqn:Eylo; [|discriminate].
  inversion Hsx as [Esx]. inversion Hsy as [Esy]. clear Hsx Hsy.
  specialize (Hlx xhi xlo eq_refl eq_refl). specialize (Hly yhi ylo eq_refl eq_refl).
  set (g := f (fst (Np.meshgrid mx my)) (snd (Np.meshgrid mx my)) fpar2d) in *.
  destruct Hshape as (Hrows & Hcols & Hsum).
  assert (Hnx : INR (length mx) <> 0).
  { apply not_0_INR. destruct mx; [discriminate Exlo|discriminate]. }
  assert (Hny : INR (length my) <> 0).
  { apply not_0_INR. destruct my; [discriminate Eylo|discriminate]. }
  unfold periodradius, getattr, mbind, result_bind.
  rewrite Hpars; cbv beta iota. rewrite Hfit; cbv beta iota.
  rewrite Hf, Hxin, Hyin, Hscx, Hsiy, Hsc; cbv beta iota zeta. fold g.
  rewrite bool_decide_eq_false_2 by (intros [[? H]|[? H]]; discriminate H).
  rewrite bool_decide_eq_true_2 by (left; eexists; reflexivity).
  rewrite Exhi, Exlo, Eyhi, Eylo.
  eexists _, _, _. split; [reflexivity|].
  do 2 f_equal; [f_equal|].
  - (* pdf_X *)
    unfold Np.average_axis1, Np.sum_axis1. rewrite !map_map.
    transitivity (map (fun r => pps * Np.sum r / Np.sum (map Np.sum g) * sx) g);
      [|unfold normalise; rewrite map_map; reflexivity].
    apply map_ext_Forall. eapply Forall_impl; [exact Hcols|].
    intros r Hr. cbv beta. rewrite sum_normalise.
    unfold normalise. rewrite length_map, Hr.
    change (Np.sum (map Np.sum g)) with (Np.sum2 g).
    rewrite <- Esx, <- Esy. unfold Rdiv. field_simplify_eq; [ring|].
    repeat split; try assumption.
  - (* pdf_Y *)
    unfold Np.average_axis0. rewrite sum_axis0_normalise.
    rewrite (sum_sum_axis0 g (length my) Hcols).
    unfold normalise. rewrite length_map, Hrows.
    do 2 rewrite (map_map _ _ (Np.sum_axis0 g)).
    apply map_ext. intros c.
    rewrite <- Esx, <- Esy. unfold Rdiv. field_simplify_eq; [ring|].
    repeat split; try assumption.
Qed.

(** Compare two evaluated results cell by cell. *)
Ltac cells :=
  repeat match goal with
  | |- Ok _ = Ok _ => f_equal
  | |- (_, _) = (_, _) => f_equal
  | |- _ :: _ = _ :: _ => f_equal
  end;
  try reflexivity;
  rewrite ?log10_10, ?log_10; simpl INR; try lra.

Ltac eval_periodradius Hp Hf Hx Hy Hmx Hmy Hsx Hsiy Hsc :=
  unfold periodradius, getattr, mbind, result_bind;
  rewrite Hp, Hf, Hx, Hy, Hsc, ?Hmx, ?Hmy, ?Hsx, ?Hsiy; cbv beta iota;
  rewrite fit_values_example; cbv beta iota;
  Reval.

(** C2, at the example configured with [LogArea=True]: called with
    [xgrid = MC_xvar] and [ygrid = MC_yvar], [periodradius] returns the
    joint density of the default path, but its two marginal densities are
    [ln 10] times those of the default path: the joint density is scaled
    by [epos.scale], which [set_ranges] computed with [np.log10], and the
    marginals are then taken with the spans [dlnx], [dlny] computed with
    [np.log]. *)
Theorem periodradius_custom_grid_log10_marginals_differ :
  let st := Examples.configured true in
  exists pdf pdf_X pdf_Y pdf_X' pdf_Y',
    st MC_xvar = Some [1; 10] /\ st MC_yvar = Some [1; 10] /\
    periodradius st false None None None None None = Ok (1, pdf, pdf_X, pdf_Y) /\
    periodradius st false None None None (Some [1; 10]) (Some [1; 10]) =
      Ok (1, pdf, pdf_X', pdf_Y') /\
    pdf = [[1; 1]; [1; 1]] /\
    pdf_X = [1; 1] /\ pdf_Y = [1; 1] /\
    pdf_X' = [ln 10; ln 10] /\ pdf_Y' = [ln 10; ln 10] /\
    pdf_X' <> pdf_X /\ pdf_Y' <> pdf_Y.
Proof.
  intros st.
  destruct (EposFacts.configured_attrs true)
    as (Hp & Hf & Hx & Hy & Hmx & Hmy & Hsx & Hsiy & Hsc).
  fold st in Hp, Hf, Hx, Hy, Hmx, Hmy, Hsx, Hsiy, Hsc.
  exists [[1; 1]; [1; 1]], [1; 1], [1; 1], [ln 10; ln 10], [ln 10; ln 10].
  split; [exact Hmx|]. split; [exact Hmy|].
  split; [|split].
  - eval_periodradius Hp Hf Hx Hy Hmx Hmy Hsx Hsiy Hsc. cells.
  - eval_periodradius Hp Hf Hx Hy Hmx Hmy Hsx Hsiy Hsc. cells.
  - do 5 (split; [reflexivity|]).
    pose proof ln10_gt_1.
    split; intros E; inversion E; lra.
Qed.

End PopulationFacts.

(** * Further properties *)

(** ** The registry: invariants, defaults, vectors *)

Module RegistryProps.
Import Registry RegistryFacts Invariants.

Lemma new_fitpar_ok key value fixed mn mx dx :
  entry_ok key (new_fitpar key value fixed mn mx dx).
Proof.
  unfold entry_ok, new_fitpar. destruct fixed; simpl.
  - repeat split; try discriminate; intros; discriminate.
  - split; [reflexivity|]. split; [|split; [eauto|discriminate]].
    intros d Hd. inversion Hd; subst d. unfold eqb_R.
    destruct (Req_dec_T _ 0) as [E|E]; [lra|]. apply Rabs_pos_lt, E.
Qed.

Lemma same_but_fit_refl fp : same_but_fit fp fp.
Proof. repeat split. Qed.

Lemma same_but_fit_ok k fp fp' : same_but_fit fp fp' -> entry_ok k fp -> entry_ok k fp'.
Proof.
  intros (H1 & H2 & H3 & H4 & H5 & H6) (E1 & E2 & E3 & E4).
  unfold entry_ok. rewrite H1, H3, H4, H5, H6. repeat split; auto; try apply E3; try apply E4; auto.
Qed.

(** [setfit] changes nothing but fitted values. *)
Lemma setfit_loop_entries keys : forall i mclist self k,
  match fitpars self !! k, fitpars (snd (setfit_loop i keys mclist self)) !! k with
  | Some fp, Some fp' => same_but_fit fp fp'
  | None, None => True
  | _, _ => False
  end.
Proof.
  induction keys as [|key keys IH]; intros i mclist self k; simpl.
  - destruct (fitpars self !! k); [apply same_but_fit_refl | exact I].
  - destruct (mclist !! i) as [v|]; simpl;
      [|destruct (fitpars self !! k); [apply same_but_fit_refl | exact I]].
    destruct (fitpars self !! key) as [fq|] eqn:Hq; simpl;
      [|destruct (fitpars self !! k); [apply same_but_fit_refl | exact I]].
    specialize (IH (S i) mclist
      (with_fitpars self (<[key := set_value_fit fq v]> (fitpars self))) k).
    simpl in IH. destruct (decide (key = k)) as [->|Hne].
    + rewrite lookup_insert_eq in IH. rewrite Hq.
      destruct (fitpars (setfit_loop _ _ _ _).2 !! k) as [fp'|]; [|exact IH].
      destruct IH as (H1 & H2 & H3 & H4 & H5 & H6). repeat split; assumption.
    + rewrite lookup_insert_ne in IH by exact Hne. exact IH.
Qed.

Lemma set_value_init_ok k fp v : entry_ok k fp -> entry_ok k (set_value_init fp v).
Proof. intros H. exact H. Qed.

(** What every registry built by method calls satisfies. *)
Lemma built_invariant self :
  built self ->
  (forall k, k ∈ keysfit self -> k ∈ keysall self) /\
  (forall k, k ∈ keys2d self -> k ∈ keysall self) /\
  (forall k, k ∈ keysall self <-> is_Some (fitpars self !! k)) /\
  (forall k fp, fitpars self !! k = Some fp -> entry_ok k fp).
Proof.
  assert (Hadd : forall s key value fixed mn mx dx is2D,
    ((forall k, k ∈ keysfit s -> k ∈ keysall s) /\
     (forall k, k ∈ keys2d s -> k ∈ keysall s) /\
     (forall k, k ∈ keysall s <-> is_Some (fitpars s !! k)) /\
     (forall k fp, fitpars s !! k = Some fp -> entry_ok k fp)) ->
    let self' := snd (add key value fixed mn mx dx is2D s) in
    (forall k, k ∈ keysfit self' -> k ∈ keysall self') /\
    (forall k, k ∈ keys2d self' -> k ∈ keysall self') /\
    (forall k, k ∈ keysall self' <-> is_Some (fitpars self' !! k)) /\
    (forall k fp, fitpars self' !! k = Some fp -> entry_ok k fp)).
  { intros s key value fixed mn mx dx is2D (I1 & I2 & I3 & I4). simpl.
    split; [|split; [|split]].
    - intros k Hk. apply elem_of_app. destruct fixed; [left; auto|].
      apply elem_of_app in Hk as [Hk|Hk]; [left; auto|right; exact Hk].
    - intros k Hk. apply elem_of_app. destruct is2D; [|left; auto].
      apply elem_of_app in Hk as [Hk|Hk]; [left; auto|right; exact Hk].
    - intros k. rewrite elem_of_app, list_elem_of_singleton.
      destruct (decide (key = k)) as [->|Hne].
      + rewrite lookup_insert_eq. split; [eauto|right; reflexivity].
      + rewrite lookup_insert_ne by exact Hne. rewrite <- I3.
        split; [intros [H|H]; [exact H|congruence]|left; assumption].
    - intros k fp. destruct (decide (key = k)) as [->|Hne].
      + rewrite lookup_insert_eq. intros H. inversion H. apply new_fitpar_ok.
      + rewrite lookup_insert_ne by exact Hne. apply I4. }
  induction 1 as [|self c Hb IH].
  - simpl. split; [intros k H; inversion H|]. split; [intros k H; inversion H|]. split.
    + intros k. split; [intros H; inversion H|].
      intros [x H]. rewrite lookup_empty in H. discriminate.
    + intros k fp H. rewrite lookup_empty in H. discriminate.
  - destruct c as [key value fixed mn mx dx is2D|key value|key value|mclist]; simpl.
    + apply Hadd, IH.
    + unfold default. case_bool_decide; [exact IH|]. apply Hadd, IH.
    + unfold set. destruct (fitpars self !! key) as [fp|] eqn:Hfp; [|exact IH]. simpl.
      destruct IH as (I1 & I2 & I3 & I4). split; [exact I1|]. split; [exact I2|]. split.
      * intros k. rewrite I3. destruct (decide (key = k)) as [->|Hne].
        -- rewrite lookup_insert_eq, Hfp. split; eauto.
        -- rewrite lookup_insert_ne by exact Hne. reflexivity.
      * intros k fq. destruct (decide (key = k)) as [->|Hne].
        -- rewrite lookup_insert_eq. intros H. inversion H.
           apply set_value_init_ok, I4, Hfp.
        -- rewrite lookup_insert_ne by exact Hne. apply I4.
    + unfold setfit.
      destruct (setfit_loop_frame (keysfit self) 0 mclist self) as (H1 & H2 & H3 & _).
      pose proof (setfit_loop_entries (keysfit self) 0 mclist self) as He.
      rewrite H1, H2, H3. destruct IH as (I1 & I2 & I3 & I4).
      split; [exact I1|]. split; [exact I2|]. split.
      * intros k. rewrite I3. specialize (He k).
        destruct (fitpars self !! k), (fitpars (setfit_loop _ _ _ _).2 !! k);
          try contradiction; split; eauto; intros [? ?]; discriminate.
      * intros k fp' Hk. specialize (He k). rewrite Hk in He.
        destruct (fitpars self !! k) as [fp|] eqn:Hq; [|contradiction].
        eapply same_but_fit_ok; [exact He|]. apply I4, Hq.
Qed.

(** With no key registered twice, the free keys are exactly the keys of
    the entries that are not fixed, and a fixed entry never carries a
    fitted value. *)
Lemma built_nodup_invariant self :
  built self -> NoDup (keysall self) ->
  NoDup (keysfit self) /\
  (forall k fp, fitpars self !! k = Some fp ->
     (fp_fixed fp = false <-> k ∈ keysfit self)) /\
  (forall k fp, fitpars self !! k = Some fp ->
     fp_fixed fp = true -> fp_value_fit fp = None).
Proof.
  assert (Hadd : forall s key value fixed mn mx dx is2D,
    built s ->
    (NoDup (keysall s) ->
     NoDup (keysfit s) /\
     (forall k fp, fitpars s !! k = Some fp ->
        (fp_fixed fp = false <-> k ∈ keysfit s)) /\
     (forall k fp, fitpars s !! k = Some fp ->
        fp_fixed fp = true -> fp_value_fit fp = None)) ->
    let self' := snd (add key value fixed mn mx dx is2D s) in
    NoDup (keysall self') ->
    NoDup (keysfit self') /\
    (forall k fp, fitpars self' !! k = Some fp ->
       (fp_fixed fp = false <-> k ∈ keysfit self')) /\
    (forall k fp, fitpars self' !! k = Some fp ->
       fp_fixed fp = true -> fp_value_fit fp = None)).
  { intros s key value fixed mn mx dx is2D Hb IH. simpl. intros Hnd.
    apply NoDup_app in Hnd as (Hnd & Hnot & _).
    destruct (IH Hnd) as (I1 & I2 & I3).
    destruct (built_invariant s Hb) as (S1 & _ & _ & _).
    assert (Hk : key ∉ keysfit s).
    { intros Hin. apply (Hnot key (S1 _ Hin)). apply list_elem_of_singleton. reflexivity. }
    split; [|split].
    - destruct fixed; [exact I1|]. apply NoDup_app. split; [exact I1|].
      split; [|apply NoDup_singleton].
      intros x Hx Hx'. apply list_elem_of_singleton in Hx'. subst x. exact (Hk Hx).
    - intros k fp. destruct (decide (key = k)) as [->|Hne].
      + rewrite lookup_insert_eq. intros H. inversion H. unfold new_fitpar.
        destruct fixed; simpl.
        * split; [discriminate|]. intros Hin. exfalso. exact (Hk Hin).
        * split; [|reflexivity]. intros _. apply elem_of_app. right.
          apply list_elem_of_singleton. reflexivity.
      + rewrite lookup_insert_ne by exact Hne. intros H. rewrite (I2 k fp H).
        destruct fixed; [reflexivity|]. rewrite elem_of_app, list_elem_of_singleton.
        split; [left; assumption|intros [?|?]; [assumption|congruence]].
    - intros k fp. destruct (decide (key = k)) as [->|Hne].
      + rewrite lookup_insert_eq. intros H. inversion H. unfold new_fitpar.
        destruct fixed; reflexivity.
      + rewrite lookup_insert_ne by exact Hne. apply I3. }
  induction 1 as [|self c Hb IH].
  - intros _. simpl. split; [apply NoDup_nil_2|].
    split; intros k fp H; rewrite lookup_empty in H; discriminate.
  - destruct c as [key value fixed mn mx dx is2D|key value|key value|mclist]; simpl.
    + exact (Hadd self key value fixed mn mx dx is2D Hb IH).
    + unfold default. case_bool_decide; [exact IH|].
      exact (Hadd self key value true NegInf PosInf None false Hb IH).
    + unfold set. destruct (fitpars self !! key) as [fp|] eqn:Hfp; [|exact IH]. simpl.
      intros Hnd. destruct (IH Hnd) as (I1 & I2 & I3). split; [exact I1|].
      split; intros k fq; (destruct (decide (key = k)) as [->|Hne];
        [rewrite lookup_insert_eq; intros H; inversion H; simpl
        |rewrite lookup_insert_ne by exact Hne]); eauto.
    + unfold setfit.
      destruct (setfit_loop_frame (keysfit self) 0 mclist self) as (H1 & H2 & H3 & _ & H5).
      pose proof (setfit_loop_entries (keysfit self) 0 mclist self) as He.
      rewrite H1, H2. intros Hnd. destruct (IH Hnd) as (I1 & I2 & I3).
      split; [exact I1|]. split.
      * intros k fp' Hk. specialize (He k). rewrite Hk in He.
        destruct (fitpars self !! k) as [fp|] eqn:Hq; [|contradiction].
        destruct He as (_ & _ & Hf & _). rewrite Hf. apply I2, Hq.
      * intros k fp' Hk Hfix. pose proof (He k) as Hek. rewrite Hk in Hek.
        destruct (fitpars self !! k) as [fp|] eqn:Hq; [|contradiction].
        destruct Hek as (_ & _ & Hf & _).
        assert (Hnk : k ∉ keysfit self).
        { intros Hin. apply (I2 k fp Hq) in Hin. congruence. }
        rewrite (H5 k Hnk), Hq in Hk. inversion Hk; subst fp'. apply (I3 k fp Hq).
        congruence.
Qed.

Lemma reg_acb_built : built MoreExamples.reg_acb.
Proof.
  unfold MoreExamples.reg_acb.
  apply (built_call _ (CallAdd "b" 1 false (Fin 0) (Fin 5) None false)).
  apply (built_call _ (CallAdd "c" 3 true NegInf PosInf None true)).
  apply (built_call _ (CallAdd "a" 1 false (Fin 0) (Fin 2) None true)).
  apply built_init.
Qed.

Lemma reg_acb_nodup : NoDup (keysall MoreExamples.reg_acb).
Proof. apply (bool_decide_unpack _). vm_compute. exact I. Qed.

Lemma index_spec key l :
  key ∈ l -> exists j, index key l = Ok j /\ l !! j = Some key.
Proof.
  induction l as [|k l IH]; intros H; [inversion H|].
  simpl. case_bool_decide as E.
  - exists 0%nat. subst k. split; reflexivity.
  - apply elem_of_cons in H as [H|H]; [congruence|].
    destruct (IH H) as (j & Hj & Hl). exists (S j). rewrite Hj. split; [reflexivity|exact Hl].
Qed.

Lemma mapM_result_ext {A B} (f g : A -> result B) l :
  (forall x, x ∈ l -> f x = g x) -> mapM f l = mapM g l.
Proof.
  induction l as [|x l IH]; intros H; [reflexivity|].
  rewrite !mapM_result_cons, (H x) by left.
  rewrite IH; [reflexivity|]. intros z Hz. apply H. right. exact Hz.
Qed.

Lemma mapM_result_app {A B} (f : A -> result B) l1 l2 v1 v2 :
  mapM f l1 = Ok v1 -> mapM f l2 = Ok v2 -> mapM f (l1 ++ l2) = Ok (v1 ++ v2).
Proof.
  revert v1. induction l1 as [|x l1 IH]; intros v1 H1 H2.
  - inversion H1. exact H2.
  - rewrite mapM_result_cons in H1. destruct (f x) as [y|e] eqn:Hx; [|discriminate].
    simpl in H1. destruct (mapM f l1) as [k|e] eqn:Hk; [|discriminate].
    inversion H1; subst v1. simpl app. rewrite mapM_result_cons, Hx. simpl.
    rewrite (IH k eq_refl H2). reflexivity.
Qed.

Lemma mapM_result_Forall {A B} (f : A -> result B) (P : B -> Prop) l v :
  mapM f l = Ok v -> (forall x y, x ∈ l -> f x = Ok y -> P y) -> Forall P v.
Proof.
  revert v. induction l as [|x l IH]; intros v H HP.
  - inversion H. constructor.
  - rewrite mapM_result_cons in H. destruct (f x) as [y|e] eqn:Hx; [|discriminate].
    simpl in H. destruct (mapM f l) as [k|e] eqn:Hk; [|discriminate].
    inversion H; subst v. constructor.
    + apply (HP x y); [left|exact Hx].
    + apply IH; [reflexivity|]. intros z w Hz. apply HP. right. exact Hz.
Qed.

(** X1 (classes.py, [fitparameters.add], [default], [set], [setfit]):
    in a registry built from an empty one by calls of these four methods
    the three key lists and the dictionary agree: every free key and
    every 2D key is listed in [keysall], and a key is listed in [keysall]
    exactly when the dictionary has an entry for it. *)
Theorem built_key_lists_agree (self : fitparameters) :
  built self ->
  (forall k, k ∈ keysfit self -> k ∈ keysall self) /\
  (forall k, k ∈ keys2d self -> k ∈ keysall self) /\
  (forall k, k ∈ keysall self <-> is_Some (fitpars self !! k)).
Proof.
  intros Hb. destruct (built_invariant self Hb) as (H1 & H2 & H3 & _).
  split; [exact H1|]. split; [exact H2|exact H3].
Qed.

Lemma built_key_lists_agree_witness :
  "c" ∈ keysall MoreExamples.reg_acb <-> is_Some (fitpars MoreExamples.reg_acb !! "c").
Proof. apply (built_key_lists_agree MoreExamples.reg_acb reg_acb_built). Defined.

(** X2 (classes.py, [fitparameters.add] and the methods that update
    entries): every entry of a built registry is stored under its own
    key; a free entry carries [min], [max] and a [dx] that is strictly
    positive, a fixed entry carries none of the three. *)
Theorem built_entries_wellformed (self : fitparameters) (k : string) (fp : fitpar) :
  built self ->
  fitpars self !! k = Some fp ->
  fp_key fp = k /\
  (fp_fixed fp = false ->
     exists mn mx d, fp_min fp = Some mn /\ fp_max fp = Some mx /\
       fp_dx fp = Some d /\ 0 < d) /\
  (fp_fixed fp = true ->
     fp_min fp = None /\ fp_max fp = None /\ fp_dx fp = None).
Proof.
  intros Hb Hk. destruct (built_invariant self Hb) as (_ & _ & _ & H4).
  destruct (H4 k fp Hk) as (E1 & E2 & E3 & E4).
  split; [exact E1|]. split; [|exact E4].
  intros Hf. destruct (E3 Hf) as ([mn Hmn] & [mx Hmx] & [d Hd]).
  exists mn, mx, d. repeat split; try assumption. apply E2, Hd.
Qed.

Lemma built_entries_wellformed_witness :
  fp_key (new_fitpar "a" 1 false (Fin 0) (Fin 2) None) = "a" /\
  (fp_fixed (new_fitpar "a" 1 false (Fin 0) (Fin 2) None) = false ->
     exists mn mx d, fp_min (new_fitpar "a" 1 false (Fin 0) (Fin 2) None) = Some mn /\
       fp_max (new_fitpar "a" 1 false (Fin 0) (Fin 2) None) = Some mx /\
       fp_dx (new_fitpar "a" 1 false (Fin 0) (Fin 2) None) = Some d /\ 0 < d) /\
  (fp_fixed (new_fitpar "a" 1 false (Fin 0) (Fin 2) None) = true ->
     fp_min (new_fitpar "a" 1 false (Fin 0) (Fin 2) None) = None /\
     fp_max (new_fitpar "a" 1 false (Fin 0) (Fin 2) None) = None /\
     fp_dx (new_fitpar "a" 1 false (Fin 0) (Fin 2) None) = None).
Proof.
  apply (built_entries_wellformed Examples.reg_ab "a" _ reg_ab_built reg_ab_a).
Defined.

(** X3 (classes.py, [fitparameters.getfit] with [attr='dx'], [get],
    [add]): when no key was registered twice, [getfit(attr='dx')] returns
    one value for each free parameter, and each of them is strictly
    positive. *)
Theorem getfit_dx_positive (self : fitparameters) :
  built self ->
  NoDup (keysall self) ->
  exists l, getfit_attr "dx" self = Ok l /\
    length l = length (keysfit self) /\
    forall x, x ∈ l -> exists d, x = VFloat d /\ 0 < d.
Proof.
  intros Hb Hnd.
  destruct (built_invariant self Hb) as (H1 & _ & H3 & H4).
  destruct (built_nodup_invariant self Hb Hnd) as (_ & N2 & _).
  assert (Hdx : forall key, key ∈ keysfit self ->
            exists d, get_attr key "dx" self = Ok (VFloat d) /\ 0 < d).
  { intros key Hin. destruct (proj1 (H3 key) (H1 key Hin)) as [fp Hfp].
    destruct (H4 key fp Hfp) as (_ & E2 & E3 & _).
    destruct (E3 (proj2 (N2 key fp Hfp) Hin)) as (_ & _ & [d Hd]).
    exists d. split; [|apply E2, Hd].
    unfold get_attr, getkey. rewrite Hfp. simpl. rewrite Hd. reflexivity. }
  destruct (mapM_result_Ok (fun key => get_attr key "dx" self) (keysfit self)) as [l Hl].
  { intros key Hin. destruct (Hdx key Hin) as (d & Hd & _). eauto. }
  exists l. split; [exact Hl|]. split; [eapply mapM_result_length, Hl|].
  apply Forall_forall. eapply mapM_result_Forall; [exact Hl|].
  intros key y Hin Hy. destruct (Hdx key Hin) as (d & Hd & Hpos).
  exists d. split; [congruence|exact Hpos].
Qed.

Lemma getfit_dx_positive_witness :
  exists l, getfit_attr "dx" MoreExamples.reg_acb = Ok l /\
    length l = length (keysfit MoreExamples.reg_acb) /\
    forall x, x ∈ l -> exists d, x = VFloat d /\ 0 < d.
Proof. apply (getfit_dx_positive MoreExamples.reg_acb reg_acb_built reg_acb_nodup). Defined.

(** X4 (classes.py, [fitparameters.default], [add], [get]): [default]
    never replaces a parameter.  After [default(key, v1)] the key is
    listed, a second [default(key, v2)] changes nothing, and [get] returns
    what it returned before the call when the key was listed already, and
    [v1] otherwise, whatever [Init] is. *)
Theorem default_keeps_first_value (self : fitparameters) (key : string)
    (v1 v2 : R) (Init : bool) :
  let s1 := snd (default key v1 self) in
  key ∈ keysall s1 /\
  default key v2 s1 = (Ok tt, s1) /\
  get key Init s1 =
    (if bool_decide (key ∈ keysall self) then get key Init self else Ok v1).
Proof.
  unfold default. case_bool_decide as Hin; simpl.
  - split; [exact Hin|]. rewrite bool_decide_true by exact Hin. split; reflexivity.
  - assert (Hin' : key ∈ keysall self ++ [key]).
    { apply elem_of_app. right. apply list_elem_of_singleton. reflexivity. }
    split; [exact Hin'|]. rewrite bool_decide_true by exact Hin'.
    split; [reflexivity|]. unfold get, getkey. simpl.
    rewrite lookup_insert_eq. reflexivity.
Qed.

(** X5 (classes.py, [fitparameters.get], [set], [getmc]): on a built
    registry the three methods succeed on a key that is listed in
    [keysall] or, for [getmc] of a free key, fail only on the vector; on a
    key that is not listed each of them raises [KeyError], and [set]
    leaves the registry as it was. *)
Theorem unregistered_key_raises_KeyError (self : fitparameters) (key : string)
    (v : R) (Init : bool) (parlist : list R) :
  built self ->
  (key ∈ keysall self ->
     (exists w, get key Init self = Ok w) /\ fst (set key v self) = Ok tt /\
     getmc key parlist self <> Raise KeyError) /\
  (key ∉ keysall self ->
     get key Init self = Raise KeyError /\
     set key v self = (Raise KeyError, self) /\
     getmc key parlist self = Raise KeyError).
Proof.
  intros Hb. destruct (built_invariant self Hb) as (_ & _ & H3 & _).
  split; intros Hin.
  - destruct (proj1 (H3 key) Hin) as [fp Hfp]. split; [|split].
    + apply get_registered. eauto.
    + unfold set. rewrite Hfp. reflexivity.
    + unfold getmc, getkey. rewrite Hfp. simpl. destruct (fp_fixed fp); [discriminate|].
      destruct (index key (keysfit self)) as [i|e] eqn:Hi; simpl.
      * unfold getitem. destruct (parlist !! i); discriminate.
      * assert (e = ValueError); [|subst e; discriminate].
        clear -Hi. revert e Hi. induction (keysfit self) as [|k l IH]; simpl; intros e Hi.
        -- congruence.
        -- case_bool_decide; [discriminate|].
           destruct (index key l) as [j|e'] eqn:Hj; simpl in Hi; [discriminate|].
           inversion Hi; subst e'. apply IH. reflexivity.
  - assert (Hnone : fitpars self !! key = None).
    { destruct (fitpars self !! key) as [fp|] eqn:Hfp; [|reflexivity].
      exfalso. apply Hin, H3. eauto. }
    unfold get, set, getmc, getkey. rewrite Hnone. repeat split.
Qed.

Lemma unregistered_key_raises_KeyError_witness :
  get "z" false Examples.reg_ab = Raise KeyError /\
  set "z" 1 Examples.reg_ab = (Raise KeyError, Examples.reg_ab) /\
  getmc "z" [1; 2] Examples.reg_ab = Raise KeyError.
Proof.
  apply (unregistered_key_raises_KeyError Examples.reg_ab "z" 1 false [1; 2] reg_ab_built).
  apply (bool_decide_unpack _). vm_compute. exact I.
Defined.

Lemma setfit_loop_partial keys : forall i mclist self,
  NoDup keys ->
  (forall k, k ∈ keys -> is_Some (fitpars self !! k)) ->
  let r := setfit_loop i keys mclist self in
  ((i + length keys <= length mclist)%nat -> fst r = Ok tt) /\
  ((i <= length mclist)%nat -> (length mclist < i + length keys)%nat ->
     fst r = Raise IndexError) /\
  (forall j key v, keys !! j = Some key -> mclist !! (i + j)%nat = Some v ->
     get key false (snd r) = Ok v) /\
  (forall j key, keys !! j = Some key -> mclist !! (i + j)%nat = None ->
     fitpars (snd r) !! key = fitpars self !! key).
Proof.
  induction keys as [|key keys IH]; intros i mclist self Hnd Hreg; simpl.
  - split; [reflexivity|]. split; [intros; lia|]. split; intros j k; discriminate.
  - apply NoDup_cons in Hnd as [Hnot Hnd].
    destruct (mclist !! i) as [v|] eqn:Hv; simpl.
    + destruct (Hreg key) as [fp Hfp]; [left|]. rewrite Hfp.
      set (self1 := with_fitpars self (<[key := set_value_fit fp v]> (fitpars self))).
      assert (Hreg1 : forall k, k ∈ keys -> is_Some (fitpars self1 !! k)).
      { intros k Hk. simpl. destruct (decide (key = k)) as [->|Hne].
        - rewrite lookup_insert_eq. eauto.
        - rewrite lookup_insert_ne by exact Hne. apply Hreg. right. exact Hk. }
      destruct (IH (S i) mclist self1 Hnd Hreg1) as (R1 & R2 & R3 & R4).
      destruct (setfit_loop_frame keys (S i) mclist self1) as (_ & _ & _ & _ & F5).
      pose proof (lookup_lt_Some _ _ _ Hv) as Hlt.
      split; [intros; apply R1; lia|]. split; [intros; apply R2; lia|]. split.
      * intros [|j] k w Hk Hw; simpl in Hk.
        -- inversion Hk; subst k. rewrite Nat.add_0_r, Hv in Hw. inversion Hw; subst w.
           unfold get, getkey. rewrite (F5 key Hnot). simpl.
           rewrite lookup_insert_eq. reflexivity.
        -- apply (R3 j k w Hk). rewrite <- Hw. f_equal. lia.
      * intros [|j] k Hk Hw; simpl in Hk.
        -- rewrite Nat.add_0_r, Hv in Hw. discriminate.
        -- rewrite (R4 j k Hk); [|rewrite <- Hw; f_equal; lia].
           simpl. apply lookup_insert_ne. intros ->. apply Hnot.
           apply list_elem_of_lookup. eauto.
    + apply lookup_ge_None in Hv.
      split; [intros; lia|]. split; [reflexivity|].
      split; [|reflexivity].
      intros j k w _ Hw. apply lookup_lt_Some in Hw. lia.
Qed.



(** X7 (classes.py, [fitparameters.setfit]): on a built registry [setfit]
    succeeds exactly when the vector has at least as many items as there
    are free parameters; items beyond that are ignored, and a shorter
    vector gives [IndexError]. *)
Theorem setfit_succeeds_iff_long_enough (self : fitparameters) (mclist : list R) :
  built self ->
  fst (setfit mclist self) =
    (if bool_decide (length (keysfit self) <= length mclist)%nat
     then Ok tt else Raise IndexError).
Proof.
  intros Hb. unfold setfit.
  destruct (built_invariant self Hb) as (H1 & _ & H3 & _).
  assert (Hreg : forall k, k ∈ keysfit self -> is_Some (fitpars self !! k)).
  { intros k Hk. apply H3, H1, Hk. }
  clear -Hreg. revert Hreg. generalize (keysfit self) as keys. intros keys Hreg.
  assert (G : forall keys i self,
    (forall k, k ∈ keys -> is_Some (fitpars self !! k)) ->
    (i <= length mclist)%nat ->
    fst (setfit_loop i keys mclist self) =
      (if bool_decide (i + length keys <= length mclist)%nat
       then Ok tt else Raise IndexError)).
  { clear. induction keys as [|key keys IH]; intros i self Hreg Hi; simpl.
    - rewrite bool_decide_true by lia. reflexivity.
    - destruct (mclist !! i) as [v|] eqn:Hv; simpl.
      + destruct (Hreg key) as [fp Hfp]; [left|]. rewrite Hfp.
        apply lookup_lt_Some in Hv. rewrite IH.
        * repeat case_bool_decide; try reflexivity; lia.
        * intros k Hk. simpl. destruct (decide (key = k)) as [->|Hne].
          -- rewrite lookup_insert_eq. eauto.
          -- rewrite lookup_insert_ne by exact Hne. apply Hreg. right. exact Hk.
        * lia.
      + apply lookup_ge_None in Hv. rewrite bool_decide_false by lia. reflexivity. }
  apply (G keys 0%nat self Hreg). lia.
Qed.

Lemma setfit_succeeds_iff_long_enough_witness :
  fst (setfit [3; 4; 5] Examples.reg_ab) = Ok tt.
Proof. apply (setfit_succeeds_iff_long_enough Examples.reg_ab [3; 4; 5] reg_ab_built). Defined.

Lemma getmc_after_setfit self parlist self' key :
  built self -> NoDup (keysall self) ->
  setfit parlist self = (Ok tt, self') ->
  (length (keysfit self) <= length parlist)%nat ->
  key ∈ keysall self ->
  getmc key parlist self = get key false self'.
Proof.
  intros Hb Hnd Hrun Hlen Hin.
  destruct (built_invariant self Hb) as (H1 & _ & H3 & _).
  destruct (built_nodup_invariant self Hb Hnd) as (N1 & N2 & N3).
  assert (Hreg : forall k, k ∈ keysfit self -> is_Some (fitpars self !! k)).
  { intros k Hk. apply H3, H1, Hk. }
  unfold setfit in Hrun.
  destruct (setfit_loop_partial (keysfit self) 0 parlist self N1 Hreg) as (_ & _ & R3 & _).
  destruct (setfit_loop_frame (keysfit self) 0 parlist self) as (_ & _ & _ & _ & F5).
  rewrite Hrun in R3, F5. simpl in R3, F5.
  destruct (proj1 (H3 key) Hin) as [fp Hfp].
  unfold getmc, getkey. rewrite Hfp. simpl.
  destruct (fp_fixed fp) eqn:Hfix.
  - assert (Hnk : key ∉ keysfit self).
    { intros Hk. apply (N2 key fp Hfp) in Hk. congruence. }
    unfold get, getkey. rewrite (F5 key Hnk), Hfp. simpl.
    rewrite (N3 key fp Hfp Hfix). reflexivity.
  - destruct (index_spec key (keysfit self)) as (j & Hj & Hl); [apply (N2 key fp Hfp), Hfix|].
    rewrite Hj. simpl. unfold getitem.
    destruct (parlist !! j) as [v|] eqn:Hv.
    + symmetry. apply (R3 j key v Hl Hv).
    + apply lookup_ge_None in Hv. apply lookup_lt_Some in Hl. lia.
Qed.

Lemma get2d_fromlist_setfit_run self parlist :
  built self -> NoDup (keysall self) ->
  (length (keysfit self) <= length parlist)%nat ->
  exists self', setfit parlist self = (Ok tt, self').
Proof.
  intros Hb Hnd Hlen.
  destruct (built_invariant self Hb) as (H1 & _ & H3 & _).
  destruct (built_nodup_invariant self Hb Hnd) as (N1 & _ & _).
  destruct (setfit_loop_get (keysfit self) 0 parlist self N1) as (self' & Hrun & _).
  { intros k Hk. apply H3, H1, Hk. }
  { simpl. exact Hlen. }
  exists self'. exact Hrun.
Qed.

(** X8 (classes.py, [fitparameters.getmc], [get2d_fromlist], [setfit],
    [get], [get2d]): when no key was registered twice and the vector
    holds a value for every free parameter, reading a parameter from the
    vector with [getmc] gives what [get] returns once [setfit] has stored
    the vector, and [get2d_fromlist] gives what [get2d] returns then. *)
Theorem get2d_fromlist_agrees_with_setfit (self : fitparameters) (parlist : list R) :
  built self ->
  NoDup (keysall self) ->
  (length (keysfit self) <= length parlist)%nat ->
  exists self', setfit parlist self = (Ok tt, self') /\
    (forall key, key ∈ keysall self ->
       getmc key parlist self = get key false self') /\
    get2d_fromlist parlist self = get2d false self'.
Proof.
  intros Hb Hnd Hlen.
  destruct (built_invariant self Hb) as (H1 & H2 & H3 & _).
  destruct (built_nodup_invariant self Hb Hnd) as (N1 & _ & _).
  destruct (setfit_loop_get (keysfit self) 0 parlist self N1) as (self' & Hrun & _).
  { intros k Hk. apply H3, H1, Hk. }
  { simpl. exact Hlen. }
  exists self'. split; [exact Hrun|]. split.
  - intros key Hin. apply getmc_after_setfit; assumption.
  - unfold get2d_fromlist, get2d.
    destruct (setfit_loop_frame (keysfit self) 0 parlist self) as (_ & _ & F3 & _).
    rewrite Hrun in F3. simpl in F3. rewrite F3.
    apply mapM_result_ext. intros key Hin.
    apply getmc_after_setfit; try assumption. apply H2, Hin.
Qed.

Lemma get2d_fromlist_agrees_with_setfit_witness :
  exists self', setfit [7; 8] MoreExamples.reg_acb = (Ok tt, self') /\
    (forall key, key ∈ keysall MoreExamples.reg_acb ->
       getmc key [7; 8] MoreExamples.reg_acb = get key false self') /\
    get2d_fromlist [7; 8] MoreExamples.reg_acb = get2d false self'.
Proof.
  apply (get2d_fromlist_agrees_with_setfit MoreExamples.reg_acb [7; 8]
           reg_acb_built reg_acb_nodup).
  simpl. lia.
Defined.

(** X9 (classes.py, [fitparameters.add], [getmc], [setfit], [get]): the
    agreement of X8 needs the keys to be distinct.  When a free key is
    registered again as a fixed parameter it stays in the list of free
    keys: [setfit] still stores the item of the vector at its position as
    the fitted value, which [get] returns, while [getmc] returns the new
    initial value.  So the two reads disagree whenever that item of the
    vector is not the new initial value. *)
Theorem getmc_differs_after_second_add (self : fitparameters) (key : string)
    (value : R) (mn mx : bound) (dx : option R) (is2D : bool) (parlist : list R) :
  built self ->
  NoDup (keysall self) ->
  key ∈ keysfit self ->
  (length (keysfit self) <= length parlist)%nat ->
  let self1 := snd (add key value true mn mx dx is2D self) in
  exists j w self2,
    keysfit self1 !! j = Some key /\ parlist !! j = Some w /\
    setfit parlist self1 = (Ok tt, self2) /\
    getmc key parlist self1 = Ok value /\ get key false self2 = Ok w /\
    (w <> value -> getmc key parlist self1 <> get key false self2).
Proof.
  intros Hb Hnd Hin Hlen self1.
  destruct (built_invariant self Hb) as (H1 & _ & H3 & _).
  destruct (built_nodup_invariant self Hb Hnd) as (N1 & _ & _).
  assert (Hkeys : keysfit self1 = keysfit self) by reflexivity.
  assert (Hreg : forall k, k ∈ keysfit self1 -> is_Some (fitpars self1 !! k)).
  { intros k Hk. simpl. destruct (decide (key = k)) as [->|Hne].
    - rewrite lookup_insert_eq. eauto.
    - rewrite lookup_insert_ne by exact Hne. apply H3, H1, Hk. }
  apply list_elem_of_lookup in Hin as [j Hj].
  destruct (parlist !! j) as [w|] eqn:Hw;
    [|apply lookup_ge_None in Hw; apply lookup_lt_Some in Hj; lia].
  destruct (setfit_loop_get (keysfit self1) 0 parlist self1) as (self2 & Hrun & Hget);
    [rewrite Hkeys; exact N1|exact Hreg|rewrite Hkeys; simpl; exact Hlen|].
  assert (Hmc : getmc key parlist self1 = Ok value).
  { unfold getmc, getkey. simpl. rewrite lookup_insert_eq. reflexivity. }
  assert (Hg : get key false self2 = Ok w).
  { destruct (Hget j key Hj) as (w' & Hw' & Hg). simpl in Hw'. congruence. }
  exists j, w, self2. split; [exact Hj|]. split; [exact Hw|]. split; [exact Hrun|].
  split; [exact Hmc|]. split; [exact Hg|].
  intros Hne. rewrite Hmc, Hg. intros E. apply Hne. inversion E. reflexivity.
Qed.

Lemma getmc_differs_after_second_add_witness :
  exists j w self2,
    keysfit (snd (add "a" 9 true NegInf PosInf None false Examples.reg_ab)) !! j
      = Some "a" /\
    [7; 8] !! j = Some w /\
    setfit [7; 8] (snd (add "a" 9 true NegInf PosInf None false Examples.reg_ab))
      = (Ok tt, self2) /\
    getmc "a" [7; 8] (snd (add "a" 9 true NegInf PosInf None false Examples.reg_ab))
      = Ok 9 /\
    get "a" false self2 = Ok w /\
    getmc "a" [7; 8] (snd (add "a" 9 true NegInf PosInf None false Examples.reg_ab))
      <> get "a" false self2.
Proof.
  destruct (getmc_differs_after_second_add Examples.reg_ab "a" 9 NegInf PosInf None
              false [7; 8] reg_ab_built)
    as (j & w & self2 & Hj & Hw & Hrun & Hmc & Hg & Hne).
  - apply (bool_decide_unpack _). vm_compute. exact I.
  - apply (bool_decide_unpack _). vm_compute. exact I.
  - simpl. lia.
  - exists j, w, self2. do 5 (split; [assumption|]). apply Hne.
    destruct j as [|[|j]]; simpl in Hw; [| |discriminate Hw];
      inversion Hw; subst w; lra.
Defined.

(** X10 (classes.py, [fitparameters.add] with [is2D=True], [get2d]): the
    arguments of the 2D function come in the order of registration:
    adding a 2D parameter under a key that is not a 2D key yet appends its
    value to what [get2d] returned before, for either value of [Init]. *)
Theorem add_2d_appends_to_get2d (self : fitparameters) (key : string) (value : R)
    (fixed : bool) (mn mx : bound) (dx : option R) (Init : bool) (l : list R) :
  key ∉ keys2d self ->
  get2d Init self = Ok l ->
  get2d Init (snd (add key value fixed mn mx dx true self)) = Ok (l ++ [value]).
Proof.
  intros Hnot Hl. unfold get2d. simpl.
  apply mapM_result_app.
  - rewrite <- Hl. unfold get2d. apply mapM_result_ext. intros k Hk.
    unfold get, getkey. simpl. rewrite lookup_insert_ne; [reflexivity|].
    intros ->. exact (Hnot Hk).
  - rewrite mapM_result_cons. unfold get, getkey. simpl. rewrite lookup_insert_eq.
    unfold new_fitpar. destruct fixed; reflexivity.
Qed.

Lemma add_2d_appends_to_get2d_witness :
  get2d false (snd (add "d" 4 true NegInf PosInf None true MoreExamples.reg_acb))
    = Ok ([1; 3] ++ [4]).
Proof.
  apply add_2d_appends_to_get2d.
  - apply (bool_decide_unpack _). vm_compute. exact I.
  - reflexivity.
Defined.

End RegistryProps.

(** ** The methods of [epos]: frames, guards and edge cases *)

Module EposProps.
Import Epos EposFacts Frames.

(** For a positive base [**] is the real power. *)
Lemma power_pos_base (a b : R) : 0 < a -> Np.power a b = Rpower a b.
Proof. intros H. unfold Np.power. rewrite (ltb_R_true 0 a) by exact H. reflexivity. Qed.

Lemma power_pos (a b : R) : 0 < a -> 0 < Np.power a b.
Proof. intros H. rewrite power_pos_base by exact H. unfold Rpower. apply exp_pos. Qed.

(** A zero base under a positive exponent gives zero. *)
Lemma power_zero_base (b : R) : 0 < b -> Np.power 0 b = 0.
Proof.
  intros H. unfold Np.power. rewrite (ltb_R_false 0 0) by lra.
  destruct (eqb_R b (IZR (Int_part b))) eqn:E; [|reflexivity].
  unfold eqb_R in E. destruct (Req_dec_T b (IZR (Int_part b))) as [Hb|]; [|discriminate].
  assert (Hz : (0 < Int_part b)%Z) by (apply lt_IZR; lra).
  destruct (Int_part b) as [|p|p]; try lia.
  simpl. apply pow_i. lia.
Qed.

Section preserves.
Context {A B : Type} (a : attr).

Lemma preserves_bind (c : stateM epos A) (f : A -> stateM epos B) :
  preserves a c -> (forall x, preserves a (f x)) -> preserves a (c ≫= f).
Proof.
  intros Hc Hf s. unfold mbind, stateM_bind. specialize (Hc s).
  destruct (c s) as [[x|e] s1]; simpl in *; [rewrite Hf|]; exact Hc.
Qed.

Lemma preserves_store (b : attr) (v : attr_type b) : b <> a -> preserves a (store b v).
Proof. intros Hne s. apply setattr_ne, Hne. Qed.

Lemma preserves_load (b : attr) : preserves a (load b).
Proof. intros s. reflexivity. Qed.

Lemma preserves_reading (g : epos -> result A) : preserves a (reading g).
Proof. intros s. reflexivity. Qed.

Lemma preserves_gets (g : epos -> A) : preserves a (gets g).
Proof. intros s. reflexivity. Qed.

Lemma preserves_raise (e : exn) : preserves a (raise e : stateM epos A).
Proof. intros s. reflexivity. Qed.

Lemma preserves_ret (x : A) : preserves a (mret x : stateM epos A).
Proof. intros s. reflexivity. Qed.
End preserves.

(** Split [a ∉ [b1; ...; bn]] into the inequalities it stands for. *)
Ltac split_not_elem H :=
  repeat (apply not_elem_of_cons in H; let H1 := fresh "Hne" in destruct H as [H1 H]).

Ltac frame :=
  cbv beta zeta;
  lazymatch goal with
  | |- preserves _ (_ ≫= _) => apply preserves_bind; [frame | intros ?; frame]
  | |- preserves ?a (store ?b ?v) => apply (preserves_store a b v); congruence
  | |- preserves ?a (load ?b) => apply (preserves_load a b)
  | |- preserves _ (reading _) => apply preserves_reading
  | |- preserves _ (gets _) => apply preserves_gets
  | |- preserves _ (raise _) => apply preserves_raise
  | |- preserves _ (mret _) => apply preserves_ret
  | |- preserves _ (pfm_set _ _) => unfold pfm_set; frame
  | |- preserves _ (pfm_get _) => unfold pfm_get; frame
  | |- preserves _ (pfm_reorder _ _ _) => unfold pfm_reorder; frame
  | |- preserves _ (if ?b then _ else _) => destruct b; frame
  | |- preserves _ (match ?x with _ => _ end) => destruct x; frame
  | |- _ => idtac
  end.

Lemma frame_set_observation a xvar yvar starID n :
  a ∉ writes_set_observation -> preserves a (set_observation xvar yvar starID n).
Proof. intros H. unfold writes_set_observation in H. split_not_elem H. unfold set_observation. frame. Qed.

Lemma frame_set_survey a u xvar yvar eff2D rstar mstar :
  a ∉ writes_set_survey -> preserves a (set_survey u xvar yvar eff2D rstar mstar).
Proof. intros H. unfold writes_set_survey in H. split_not_elem H. unfold set_survey. frame. Qed.

Lemma frame_set_parametric a f :
  a ∉ writes_set_parametric -> preserves a (set_parametric f).
Proof. intros H. unfold writes_set_parametric in H. split_not_elem H. unfold set_parametric. frame. Qed.

Lemma frame_set_population a name sma mass inc starID tag :
  a ∉ writes_set_population -> preserves a (set_population name sma mass inc starID tag).
Proof. intros H. unfold writes_set_population in H. split_not_elem H. unfold set_population. frame. Qed.

Lemma frame_occurrence_default a :
  a <> occurrence ->
  preserves a (fun self : epos =>
    match self occurrence with
    | Some d => (Ok d, self)
    | None => (Ok {| occ_xzoom := None; occ_yzoom := None; occ_bin := None |}, self)
    end).
Proof. intros Hne s. destruct (s occurrence); reflexivity. Qed.

Lemma frame_set_ranges a xtrim_ ytrim_ xzoom_ yzoom_ LogArea Occ :
  a ∉ writes_set_ranges ->
  preserves a (set_ranges xtrim_ ytrim_ xzoom_ yzoom_ LogArea Occ).
Proof.
  intros H. unfold writes_set_ranges in H. split_not_elem H. unfold set_ranges. frame.
  all: apply frame_occurrence_default; congruence.
Qed.

Lemma frame_set_bins a xbins ybins xgrid ygrid Grid :
  a <> occurrence -> preserves a (set_bins xbins ybins xgrid ygrid Grid).
Proof.
  intros H. unfold set_bins. frame.
  intros s. destruct (s occurrence); simpl; [reflexivity|].
  apply setattr_ne. congruence.
Qed.

(** X11 (classes.py, [epos.set_observation], [set_survey], [set_ranges],
    [set_bins], [set_parametric], [set_population]): of the attributes of
    the object that [attr] lists, each method changes none outside its
    own list of assigned attributes, also when it raises.  In particular
    no method but [set_parametric] changes [PDF] or [func], only
    [set_parametric] and [set_population] replace the registry [fitpars],
    and of these attributes [set_bins] changes none but [occurrence].
    Nothing is said of the attributes that [attr] leaves out: [xticks],
    [yticks] and [plotpars] of [set_ranges], [pdfpars] of
    [set_parametric], [modelpars] of [set_population] and the class
    attribute [multi] of [set_observation]. *)
Theorem methods_leave_other_listed_attributes (a : attr) :
  (a ∉ writes_set_observation ->
     forall xvar yvar starID n, preserves a (set_observation xvar yvar starID n)) /\
  (a ∉ writes_set_survey ->
     forall u xvar yvar eff2D rstar mstar,
       preserves a (set_survey u xvar yvar eff2D rstar mstar)) /\
  (a ∉ writes_set_ranges ->
     forall xtrim_ ytrim_ xzoom_ yzoom_ LogArea Occ,
       preserves a (set_ranges xtrim_ ytrim_ xzoom_ yzoom_ LogArea Occ)) /\
  (a <> occurrence ->
     forall xbins ybins xgrid ygrid Grid,
       preserves a (set_bins xbins ybins xgrid ygrid Grid)) /\
  (a ∉ writes_set_parametric -> forall f, preserves a (set_parametric f)) /\
  (a ∉ writes_set_population ->
     forall name sma mass inc starID tag,
       preserves a (set_population name sma mass inc starID tag)).
Proof.
  split; [intros; apply frame_set_observation; assumption|].
  split; [intros; apply frame_set_survey; assumption|].
  split; [intros; apply frame_set_ranges; assumption|].
  split; [intros; apply frame_set_bins; assumption|].
  split; [intros; apply frame_set_parametric; assumption|].
  intros; apply frame_set_population; assumption.
Qed.

Lemma methods_leave_other_listed_attributes_witness :
  preserves fitpars (set_ranges None None None None false false) /\
  preserves PDF (set_population "model" [1] [1] None None None).
Proof.
  split.
  - apply (methods_leave_other_listed_attributes fitpars).
    apply (bool_decide_unpack _). vm_compute. exact I.
  - apply (methods_leave_other_listed_attributes PDF).
    apply (bool_decide_unpack _). vm_compute. exact I.
Defined.

(** What [set_ranges] has found on the object when it returns. *)
Lemma set_ranges_Ok_guards xtrim_ ytrim_ xzoom_ yzoom_ LogArea Occ self self' :
  set_ranges xtrim_ ytrim_ xzoom_ yzoom_ LogArea Occ self = (Ok tt, self') ->
  self Range = Some false /\ self Observation = Some true /\
  self DetectionEfficiency = Some true /\ (exists b, self PDF = Some b) /\
  self' Range = Some true.
Proof.
  unfold set_ranges. intros H. run_inv H.
  all: repeat match goal with
       | B : negb ?b = false |- _ => apply negb_false_iff in B; subst b
       end.
  all: repeat match goal with |- _ /\ _ => split end.
  all: try (attr_simpl; first [eassumption | reflexivity]).
  all: eexists; eassumption.
Qed.

(** X12 (classes.py, [epos.set_ranges]): the ranges are set once.  After
    a call that returned, every further call raises [ValueError],
    whatever its arguments, and changes nothing. *)
Theorem set_ranges_refuses_second_call
    (xtrim_ ytrim_ xzoom_ yzoom_ : option (R * R)) (LogArea Occ : bool)
    (self self' : epos) :
  set_ranges xtrim_ ytrim_ xzoom_ yzoom_ LogArea Occ self = (Ok tt, self') ->
  forall xtrim2 ytrim2 xzoom2 yzoom2 LogArea2 Occ2,
    set_ranges xtrim2 ytrim2 xzoom2 yzoom2 LogArea2 Occ2 self' =
      (Raise ValueError, self').
Proof.
  intros H. apply set_ranges_Ok_guards in H. destruct H as (_ & _ & _ & _ & Hr).
  intros. unfold set_ranges.
  rewrite (bind_Ok_intro _ _ _ _ _ (load_run Range self' true Hr)). reflexivity.
Qed.

Lemma set_ranges_refuses_second_call_witness :
  set_ranges (Some (1, 5)) None None None true true (Examples.configured false) =
    (Raise ValueError, Examples.configured false).
Proof.
  apply (set_ranges_refuses_second_call None None None None false false Examples.surveyed).
  apply configured_run.
Defined.

(** X13 (classes.py, [epos.set_ranges], [set_parametric],
    [set_population], [set_observation], [set_survey]): [set_ranges]
    reads [self.PDF], which only [set_parametric] assigns.  On an object
    without that attribute, as [__init__] leaves it, [set_ranges] never
    returns normally, and that stays so after [set_observation],
    [set_survey] and [set_population]: a model population alone does not
    make the object fit for [set_ranges]. *)
Theorem set_ranges_needs_set_parametric (self : epos)
    (xvar yvar : list R) (starID : list Z) (n : R)
    (u : cgs_units) (gx gy : list R) (eff2D : grid) (rstar mstar : R)
    (name : string) (sma mass : list R) (inc : option (list R))
    (ids : option (list Z)) (tag : option (list R))
    (xtrim_ ytrim_ xzoom_ yzoom_ : option (R * R)) (LogArea Occ : bool) :
  self PDF = None ->
  let s1 := snd (set_observation xvar yvar starID n self) in
  let s2 := snd (set_survey u gx gy eff2D rstar mstar s1) in
  let s3 := snd (set_population name sma mass inc ids tag s2) in
  fst (set_ranges xtrim_ ytrim_ xzoom_ yzoom_ LogArea Occ self) <> Ok tt /\
  fst (set_ranges xtrim_ ytrim_ xzoom_ yzoom_ LogArea Occ s3) <> Ok tt.
Proof.
  intros Hpdf s1 s2 s3.
  assert (Hno : forall s : epos, s PDF = None ->
            fst (set_ranges xtrim_ ytrim_ xzoom_ yzoom_ LogArea Occ s) <> Ok tt).
  { intros s Hs Hrun.
    destruct (set_ranges xtrim_ ytrim_ xzoom_ yzoom_ LogArea Occ s) as [r s'] eqn:E.
    simpl in Hrun. subst r. apply set_ranges_Ok_guards in E.
    destruct E as (_ & _ & _ & [b Hb] & _). congruence. }
  split; [apply Hno, Hpdf|]. apply Hno. unfold s3, s2, s1.
  rewrite frame_set_population, frame_set_survey, frame_set_observation;
    [exact Hpdf|..]; apply (bool_decide_unpack _); vm_compute; exact I.
Qed.

Lemma set_ranges_needs_set_parametric_witness :
  fst (set_ranges None None None None false false
         (snd (set_population "model" [1; 2] [1; 2] None None None
           (snd (set_survey {| cgs_G := 1; cgs_Msun := 1; cgs_Rsun := 1; cgs_day := 1 |}
                  [1; 10] [1; 10] [[1; 1]; [1; 1]] 1 1
             (snd (set_observation [1; 2] [1; 2] [1; 2]%Z 100 (init false))))))))
    <> Ok tt.
Proof.
  apply (set_ranges_needs_set_parametric (init false)). reflexivity.
Defined.

Lemma slice_full {A} (l : list A) : Np.slice 0 (Z.of_nat (length l)) l = l.
Proof.
  change 0%Z with (Z.of_nat 0).
  rewrite (NpFacts.slice_nat l 0 (length l)) by lia.
  rewrite Nat.sub_0_r, drop_0. apply firstn_all.
Qed.

Lemma slice2_full (g : grid) (ny : nat) :
  Forall (fun r => length r = ny) g ->
  Np.slice2 0 (Z.of_nat (length g)) 0 (Z.of_nat ny) g = g.
Proof.
  intros H. unfold Np.slice2. rewrite slice_full.
  induction H as [|r g Hr _ IH]; [reflexivity|].
  rewrite map_cons, IH. f_equal. rewrite <- Hr. apply slice_full.
Qed.

(** On a strictly ascending axis with at least two samples the extent of
    the axis trims nothing. *)
Lemma trimarray_full (ax : list R) (lo hi : R) :
  StronglySorted Rlt ax -> (2 <= length ax)%nat ->
  Np.min ax = Ok lo -> Np.max ax = Ok hi ->
  _trimarray ax (lo, hi) = Ok (0%Z, Z.of_nat (length ax)).
Proof.
  intros Hs Hlen Hmin Hmax.
  destruct ax as [|x0 [|x1 rest]]; [simpl in Hlen; lia..|].
  rewrite NpFacts.min_sorted in Hmin by exact Hs. inversion Hmin; subst lo.
  rewrite NpFacts.max_sorted in Hmax by exact Hs. inversion Hmax as [Hhi].
  set (ax := x0 :: x1 :: rest) in *. set (n := length ax).
  assert (Hn : n = S (S (length rest))) by reflexivity.
  assert (Hlast : ax !! (n - 1)%nat = Some hi).
  { rewrite <- Hhi. replace (n - 1)%nat with (length (x1 :: rest)) by (simpl; lia).
    apply NpFacts.lookup_last_cons. }
  destruct (ax !! (n - 2)%nat) as [a2|] eqn:Ha2;
    [|apply lookup_ge_None in Ha2; fold n in Ha2; lia].
  assert (Hx01 : x0 < x1).
  { apply (NpFacts.sorted_lookup_lt ax 0 1 x0 x1 Hs); [reflexivity..|lia]. }
  assert (Ha2hi : a2 < hi).
  { apply (NpFacts.sorted_lookup_lt ax (n - 2) (n - 1) a2 hi Hs); [assumption..|lia]. }
  unfold _trimarray. rewrite (NpFacts.item_nonneg ax 1) by lia.
  change (getitem ax (Z.to_nat 1)) with (Ok x1 : result R).
  rewrite (NpFacts.item_neg ax (-2)) by (fold n; lia).
  unfold getitem. fold n. replace (Z.to_nat (-2 + Z.of_nat n)) with (n - 2)%nat by lia.
  rewrite Ha2. unfold mbind, result_bind. cbn [fst snd].
  rewrite Hhi, (ltb_R_true x0 x1), (ltb_R_true a2 hi) by assumption. reflexivity.
Qed.

Lemma log_scale_nonempty (area : R -> R) (a : list R) :
  a <> [] -> exists s, log_scale area a = Ok s.
Proof.
  intros Ha. destruct a as [|x a]; [contradiction|].
  unfold log_scale. rewrite (NpFacts.item_neg (x :: a) (-1)) by (simpl; lia).
  unfold getitem.
  destruct ((x :: a) !! Z.to_nat (-1 + Z.of_nat (length (x :: a)))) as [hi|] eqn:E.
  - simpl. eexists. reflexivity.
  - apply lookup_ge_None in E. simpl in E. lia.
Qed.

(** What a call of [set_survey] that returns has checked and stored. *)
Lemma set_survey_Ok_shape u xvar yvar eff2D rstar mstar self self' :
  set_survey u xvar yvar eff2D rstar mstar self = (Ok tt, self') ->
  self' eff_2D = Some eff2D /\ length eff2D = length xvar /\
  Forall (fun r => length r = length yvar) eff2D /\
  (exists rv, self RV = Some rv /\
     (rv = true -> self' completeness = Some eff2D)).
Proof.
  unfold set_survey. intros H. run_inv H.
  all: destruct eff2D as [|r g]; [discriminate H|].
  all: destruct (negb (forallb _ _)) eqn:Hrect; [discriminate H|].
  all: destruct (negb (_ && _)) eqn:Hshape; [discriminate H|].
  all: apply negb_false_iff in Hrect, Hshape.
  all: apply andb_true_iff in Hshape as [Hnx Hny].
  all: apply Nat.eqb_eq in Hnx, Hny.
  all: run_inv H.
  all: split; [attr_simpl; reflexivity|].
  all: split; [exact Hnx|].
  all: (split; [apply Forall_forall; intros r' Hr';
         rewrite forallb_forall in Hrect;
         rewrite <- Hny; apply Nat.eqb_eq, Hrect, list_elem_of_In, Hr'|]).
  all: eexists; split; [eassumption|]; intros Hrv; try discriminate.
  all: attr_simpl; reflexivity.
Qed.


(** Running a method forwards on an object known by its attributes. *)
Ltac sym_prim :=
  lazymatch goal with
  | |- load ?a _ = _ => apply (load_run a); attr_simpl; first [reflexivity | eassumption]
  | |- store _ _ _ = _ => reflexivity
  | |- reading _ _ = _ => apply reading_run; cbv beta; eassumption
  | |- mret _ _ = _ => reflexivity
  | |- _ => sym_steps; reflexivity
  end
with sym_step :=
  cbv beta iota zeta;
  lazymatch goal with
  | |- (_ ≫= _) _ = _ => erewrite bind_Ok_intro; [ | sym_prim ]
  | |- (if ?b then ?x else ?y) ?s = ?r =>
      first [ lazymatch goal with H : b = _ |- _ => rewrite H end
            | let b' := eval lazy in b in
              lazymatch b' with
              | true => change (x s = r)
              | false => change (y s = r)
              end ]
  end
with sym_steps := repeat sym_step.

(** X14 (classes.py, [epos.set_survey], [set_ranges], [_trimarray]):
    after [set_survey] has returned for two strictly ascending axes of at
    least two samples each, on an object that holds an observation and a
    parametric function and no ranges yet, [set_ranges()] with its default
    arguments returns: it trims nothing, so the working grid is the whole
    survey grid, trim and zoom are the extent of the axes, and [Zoom] is
    off. *)
Theorem set_ranges_default_takes_whole_grid (s0 self : epos) (u : cgs_units)
    (gx gy : list R) (e2 : grid) (rstar mstar : R) (LogArea : bool) :
  s0 Range = Some false -> s0 Observation = Some true ->
  s0 PDF = Some true -> s0 MassRadius = Some false ->
  set_survey u gx gy e2 rstar mstar s0 = (Ok tt, self) ->
  StronglySorted Rlt gx -> StronglySorted Rlt gy ->
  (2 <= length gx)%nat -> (2 <= length gy)%nat ->
  exists self' xlim ylim,
    set_ranges None None None None LogArea false self = (Ok tt, self') /\
    Np.min gx = Ok (fst xlim) /\ Np.max gx = Ok (snd xlim) /\
    Np.min gy = Ok (fst ylim) /\ Np.max gy = Ok (snd ylim) /\
    self' xtrim = Some xlim /\ self' ytrim = Some ylim /\
    self' xzoom = Some xlim /\ self' yzoom = Some ylim /\
    self' Zoom = Some false /\
    self' MC_xvar = Some gx /\ self' MC_yvar = Some gy /\ self' MC_eff = Some e2 /\
    self' in_yvar = Some gy /\ self' Range = Some true.
Proof.
  intros Hrange Hobs Hpdf Hmr Hrun Hsx Hsy Hnx Hny.
  assert (Hself : self = snd (set_survey u gx gy e2 rstar mstar s0)) by (rewrite Hrun; reflexivity).
  assert (Hfr : forall a, a ∉ writes_set_survey -> self a = s0 a).
  { intros a Ha. rewrite Hself. apply frame_set_survey, Ha. }
  rewrite <- (Hfr Range) in Hrange by (apply (bool_decide_unpack _); vm_compute; exact I).
  rewrite <- (Hfr Observation) in Hobs by (apply (bool_decide_unpack _); vm_compute; exact I).
  rewrite <- (Hfr PDF) in Hpdf by (apply (bool_decide_unpack _); vm_compute; exact I).
  rewrite <- (Hfr MassRadius) in Hmr by (apply (bool_decide_unpack _); vm_compute; exact I).
  clear Hfr Hself.
  destruct (set_survey_extent _ _ _ _ _ _ _ _ Hrun)
    as ([xlo xhi] & [ylo yhi] & Hex & Hey & Hxl & Hyl & Hxmin & Hxmax & Hymin & Hymax & Hde).
  destruct (set_survey_Ok_shape _ _ _ _ _ _ _ _ Hrun) as (He2 & Hlen & Hrows & _).
  simpl in Hxmin, Hxmax, Hymin, Hymax.
  pose proof (trimarray_full gx xlo xhi Hsx Hnx Hxmin Hxmax) as Htx.
  pose proof (trimarray_full gy ylo yhi Hsy Hny Hymin Hymax) as Hty.
  set (area := if LogArea then Np.log10 else Np.log).
  destruct (log_scale_nonempty area gx) as [sx Hlx]; [intros ->; simpl in Hnx; lia|].
  destruct (log_scale_nonempty area gy) as [sy Hly]; [intros ->; simpl in Hny; lia|].
  eexists _, (xlo, xhi), (ylo, yhi). split.
  - unfold set_ranges. do 24 sym_step.
    rewrite !slice_full. rewrite <- Hlen, (slice2_full e2 (length gy) Hrows).
    fold area.
    sym_steps. reflexivity.
  - simpl. repeat match goal with |- _ /\ _ => split end;
      try assumption; attr_simpl; reflexivity.
Qed.

Lemma observed_rv_survey_run :
  exists self,
    set_survey MoreExamples.unit_cgs [1; 10; 100] [1; 10] [[1; 1]; [1; 1]; [1; 1]] 1 1
      MoreExamples.observed_rv = (Ok tt, self).
Proof.
  eexists. unfold set_survey, MoreExamples.observed_rv, init.
  run_fwd. reflexivity.
Qed.

Lemma sorted_1_10_100 : StronglySorted Rlt [1; 10; 100].
Proof. repeat constructor; lra. Qed.

Lemma sorted_1_10 : StronglySorted Rlt [1; 10].
Proof. repeat constructor; lra. Qed.

Lemma set_ranges_default_takes_whole_grid_witness :
  exists self self',
    set_survey MoreExamples.unit_cgs [1; 10; 100] [1; 10] [[1; 1]; [1; 1]; [1; 1]] 1 1
      MoreExamples.observed_rv = (Ok tt, self) /\
    set_ranges None None None None false false self = (Ok tt, self') /\
    self' MC_xvar = Some [1; 10; 100] /\ self' MC_eff = Some [[1; 1]; [1; 1]; [1; 1]].
Proof.
  destruct observed_rv_survey_run as [self Hrun].
  destruct (set_ranges_default_takes_whole_grid MoreExamples.observed_rv self
              MoreExamples.unit_cgs [1; 10; 100] [1; 10] [[1; 1]; [1; 1]; [1; 1]] 1 1 false
              eq_refl eq_refl eq_refl eq_refl Hrun sorted_1_10_100 sorted_1_10)
    as (self' & xlim & ylim & H & _ & _ & _ & _ & _ & _ & _ & _ & _ & Hx & _ & He & _).
  - simpl. lia.
  - simpl. lia.
  - exists self, self'. repeat split; assumption.
Defined.

Lemma min_nonempty (l : list R) : l <> [] -> exists m, Np.min l = Ok m.
Proof. destruct l; [contradiction|]. intros _. eexists. reflexivity. Qed.

Lemma max_nonempty (l : list R) : l <> [] -> exists m, Np.max l = Ok m.
Proof. destruct l; [contradiction|]. intros _. eexists. reflexivity. Qed.

Lemma rect_forallb (r : list R) (g : grid) (n : nat) :
  Forall (fun r' => length r' = n) (r :: g) ->
  negb (forallb (fun r' => Nat.eqb (length r') (length r)) (r :: g)) = false.
Proof.
  intros H. apply negb_false_iff, forallb_forall. intros r' Hin.
  apply Nat.eqb_eq. rewrite Forall_forall in H.
  rewrite (H r'), (H r); [reflexivity|left|apply list_elem_of_In, Hin].
Qed.

(** X15 (classes.py, [epos.set_survey]): the shape of the detection
    efficiency is checked after the three arrays have been assigned.  A
    call with a rectangular [eff_2D] of the wrong shape raises
    [ValueError] and leaves the object with the new axes and the new
    matrix, but with the extent, the completeness and the switch
    [DetectionEfficiency] of before. *)
Theorem set_survey_wrong_shape_keeps_new_arrays (u : cgs_units)
    (xvar yvar : list R) (r : list R) (g : grid) (rstar mstar : R) (self : epos) :
  Forall (fun r' => length r' = length r) g ->
  length (r :: g) <> length xvar \/ length r <> length yvar ->
  let run := set_survey u xvar yvar (r :: g) rstar mstar self in
  fst run = Raise ValueError /\
  snd run eff_xvar = Some xvar /\ snd run eff_yvar = Some yvar /\
  snd run eff_2D = Some (r :: g) /\
  snd run eff_xlim = self eff_xlim /\ snd run eff_ylim = self eff_ylim /\
  snd run completeness = self completeness /\
  snd run DetectionEfficiency = self DetectionEfficiency.
Proof.
  intros Hrect Hshape.
  assert (Hr : negb (forallb (fun r' => Nat.eqb (length r') (length r)) (r :: g)) = false).
  { apply (rect_forallb r g (length r)). constructor; [reflexivity|exact Hrect]. }
  assert (Hs : negb (Nat.eqb (length (r :: g)) (length xvar)
                     && Nat.eqb (length r) (length yvar)) = true).
  { apply negb_true_iff, andb_false_iff.
    destruct Hshape as [H|H]; [left|right]; apply Nat.eqb_neq, H. }
  assert (Hrun : set_survey u xvar yvar (r :: g) rstar mstar self =
            (Raise ValueError,
             setattr eff_2D (r :: g) (setattr eff_yvar yvar (setattr eff_xvar xvar self)))).
  { unfold set_survey. do 3 sym_step. cbv beta iota zeta. rewrite Hr, Hs. reflexivity. }
  intros run. unfold run. rewrite Hrun. simpl.
  repeat split; attr_simpl; reflexivity.
Qed.

Lemma set_survey_wrong_shape_keeps_new_arrays_witness :
  fst (set_survey MoreExamples.unit_cgs [1; 10; 100] [1; 10] [[1; 1]; [1; 1]] 1 1
         Examples.surveyed) = Raise ValueError /\
  snd (set_survey MoreExamples.unit_cgs [1; 10; 100] [1; 10] [[1; 1]; [1; 1]] 1 1
         Examples.surveyed) eff_xvar = Some [1; 10; 100] /\
  snd (set_survey MoreExamples.unit_cgs [1; 10; 100] [1; 10] [[1; 1]; [1; 1]] 1 1
         Examples.surveyed) eff_xlim = Some (1, 10) /\
  snd (set_survey MoreExamples.unit_cgs [1; 10; 100] [1; 10] [[1; 1]; [1; 1]] 1 1
         Examples.surveyed) DetectionEfficiency = Some true.
Proof.
  destruct (set_survey_wrong_shape_keeps_new_arrays MoreExamples.unit_cgs
              [1; 10; 100] [1; 10] [1; 1] [[1; 1]] 1 1 Examples.surveyed)
    as (H1 & H2 & _ & _ & H5 & _ & _ & H8).
  - repeat constructor.
  - left. simpl. lia.
  - split; [exact H1|]. split; [exact H2|]. split; [rewrite H5; reflexivity|].
    rewrite H8. reflexivity.
Defined.




Lemma lookup_concat_replicate {A} (a : list A) (n k : nat) :
  (k < n * length a)%nat ->
  concat (replicate n a) !! k = a !! (k mod length a)%nat.
Proof.
  revert k. induction n as [|n IH]; intros k Hk; [simpl in Hk; lia|].
  simpl. destruct (Nat.lt_ge_cases k (length a)) as [Hlt|Hge].
  - rewrite lookup_app_l by exact Hlt. rewrite Nat.mod_small by exact Hlt. reflexivity.
  - rewrite lookup_app_r by exact Hge. rewrite IH by (simpl in Hk; lia).
    f_equal. replace k with ((k - length a) + 1 * length a)%nat at 2 by lia.
    rewrite Nat.Div0.mod_add. reflexivity.
Qed.

Lemma lookup_tile (a : grid) (n k : nat) :
  a <> [] -> (k < n * length a)%nat ->
  Np.tile a n !! k = a !! (k mod length a)%nat.
Proof.
  intros Ha Hk. destruct a as [|r a]; [contradiction|].
  unfold Np.tile. apply lookup_concat_replicate, Hk.
Qed.

(** X17 (classes.py, [epos.set_bins] with [Grid=True]): for [nx] period
    bins and [ny] size bins the call stores [nx * ny] rows, and row [k]
    pairs the period bin [k mod nx] with the size bin [k mod ny]. *)
Theorem set_bins_grid_pairs_by_remainder (xb yb : grid) (self : epos) :
  xb <> [] -> yb <> [] ->
  exists self' x y,
    set_bins (Bins2 xb) (Bins2 yb) None None true self = (Ok tt, self') /\
    stored_bins self' = Some (x, y) /\
    length x = (length xb * length yb)%nat /\
    length y = (length xb * length yb)%nat /\
    forall k, (k < length xb * length yb)%nat ->
      x !! k = xb !! (k mod length xb)%nat /\
      y !! k = yb !! (k mod length yb)%nat.
Proof.
  intros Hx Hy.
  destruct (set_bins_run (Bins2 xb) (Bins2 yb) None None true xb yb self)
    as (self' & Hrun & Hgrid & _); [reflexivity..|].
  exists self', (Np.tile xb (length yb)), (Np.tile yb (length xb)).
  split; [exact Hrun|]. split; [apply Hgrid; reflexivity|].
  rewrite !tile_length by assumption.
  split; [lia|]. split; [lia|].
  intros k Hk. split; apply lookup_tile; try assumption; lia.
Qed.

Lemma set_bins_grid_pairs_by_remainder_witness :
  exists self' x y,
    set_bins (Bins2 [[1; 10]; [10; 100]; [100; 1000]]) (Bins2 [[1; 2]; [2; 4]])
      None None true (init false) = (Ok tt, self') /\
    stored_bins self' = Some (x, y) /\
    length x = 6%nat /\ length y = 6%nat /\
    forall k, (k < 6)%nat ->
      x !! k = [[1; 10]; [10; 100]; [100; 1000]] !! (k mod 3)%nat /\
      y !! k = [[1; 2]; [2; 4]] !! (k mod 2)%nat.
Proof.
  apply (set_bins_grid_pairs_by_remainder
           [[1; 10]; [10; 100]; [100; 1000]] [[1; 2]; [2; 4]] (init false));
    discriminate.
Defined.

Lemma consecutive_lookup (g : list R) : forall i a b,
  g !! i = Some a -> g !! S i = Some b -> Np.consecutive g !! i = Some [a; b].
Proof.
  induction g as [|x g IH]; intros i a b Ha Hb; [discriminate|].
  destruct g as [|y g]; [destruct i; discriminate|].
  destruct i as [|i]; simpl in *.
  - inversion Ha; inversion Hb; reflexivity.
  - apply IH; assumption.
Qed.

Lemma consecutive_length (g : list R) : length (Np.consecutive g) = (length g - 1)%nat.
Proof.
  induction g as [|x g IH]; [reflexivity|].
  destruct g as [|y g]; [reflexivity|].
  change (Np.consecutive (x :: y :: g)) with ([x; y] :: Np.consecutive (y :: g)).
  simpl length in *. rewrite IH. lia.
Qed.

Lemma consecutive_shape (g h : list R) :
  length g = length h -> Np.shape (Np.consecutive g) = Np.shape (Np.consecutive h).
Proof.
  intros H. pose proof (consecutive_length g) as Hg. pose proof (consecutive_length h) as Hh.
  destruct g as [|x [|y g]], h as [|x' [|y' h]]; try discriminate; try reflexivity.
  change (Np.consecutive (x :: y :: g)) with ([x; y] :: Np.consecutive (y :: g)) in *.
  change (Np.consecutive (x' :: y' :: h)) with ([x'; y'] :: Np.consecutive (y' :: h)) in *.
  unfold Np.shape. rewrite Hg, Hh, H. reflexivity.
Qed.

(** X18 (classes.py, [epos.set_bins] with [xgrid] and [ygrid]): bins
    given as grids of interfaces take precedence over [xbins] and [ybins],
    whatever these are.  Two grids of the same length [n] give [n - 1]
    paired bins, bin [i] reaching from interface [i] to interface
    [i + 1], so that neighbouring bins share an edge. *)
Theorem set_bins_from_grids (xbins ybins : bins_arg) (xg yg : list R) (self : epos) :
  length xg = length yg ->
  exists self' x y,
    set_bins xbins ybins (Some xg) (Some yg) false self = (Ok tt, self') /\
    stored_bins self' = Some (x, y) /\
    length x = (length xg - 1)%nat /\ length y = (length yg - 1)%nat /\
    (forall i a b, xg !! i = Some a -> xg !! S i = Some b -> x !! i = Some [a; b]) /\
    (forall i a b, yg !! i = Some a -> yg !! S i = Some b -> y !! i = Some [a; b]).
Proof.
  intros Hlen.
  destruct (set_bins_run xbins ybins (Some xg) (Some yg) false
              (Np.consecutive xg) (Np.consecutive yg) self)
    as (self' & Hrun & _ & Hpair); [reflexivity..|].
  pose proof (consecutive_shape xg yg Hlen) as Hshape.
  rewrite bool_decide_true in Hrun by exact Hshape.
  exists self', (Np.consecutive xg), (Np.consecutive yg).
  split; [exact Hrun|]. split; [apply Hpair; [reflexivity|exact Hshape]|].
  split; [apply consecutive_length|]. split; [apply consecutive_length|].
  split; apply consecutive_lookup.
Qed.

Lemma set_bins_from_grids_witness :
  exists self' x y,
    set_bins BinsN BinsN (Some [1; 10; 100]) (Some [1; 2; 4]) false (init false)
      = (Ok tt, self') /\
    stored_bins self' = Some (x, y) /\
    length x = 2%nat /\ length y = 2%nat /\
    (forall i a b, [1; 10; 100] !! i = Some a -> [1; 10; 100] !! S i = Some b ->
       x !! i = Some [a; b]) /\
    (forall i a b, [1; 2; 4] !! i = Some a -> [1; 2; 4] !! S i = Some b ->
       y !! i = Some [a; b]).
Proof.
  apply (set_bins_from_grids BinsN BinsN [1; 10; 100] [1; 2; 4] (init false)).
  reflexivity.
Defined.

(** X19 (classes.py, [epos.set_bins]): what a failing call leaves
    behind.  Bins of a wrong dimension are refused before anything is
    stored, so the bins of an earlier call stay; paired bins of unequal
    number raise [ValueError] only after [focc['bin']] has been replaced
    by an empty dictionary, so the bins of an earlier call are gone. *)
Theorem set_bins_failure_modes (xb yb : list (R * R)) (ybins : bins_arg)
    (ygrid : option (list R)) (Grid : bool) (self : epos) :
  let rows := map (fun p : R * R => [fst p; snd p]) in
  (set_bins BinsN ybins None ygrid Grid self =
     (Raise ValueError, match self occurrence with
                        | Some _ => self
                        | None => setattr occurrence
                                    {| occ_xzoom := None; occ_yzoom := None;
                                       occ_bin := None |} self
                        end) /\
   stored_bins (snd (set_bins BinsN ybins None ygrid Grid self)) = stored_bins self) /\
  (length xb <> length yb ->
   fst (set_bins (Bins2 (rows xb)) (Bins2 (rows yb)) None None false self)
     = Raise ValueError /\
   stored_bins (snd (set_bins (Bins2 (rows xb)) (Bins2 (rows yb)) None None false self))
     = None).
Proof.
  intros rows. split.
  - unfold set_bins. unfold_stateM. cbv beta.
    destruct (self occurrence) as [d|] eqn:Hd; simpl.
    + split; reflexivity.
    + split; [reflexivity|]. unfold stored_bins. rewrite setattr_eq, Hd. reflexivity.
  - intros Hne.
    assert (Hshape : Np.shape (rows xb) <> Np.shape (rows yb)).
    { unfold rows. destruct xb as [|p xb], yb as [|q yb]; simpl;
        rewrite ?length_map; intros H; try discriminate; try contradiction.
      inversion H. simpl in Hne. congruence. }
    unfold set_bins. unfold_stateM. cbv beta.
    destruct (self occurrence) as [d|]; simpl;
      rewrite bool_decide_false by exact Hshape; simpl;
      (split; [reflexivity|]); unfold stored_bins; rewrite setattr_eq; reflexivity.
Qed.

Lemma set_bins_failure_modes_witness :
  fst (set_bins (Bins2 [[1; 10]; [10; 100]]) (Bins2 [[1; 2]]) None None false
         (init false)) = Raise ValueError /\
  stored_bins (snd (set_bins (Bins2 [[1; 10]; [10; 100]]) (Bins2 [[1; 2]]) None None
                      false (init false))) = None.
Proof.
  apply (set_bins_failure_modes [(1, 10); (10, 100)] [(1, 2)] BinsN None false (init false)).
  simpl. lia.
Defined.



Lemma fold_min2_spec (l : list R) : forall x,
  let m := fold_left Np.min2 l x in
  (m = x \/ m ∈ l) /\ m <= x /\ Forall (fun y => m <= y) l.
Proof.
  induction l as [|y l IH]; intros x; simpl.
  - split; [left; reflexivity|]. split; [lra|constructor].
  - destruct (IH (Np.min2 x y)) as (Hin & Hle & Hall).
    pose proof (min2_le_l x y). pose proof (min2_le_r x y).
    split; [|split; [lra|constructor; [lra|exact Hall]]].
    destruct Hin as [Hm|Hm]; [|right; right; exact Hm].
    rewrite Hm. unfold Np.min2. destruct (ltb_R y x); [right; left|left]; reflexivity.
Qed.

Lemma fold_max2_spec (l : list R) : forall x,
  let m := fold_left Np.max2 l x in
  (m = x \/ m ∈ l) /\ x <= m /\ Forall (fun y => y <= m) l.
Proof.
  induction l as [|y l IH]; intros x; simpl.
  - split; [left; reflexivity|]. split; [lra|constructor].
  - destruct (IH (Np.max2 x y)) as (Hin & Hle & Hall).
    pose proof (max2_ge_l x y). pose proof (max2_ge_r x y).
    split; [|split; [lra|constructor; [lra|exact Hall]]].
    destruct Hin as [Hm|Hm]; [|right; right; exact Hm].
    rewrite Hm. unfold Np.max2. destruct (ltb_R x y); [right; left|left]; reflexivity.
Qed.

Lemma min_spec (l : list R) (m : R) :
  Np.min l = Ok m -> m ∈ l /\ Forall (fun y => m <= y) l.
Proof.
  destruct l as [|x l]; [discriminate|]. intros H. inversion H as [Hm].
  destruct (fold_min2_spec l x) as (Hin & Hle & Hall). split.
  - destruct Hin as [->|Hin]; [left|right; exact Hin].
  - constructor; assumption.
Qed.

Lemma max_spec (l : list R) (m : R) :
  Np.max l = Ok m -> m ∈ l /\ Forall (fun y => y <= m) l.
Proof.
  destruct l as [|x l]; [discriminate|]. intros H. inversion H as [Hm].
  destruct (fold_max2_spec l x) as (Hin & Hle & Hall). split.
  - destruct Hin as [->|Hin]; [left|right; exact Hin].
  - constructor; assumption.
Qed.

Lemma take_indices_elem {A} (l : list A) (order : list nat) (v : list A) :
  Np.take_indices l order = Ok v -> Forall (fun x => x ∈ l) v.
Proof.
  intros H. eapply RegistryProps.mapM_result_Forall; [exact H|].
  intros i y _ Hy. unfold getitem in Hy. destruct (l !! i) as [a|] eqn:Ha; [|discriminate].
  inversion Hy; subst. eapply list_elem_of_lookup_2, Ha.
Qed.

(** The plot range that the methods put around positive data: 5% wider
    in the logarithm, and never narrower than the data. *)
Lemma widened_range_encloses (lo hi : R) :
  0 < lo -> lo <= hi ->
  let d := Np.power (hi / lo) 0.05 in
  1 <= d /\ lo / d <= lo /\ hi <= hi * d /\ (lo = hi -> d = 1).
Proof.
  intros Hlo Hle d.
  assert (Hq : 1 <= hi / lo).
  { apply (Rmult_le_reg_r lo); [exact Hlo|]. field_simplify; lra. }
  assert (Hd : 1 <= d).
  { unfold d. rewrite power_pos_base by lra. unfold Rpower. rewrite <- exp_0.
    destruct (Req_dec (hi / lo) 1) as [E|E].
    - rewrite E, ln_1, Rmult_0_r. lra.
    - left. apply exp_increasing. apply Rmult_lt_0_compat; [lra|].
      rewrite <- ln_1. apply ln_increasing; lra. }
  split; [exact Hd|]. split; [|split].
  - apply (Rmult_le_reg_r d); [lra|]. field_simplify; [|lra]. nra.
  - nra.
  - intros E. unfold d. rewrite power_pos_base by lra. unfold Rpower. subst hi.
    replace (lo / lo) with 1 by (field; lra). rewrite ln_1, Rmult_0_r. apply exp_0.
Qed.

(** X21 (classes.py, [epos.set_observation]): for positive periods and
    sizes the stored plot limits enclose the data: every stored period
    lies within [obs_xlim] and every stored size within [obs_ylim].  The
    limits are no wider than the data when all values are equal, as for
    a single planet. *)
Theorem set_observation_limits_enclose_data (xvar yvar : list R) (starID : list Z)
    (n : R) (self self' : epos) :
  set_observation xvar yvar starID n self = (Ok tt, self') ->
  Forall (fun x => 0 < x) xvar -> Forall (fun y => 0 < y) yvar ->
  exists ox oy xlim ylim,
    self' obs_xvar = Some ox /\ self' obs_yvar = Some oy /\
    self' obs_xlim = Some xlim /\ self' obs_ylim = Some ylim /\
    Forall (fun x => fst xlim <= x <= snd xlim) ox /\
    Forall (fun y => fst ylim <= y <= snd ylim) oy /\
    (forall x0, Forall (fun x => x = x0) ox -> xlim = (x0, x0)) /\
    (forall y0, Forall (fun y => y = y0) oy -> ylim = (y0, y0)).
Proof.
  unfold set_observation. intros H Hx Hy. run_inv H.
  match goal with
  | R1 : Np.take_indices xvar _ = Ok ?ox, R2 : Np.take_indices yvar _ = Ok ?oy,
    M1 : Np.min ?ox = Ok ?xmin, M2 : Np.max ?ox = Ok ?xmax,
    M3 : Np.min ?oy = Ok ?ymin, M4 : Np.max ?oy = Ok ?ymax |- _ =>
      pose proof (take_indices_elem _ _ _ R1) as Hox;
      pose proof (take_indices_elem _ _ _ R2) as Hoy;
      destruct (min_spec _ _ M1) as [Ixmin Lxmin];
      destruct (max_spec _ _ M2) as [Ixmax Lxmax];
      destruct (min_spec _ _ M3) as [Iymin Lymin];
      destruct (max_spec _ _ M4) as [Iymax Lymax];
      exists ox, oy, (xmin / Np.power (xmax / xmin) 0.05, xmax * Np.power (xmax / xmin) 0.05),
        (ymin / Np.power (ymax / ymin) 0.05, ymax * Np.power (ymax / ymin) 0.05);
      assert (Pxmin : 0 < xmin)
        by (rewrite Forall_forall in Hox, Hx; apply Hx, Hox, Ixmin);
      assert (Pymin : 0 < ymin)
        by (rewrite Forall_forall in Hoy, Hy; apply Hy, Hoy, Iymin);
      assert (Lx : xmin <= xmax) by (rewrite Forall_forall in Lxmin; apply Lxmin, Ixmax);
      assert (Ly : ymin <= ymax) by (rewrite Forall_forall in Lymin; apply Lymin, Iymax);
      destruct (widened_range_encloses xmin xmax Pxmin Lx) as (_ & Wx1 & Wx2 & Wx3);
      destruct (widened_range_encloses ymin ymax Pymin Ly) as (_ & Wy1 & Wy2 & Wy3)
  end.
  do 4 (split; [attr_simpl; reflexivity|]).
  split; [|split; [|split]].
  - rewrite Forall_forall in Lxmin, Lxmax. apply Forall_forall. intros x Hin. simpl.
    specialize (Lxmin x Hin). specialize (Lxmax x Hin). lra.
  - rewrite Forall_forall in Lymin, Lymax. apply Forall_forall. intros y Hin. simpl.
    specialize (Lymin y Hin). specialize (Lymax y Hin). lra.
  - intros x0 Hall. rewrite Forall_forall in Hall.
    rewrite (Hall _ Ixmin) in *. rewrite (Hall _ Ixmax) in *.
    rewrite (Wx3 eq_refl). f_equal; lra.
  - intros y0 Hall. rewrite Forall_forall in Hall.
    rewrite (Hall _ Iymin) in *. rewrite (Hall _ Iymax) in *.
    rewrite (Wy3 eq_refl). f_equal; lra.
Qed.

Lemma observation_example_run :
  exists self', set_observation [20; 5; 10] [1; 2; 3] [2; 1; 1]%Z 100 (init false)
                  = (Ok tt, self').
Proof. eexists. unfold set_observation, init. run_fwd. reflexivity. Qed.

Lemma set_observation_limits_enclose_data_witness :
  exists self' ox xlim,
    set_observation [20; 5; 10] [1; 2; 3] [2; 1; 1]%Z 100 (init false) = (Ok tt, self') /\
    self' obs_xvar = Some ox /\ self' obs_xlim = Some xlim /\
    Forall (fun x => fst xlim <= x <= snd xlim) ox.
Proof.
  destruct observation_example_run as [self' Hrun].
  destruct (set_observation_limits_enclose_data _ _ _ _ _ _ Hrun)
    as (ox & oy & xlim & ylim & H1 & _ & H3 & _ & H5 & _).
  - repeat constructor; lra.
  - repeat constructor; lra.
  - exists self', ox, xlim. repeat split; assumption.
Defined.

Lemma remove_dups_NoDup {A} `{EqDecision A} (l : list A) : NoDup l -> remove_dups l = l.
Proof.
  induction 1 as [|x l Hx Hnd IH]; [reflexivity|].
  simpl. destruct (decide_rel elem_of x l) as [Hin|_]; [contradiction|].
  rewrite IH. reflexivity.
Qed.

Lemma unique_size_arange (n : nat) :
  Np.unique_size (map Z.of_nat (seq 0 n)) = length (map Z.of_nat (seq 0 n)).
Proof.
  unfold Np.unique_size. rewrite remove_dups_NoDup; [reflexivity|].
  apply NoDup_fmap_2; [intros a b; apply Nat2Z.inj|apply NoDup_seq].
Qed.

(** Running [set_population] forwards. *)
Ltac pop_prim :=
  lazymatch goal with
  | |- load ?a _ = _ => apply (load_run a); attr_simpl; first [reflexivity | eassumption]
  | |- store _ _ _ = _ => reflexivity
  | |- gets _ _ = _ => reflexivity
  | |- reading _ _ = _ =>
      apply reading_run; cbv beta; first [eassumption | attr_simpl; reflexivity]
  | |- mret _ _ = _ => reflexivity
  | |- _ => pop_steps; reflexivity
  end
with pop_step :=
  cbv beta iota zeta;
  lazymatch goal with
  | |- (_ ≫= _) _ = _ => erewrite bind_Ok_intro; [ | pop_prim ]
  | |- pfm_set _ _ _ = _ => unfold pfm_set
  | |- pfm_get _ _ = _ => unfold pfm_get
  | |- (if ?b then ?x else ?y) ?s = ?r =>
      first [ lazymatch goal with H : b = _ |- _ => rewrite H end
            | let b' := eval lazy in b in
              lazymatch b' with
              | true => change (x s = r)
              | false => change (y s = r)
              end ]
  end
with pop_steps := repeat pop_step.

(** X22 (classes.py, [epos.set_population] without [starID]): on an
    object without a population, for as many masses as semi-major axes,
    at least one planet and positive semi-major axes, the call returns.
    Each planet gets a star of its own, so the arrays are stored in the
    order given and no period ratio is computed; the periods are those of
    Kepler's third law around a solar-mass star, [sma ** 1.5 * 365.25];
    [Multi] tells whether inclinations were given, and the registry is
    empty again. *)
Theorem set_population_single_planet_systems (name : string) (sma mass : list R)
    (inc tag : option (list R)) (self : epos) :
  self pfm = None ->
  length sma = length mass ->
  sma <> [] ->
  Forall (fun a => 0 < a) sma ->
  exists self' d,
    set_population name sma mass inc None tag self = (Ok tt, self') /\
    self' pfm = Some d /\
    d k_sma = Some sma /\ d k_M = Some mass /\
    d k_ID = Some (map Z.of_nat (seq 0 (length sma))) /\
    d k_P = Some (map (fun a => Np.power a 1.5 * 365.25) sma) /\
    d k_np = Some (length sma) /\ d k_ns = Some (length sma) /\
    d k_dP = None /\ d k_inc = inc /\ d k_tag = tag /\
    self' Multi = Some (bool_decide (is_Some inc)) /\
    self' Parametric = Some false /\ self' fitpars = Some Registry.init.
Proof.
  intros Hpfm Hlen Hne _.
  set (P := map (fun a => Np.power a 1.5 * 365.25) sma).
  destruct (min_nonempty mass) as [mmin Hmmin]; [intros ->; destruct sma; [contradiction|discriminate]|].
  destruct (max_nonempty mass) as [mmax Hmmax]; [intros ->; destruct sma; [contradiction|discriminate]|].
  destruct (min_nonempty P) as [pmin Hpmin]; [unfold P; destruct sma; [contradiction|discriminate]|].
  destruct (max_nonempty P) as [pmax Hpmax]; [unfold P; destruct sma; [contradiction|discriminate]|].
  assert (Hrun : exists self', set_population name sma mass inc None tag self = (Ok tt, self') /\
            exists d, self' pfm = Some d /\
    d k_sma = Some sma /\ d k_M = Some mass /\
    d k_ID = Some (map Z.of_nat (seq 0 (length sma))) /\
    d k_P = Some P /\
    d k_np = Some (length (map Z.of_nat (seq 0 (length sma)))) /\
    d k_ns = Some (Np.unique_size (map Z.of_nat (seq 0 (length sma)))) /\
    d k_dP = None /\ d k_inc = inc /\ d k_tag = tag /\
    self' Multi = Some (bool_decide (is_Some inc)) /\
    self' Parametric = Some false /\ self' fitpars = Some Registry.init).
  { assert (Hc1 : negb (length sma =? length mass)%nat = false)
      by (rewrite Hlen, Nat.eqb_refl; reflexivity).
    assert (Hc2 : (Np.unique_size (map Z.of_nat (seq 0 (length sma)))
                   <? length (map Z.of_nat (seq 0 (length sma))))%nat = false)
      by (rewrite unique_size_arange; apply Nat.ltb_irrefl).
    unfold set_population. fold P.
    destruct tag as [t|], inc as [i|];
      (eexists; split;
       [erewrite bind_Ok_intro by reflexivity; rewrite Hpfm; pop_steps; reflexivity|]);
      (eexists; split; [attr_simpl; reflexivity|]);
      repeat split; attr_simpl; reflexivity. }
  destruct Hrun as (self' & Hrun & d & Hd).
  rewrite unique_size_arange, length_map, length_seq in Hd.
  exists self', d. split; [exact Hrun|exact Hd].
Qed.

Lemma set_population_single_planet_systems_witness :
  exists self' d,
    set_population "model" [1; 4] [10; 20] None None None (init false) = (Ok tt, self') /\
    self' pfm = Some d /\ d k_ID = Some [0; 1]%Z /\ d k_dP = None.
Proof.
  destruct (set_population_single_planet_systems "model" [1; 4] [10; 20] None None
              (init false)) as (self' & d & Hrun & Hd & _ & _ & Hid & _ & _ & _ & HdP & _).
  - reflexivity.
  - reflexivity.
  - discriminate.
  - repeat constructor; lra.
  - exists self', d. repeat split; assumption.
Defined.

Lemma getitem_map {A B} (f : A -> B) (l : list A) (i : nat) :
  getitem (map f l) i = f <$> getitem l i.
Proof.
  unfold getitem. change (map f l) with (f <$> l). rewrite list_lookup_fmap.
  destruct (l !! i); reflexivity.
Qed.

Lemma take_indices_map {A B} (f : A -> B) (l : list A) (order : list nat) v v' :
  Np.take_indices l order = Ok v -> Np.take_indices (map f l) order = Ok v' ->
  v' = map f v.
Proof.
  unfold Np.take_indices. revert v v'. induction order as [|i order IH]; intros v v' H H'.
  - inversion H; inversion H'; reflexivity.
  - rewrite mapM_result_cons in H. rewrite mapM_result_cons in H'.
    rewrite getitem_map in H'.
    destruct (getitem l i) as [a|]; [|discriminate]. simpl in H, H'.
    destruct (mapM (getitem l) order) as [k|]; [|discriminate].
    destruct (mapM (getitem (map f l)) order) as [k'|]; [|discriminate].
    inversion H; inversion H'; subst. simpl. f_equal. apply IH; reflexivity.
Qed.

(** Go on with the inversion of a run where it stopped at a lookup in
    the dictionary [pfm]. *)
Ltac inv_more :=
  repeat match goal with
  | L : setattr _ _ _ _ = Some _ |- _ =>
      attr_simpl_in L; injection L as L; try subst
  | Hc : (match ?o with _ => _ end) _ = (Ok _, _) |- _ =>
      progress (attr_simpl_in Hc; unfold empty_obj in Hc; cbv beta iota in Hc);
      run_inv Hc
  | R : getopt _ = Ok _ |- _ =>
      attr_simpl_in R; unfold getopt in R; injection R as R; try subst
  end.

(** What a call of [set_population] that returns has found and stored. *)
Lemma set_population_Ok_inv name sma mass inc starID tag self self' :
  set_population name sma mass inc starID tag self = (Ok tt, self') ->
  self pfm = None /\ length sma = length mass /\
  exists d sma' M' P' mmin mmax pmin pmax,
    self' pfm = Some d /\
    d k_sma = Some sma' /\ d k_M = Some M' /\ d k_P = Some P' /\
    P' = map (fun a => Np.power a 1.5 * 365.25) sma' /\
    length sma' = length M' /\
    Np.min M' = Ok mmin /\ Np.max M' = Ok mmax /\
    Np.min P' = Ok pmin /\ Np.max P' = Ok pmax /\
    d k_M_limits = Some (mmin, mmax) /\ d k_P_limits = Some (pmin, pmax) /\
    self' mod_xlim = Some (pmin / Np.power (pmax / pmin) 0.05,
                           pmax * Np.power (pmax / pmin) 0.05) /\
    self' mod_ylim = Some (mmin / Np.power (mmax / mmin) 0.05,
                           mmax * Np.power (mmax / mmin) 0.05) /\
    self' fitpars = Some Registry.init /\ self' Parametric = Some false.
Proof.
  unfold set_population, pfm_reorder, pfm_set, pfm_get. intros H.
  apply bind_Ok_inv in H. destruct H as (old & s & Hg & H).
  unfold gets in Hg. inversion Hg; subst old s; clear Hg.
  destruct (bool_decide (is_Some (self pfm))) eqn:Hold; [discriminate H|].
  apply bool_decide_eq_false in Hold.
  assert (Hpfm : self pfm = None).
  { destruct (self pfm); [exfalso; apply Hold; eauto|reflexivity]. }
  split; [exact Hpfm|].
  destruct tag as [t|], inc as [i|]; run_inv H.
  all: inv_more.
  all: match goal with
       | B : negb (length _ =? length _)%nat = false |- _ =>
           apply negb_false_iff in B; apply Nat.eqb_eq in B
       end.
  all: split; [assumption|].
  all: eexists _, _, _, _, _, _, _, _.
  all: repeat match goal with |- _ /\ _ => split end.
  all: try (attr_simpl; reflexivity).
  all: try eassumption.
  all: try (eapply take_indices_map; eassumption).
  all: match goal with
       | R1 : Np.take_indices _ ?o = Ok ?a, R2 : Np.take_indices _ ?o = Ok ?b
         |- length ?a = length ?b =>
           rewrite (mapM_result_length _ _ _ R1), (mapM_result_length _ _ _ R2);
           reflexivity
       end.
Qed.

(** X23 (classes.py, [epos.set_population]): the two ways in which the
    call raises [ValueError].  An object takes one population: after a
    call that returned, every further call raises and changes nothing.
    Masses and semi-major axes of different number are refused only
    after [Parametric] has been switched off and the registry replaced by
    an empty one; no population is stored then. *)
Theorem set_population_failure_modes (name : string) (sma mass : list R)
    (inc : option (list R)) (starID : option (list Z)) (tag : option (list R))
    (self : epos) :
  (forall self', set_population name sma mass inc starID tag self = (Ok tt, self') ->
     forall name2 sma2 mass2 inc2 starID2 tag2,
       set_population name2 sma2 mass2 inc2 starID2 tag2 self' =
         (Raise ValueError, self')) /\
  (self pfm = None -> length sma <> length mass ->
     set_population name sma mass inc starID tag self =
       (Raise ValueError,
        setattr fitpars Registry.init (setattr Parametric false self)) /\
     snd (set_population name sma mass inc starID tag self) pfm = None).
Proof.
  split.
  - intros self' Hrun. apply set_population_Ok_inv in Hrun.
    destruct Hrun as (_ & _ & d & sma' & M' & P' & mmin & mmax & pmin & pmax & Hd & _).
    intros. unfold set_population.
    erewrite bind_Ok_intro by reflexivity. rewrite Hd. reflexivity.
  - intros Hpfm Hne.
    assert (Hrun : set_population name sma mass inc starID tag self =
              (Raise ValueError,
               setattr fitpars Registry.init (setattr Parametric false self))).
    { assert (Hc : negb (length sma =? length mass)%nat = true)
        by (apply negb_true_iff, Nat.eqb_neq, Hne).
      unfold set_population. erewrite bind_Ok_intro by reflexivity. rewrite Hpfm.
      do 4 pop_step. reflexivity. }
    split; [exact Hrun|]. rewrite Hrun. simpl. attr_simpl. exact Hpfm.
Qed.

Lemma set_population_failure_modes_witness :
  set_population "model" [1; 2] [1] None None None Examples.surveyed =
    (Raise ValueError,
     setattr fitpars Registry.init (setattr Parametric false Examples.surveyed)).
Proof.
  apply (set_population_failure_modes "model" [1; 2] [1] None None None Examples.surveyed).
  - reflexivity.
  - simpl. lia.
Defined.

(** X24 (classes.py, [epos.set_population]): for positive semi-major
    axes, whatever the other arguments, when the call returns the stored
    arrays belong together: there are as many masses as semi-major axes,
    each period is that of the semi-major axis at the same position,
    [P = sma ** 1.5 * 365.25], also after the planets have been sorted by
    star, and ['M limits'] and ['P limits'] are a least and a greatest
    value of the stored masses and periods. *)
Theorem set_population_arrays_aligned (name : string) (sma mass : list R)
    (inc : option (list R)) (starID : option (list Z)) (tag : option (list R))
    (self self' : epos) :
  Forall (fun a => 0 < a) sma ->
  set_population name sma mass inc starID tag self = (Ok tt, self') ->
  exists d sma' M' P' mlim plim,
    self' pfm = Some d /\
    d k_sma = Some sma' /\ d k_M = Some M' /\ d k_P = Some P' /\
    length M' = length sma' /\
    P' = map (fun a => Np.power a 1.5 * 365.25) sma' /\
    d k_M_limits = Some mlim /\ d k_P_limits = Some plim /\
    fst mlim ∈ M' /\ snd mlim ∈ M' /\ Forall (fun m => fst mlim <= m <= snd mlim) M' /\
    fst plim ∈ P' /\ snd plim ∈ P' /\ Forall (fun p => fst plim <= p <= snd plim) P'.
Proof.
  intros _ Hrun. apply set_population_Ok_inv in Hrun.
  destruct Hrun as (_ & _ & d & sma' & M' & P' & mmin & mmax & pmin & pmax &
    Hd & Hs & HM & HP & HPs & Hlen & Hmmin & Hmmax & Hpmin & Hpmax & HMl & HPl & _).
  destruct (min_spec _ _ Hmmin) as [I1 L1]. destruct (max_spec _ _ Hmmax) as [I2 L2].
  destruct (min_spec _ _ Hpmin) as [I3 L3]. destruct (max_spec _ _ Hpmax) as [I4 L4].
  exists d, sma', M', P', (mmin, mmax), (pmin, pmax).
  do 4 (split; [assumption|]). split; [symmetry; exact Hlen|].
  do 3 (split; [assumption|]). simpl.
  split; [exact I1|]. split; [exact I2|]. split.
  { rewrite Forall_forall in L1, L2. apply Forall_forall. intros m Hm.
    split; [apply L1, Hm|apply L2, Hm]. }
  split; [exact I3|]. split; [exact I4|].
  rewrite Forall_forall in L3, L4. apply Forall_forall. intros p Hp.
  split; [apply L3, Hp|apply L4, Hp].
Qed.

Lemma population_example_run :
  exists self', set_population "model" [2; 1] [10; 20] None (Some [1; 1]%Z) None
                  (init false) = (Ok tt, self').
Proof. eexists. unfold set_population, init. run_fwd. reflexivity. Qed.

Lemma set_population_arrays_aligned_witness :
  exists self' d sma' P',
    set_population "model" [2; 1] [10; 20] None (Some [1; 1]%Z) None (init false)
      = (Ok tt, self') /\
    self' pfm = Some d /\ d k_sma = Some sma' /\ d k_P = Some P' /\
    P' = map (fun a => Np.power a 1.5 * 365.25) sma'.
Proof.
  destruct population_example_run as [self' Hrun].
  assert (Hpos : Forall (fun a => 0 < a) [2; 1]) by (repeat constructor; lra).
  destruct (set_population_arrays_aligned _ _ _ _ _ _ _ _ Hpos Hrun)
    as (d & sma' & M' & P' & mlim & plim & Hd & Hs & _ & HP & _ & HPs & _).
  exists self', d, sma', P'. repeat split; assumption.
Defined.

End EposProps.

(** ** The period-radius density: marginals, amplitude, parameter vectors *)

Module PopulationProps.
Import Epos Population PopulationFacts Densities.

Lemma sum2_normalise (k s c : R) (g : grid) :
  Np.sum2 (map (normalise k s c) g) = k * Np.sum2 g / s * c.
Proof.
  unfold Np.sum2. induction g as [|r g IH]; simpl.
  - unfold Rdiv. ring.
  - rewrite IH, sum_normalise. unfold Rdiv. ring.
Qed.

(** X25 (population.py, [periodradius]; classes.py,
    [epos.set_parametric]): [set_parametric] puts an empty registry in
    place of the one the object had, so that parameters added before it
    are gone; [periodradius] reads ['pps'] first, and on the object as
    [set_parametric] leaves it, it raises [KeyError] whatever its
    arguments are. *)
Theorem set_parametric_discards_parameters (f : pdf_func) (self : epos)
    (Init : bool) (fpara : option (list R)) (xbin ybin xgrid ygrid : option (list R)) :
  let self' := snd (set_parametric f self) in
  fst (set_parametric f self) = Ok tt /\
  self' fitpars = Some Registry.init /\ self' func = Some f /\
  self' PDF = Some true /\ self' Parametric = Some true /\
  periodradius self' Init fpara xbin ybin xgrid ygrid = Raise KeyError.
Proof.
  intros self'.
  assert (Hs : self' = setattr fitpars Registry.init (setattr PDF true
                 (setattr Parametric true (setattr func f self)))) by reflexivity.
  assert (Hfp : self' fitpars = Some Registry.init) by (rewrite Hs; exact (setattr_eq (T := attr_type) fitpars Registry.init _)).
  split; [reflexivity|]. split; [exact Hfp|].
  do 3 (split; [rewrite Hs; EposFacts.attr_simpl; reflexivity|]).
  unfold periodradius. rewrite Hfp. destruct fpara; reflexivity.
Qed.

(** X26 (population.py, [periodradius], default grid): when the raw
    density has rows of one length and a nonzero total, the call
    returns, the period marginal sums to [pps * scale_x], the size
    marginal to [pps * scale_in_y], and the joint density to
    [pps * scale]: each of the three is the raw density normalised to
    [pps] per unit of the logarithmic grid. *)
Theorem periodradius_marginals_total (self : epos) (Init : bool)
    (fpara : option (list R)) (pars : Registry.fitparameters) (f : pdf_func)
    (x_in y_in : grid) (pps sx siy sc : R) (fpar2d : list R) (ny : nat) :
  self fitpars = Some pars ->
  fit_values Init fpara pars = Ok (pps, fpar2d) ->
  self func = Some f ->
  self X_in = Some x_in -> self Y_in = Some y_in ->
  self scale_x = Some sx -> self scale_in_y = Some siy -> self scale = Some sc ->
  Forall (fun r => length r = ny) (f x_in y_in fpar2d) ->
  Np.sum2 (f x_in y_in fpar2d) <> 0 ->
  exists pdf pdf_X pdf_Y,
    periodradius self Init fpara None None None None = Ok (pps, pdf, pdf_X, pdf_Y) /\
    Np.sum pdf_X = pps * sx /\ Np.sum pdf_Y = pps * siy /\ Np.sum2 pdf = pps * sc.
Proof.
  intros Hpars Hfit Hf Hx Hy Hsx Hsiy Hsc Hrect Hsum.
  unfold periodradius, getattr, mbind, result_bind.
  rewrite Hpars; cbv beta iota. rewrite Hfit; cbv beta iota.
  rewrite Hf, Hx, Hy; cbv beta iota zeta.
  rewrite bool_decide_eq_false_2 by (intros [[? H]|[? H]]; discriminate H).
  rewrite Hsx, Hsiy, Hsc; cbv beta iota.
  eexists _, _, _. split; [reflexivity|].
  rewrite !sum_normalise, sum2_normalise.
  rewrite (sum_sum_axis0 _ ny Hrect).
  change (Np.sum (Np.sum_axis1 (f x_in y_in fpar2d))) with (Np.sum2 (f x_in y_in fpar2d)).
  repeat split; field; exact Hsum.
Qed.

Lemma periodradius_marginals_total_witness :
  exists pdf pdf_X pdf_Y,
    periodradius (Examples.configured false) false None None None None None =
      Ok (1, pdf, pdf_X, pdf_Y) /\
    Np.sum pdf_X = 1 * (2 / Np.log (10 / 1)) /\
    Np.sum pdf_Y = 1 * (2 / Np.log (10 / 1)) /\
    Np.sum2 pdf = 1 * (2 / Np.log (10 / 1) * (2 / Np.log (10 / 1))).
Proof.
  destruct (EposFacts.configured_attrs false)
    as (Hp & Hf & Hx & Hy & _ & _ & Hsx & Hsiy & Hsc).
  apply (periodradius_marginals_total (Examples.configured false) false None
           Examples.pps_registry Examples.flat_pdf
           [[1; 1]; [10; 10]] [[1; 10]; [1; 10]] 1
           (2 / Np.log (10 / 1)) (2 / Np.log (10 / 1))
           (2 / Np.log (10 / 1) * (2 / Np.log (10 / 1))) [] 2);
    try assumption.
  - exact fit_values_example.
  - repeat constructor.
  - unfold Examples.flat_pdf, Np.sum2. simpl. lra.
Defined.

Section scaled.
Variable c : R.
Hypothesis Hc : c <> 0.

Lemma sum_scaled (r : list R) : Np.sum (map (Rmult c) r) = c * Np.sum r.
Proof. induction r as [|v r IH]; simpl; [lra|]. rewrite IH. lra. Qed.

Lemma sum_axis1_scaled (g : grid) :
  Np.sum_axis1 (map (map (Rmult c)) g) = map (Rmult c) (Np.sum_axis1 g).
Proof.
  unfold Np.sum_axis1. rewrite !map_map. apply map_ext. intros r. apply sum_scaled.
Qed.

Lemma sum2_scaled (g : grid) : Np.sum2 (map (map (Rmult c)) g) = c * Np.sum2 g.
Proof.
  unfold Np.sum2. fold (Np.sum_axis1 (map (map (Rmult c)) g)).
  rewrite sum_axis1_scaled. apply sum_scaled.
Qed.

Lemma zip_with_scaled (a b : list R) :
  zip_with Rplus (map (Rmult c) a) (map (Rmult c) b) = map (Rmult c) (zip_with Rplus a b).
Proof.
  revert b. induction a as [|x a IH]; intros [|y b]; simpl; try reflexivity.
  rewrite IH. f_equal. lra.
Qed.

Lemma sum_axis0_scaled (g : grid) :
  Np.sum_axis0 (map (map (Rmult c)) g) = map (Rmult c) (Np.sum_axis0 g).
Proof.
  destruct g as [|r g]; [reflexivity|]. simpl. revert r.
  induction g as [|r' g IH]; intros r; simpl; [reflexivity|].
  rewrite zip_with_scaled. apply IH.
Qed.

Lemma normalise_scaled (k s sc : R) (a : list R) :
  normalise k (c * s) sc (map (Rmult c) a) = normalise k s sc a.
Proof.
  unfold normalise. rewrite map_map. apply map_ext. intros v.
  unfold Rdiv. rewrite Rinv_mult.
  transitivity (k * v * / s * sc * (c * / c)); [ring|].
  rewrite Rinv_r by exact Hc. ring.
Qed.

Lemma grid_normalise_scaled (k s sc : R) (g : grid) :
  map (normalise k (c * s) sc) (map (map (Rmult c)) g) = map (normalise k s sc) g.
Proof. rewrite map_map. apply map_ext. intros r. apply normalise_scaled. Qed.

(** X27 (population.py, [periodradius]): the amplitude of the parametric
    function does not matter.  Multiplying every value of [func] by a
    nonzero constant leaves all that [periodradius] returns as it is, on
    the default grid and on a grid of the caller's: the density is
    normalised by its own total, and only [pps] sets its level. *)
Theorem periodradius_amplitude_invariant (self : epos) (f : pdf_func) (Init : bool)
    (fpara : option (list R)) (xbin ybin xgrid ygrid : option (list R)) :
  self func = Some f ->
  periodradius (setattr func (scaled c f) self) Init fpara xbin ybin xgrid ygrid =
  periodradius self Init fpara xbin ybin xgrid ygrid.
Proof.
  intros Hf. unfold periodradius, getattr, mbind, result_bind.
  EposFacts.attr_simpl. rewrite Hf.
  repeat (match goal with
          | |- context [match ?x with _ => _ end] => destruct x
          end; cbv beta iota zeta; try reflexivity).
  all: unfold scaled.
  all: rewrite ?sum_axis1_scaled, ?sum_axis0_scaled, ?sum2_scaled, ?sum_scaled.
  all: rewrite ?grid_normalise_scaled, ?normalise_scaled.
  all: reflexivity.
Qed.
End scaled.

Lemma periodradius_amplitude_invariant_witness :
  periodradius (setattr func (scaled 2 Examples.flat_pdf) (Examples.configured false))
    false None None None None None =
  periodradius (Examples.configured false) false None None None None None.
Proof.
  apply (periodradius_amplitude_invariant 2); [lra|].
  apply (EposFacts.configured_attrs false).
Defined.

Lemma fit_values_fpara_setfit (pars pars' : Registry.fitparameters) (parlist : list R)
    (Init : bool) :
  Registry.built pars -> NoDup (Registry.keysall pars) ->
  "pps" ∈ Registry.keysall pars ->
  (length (Registry.keysfit pars) <= length parlist)%nat ->
  Registry.setfit parlist pars = (Ok tt, pars') ->
  fit_values Init (Some parlist) pars = fit_values false None pars'.
Proof.
  intros Hb Hnd Hpps Hlen Hrun. unfold fit_values.
  rewrite (RegistryProps.getmc_after_setfit pars parlist pars' "pps") by assumption.
  destruct (Registry.get "pps" false pars') as [pps|e]; [|reflexivity]. simpl.
  replace (Registry.get2d_fromlist parlist pars) with (Registry.get2d false pars');
    [reflexivity|].
  unfold Registry.get2d_fromlist, Registry.get2d.
  destruct (RegistryFacts.setfit_loop_frame (Registry.keysfit pars) 0 parlist pars)
    as (_ & _ & F3 & _).
  unfold Registry.setfit in Hrun. rewrite Hrun in F3. simpl in F3. rewrite F3.
  symmetry. apply RegistryProps.mapM_result_ext. intros key Hin.
  apply RegistryProps.getmc_after_setfit; try assumption.
  destruct (RegistryProps.built_invariant pars Hb) as (_ & H2 & _). apply H2, Hin.
Qed.

Lemma bind_getattr_Some {A B} (a : A) (k : A -> result B) :
  getattr (Some a) ≫= k = k a.
Proof. reflexivity. Qed.

(** X28 (population.py, [periodradius]; classes.py,
    [fitparameters.getmc], [get2d_fromlist], [setfit]): passing a
    parameter vector as [fpara] gives what storing the vector with
    [setfit] and calling [periodradius] without [fpara] gives, provided no
    key was registered twice, ['pps'] is registered and the vector holds a
    value for every free parameter.  [Init] is ignored when [fpara] is
    given. *)
Theorem periodradius_fpara_agrees_with_setfit (self : epos)
    (pars : Registry.fitparameters) (parlist : list R) (Init : bool)
    (xbin ybin xgrid ygrid : option (list R)) :
  self fitpars = Some pars ->
  Registry.built pars -> NoDup (Registry.keysall pars) ->
  "pps" ∈ Registry.keysall pars ->
  (length (Registry.keysfit pars) <= length parlist)%nat ->
  exists pars',
    Registry.setfit parlist pars = (Ok tt, pars') /\
    periodradius self Init (Some parlist) xbin ybin xgrid ygrid =
    periodradius (setattr fitpars pars' self) false None xbin ybin xgrid ygrid.
Proof.
  intros Hpars Hb Hnd Hpps Hlen.
  destruct (RegistryProps.get2d_fromlist_setfit_run pars parlist Hb Hnd Hlen)
    as [pars' Hrun].
  exists pars'. split; [exact Hrun|].
  unfold periodradius. EposFacts.attr_simpl. rewrite Hpars.
  rewrite !bind_getattr_Some.
  rewrite (fit_values_fpara_setfit pars pars' parlist Init) by assumption.
  reflexivity.
Qed.

Lemma periodradius_fpara_agrees_with_setfit_witness :
  exists pars',
    Registry.setfit [3] PopExamples.pps_free_registry = (Ok tt, pars') /\
    periodradius PopExamples.configured_free true (Some [3]) None None None None =
    periodradius (setattr fitpars pars' PopExamples.configured_free) false None
      None None None None.
Proof.
  apply (periodradius_fpara_agrees_with_setfit PopExamples.configured_free
           PopExamples.pps_free_registry [3] true None None None None).
  - reflexivity.
  - apply (Registry.built_call _ (Registry.CallAdd "pps" 2 false (Fin 0) (Fin 10) None false)).
    apply Registry.built_init.
  - apply (bool_decide_unpack _). vm_compute. exact I.
  - apply (bool_decide_unpack _). vm_compute. exact I.
  - simpl. lia.
Defined.

End PopulationProps.

(** ** EPOS.kepler: the selection of [dr25] and the vetting completeness *)

Module KeplerProps.
Import Kepler.

Lemma Rpower_nonincreasing (u v p : R) :
  0 < u -> u <= v -> p <= 0 -> Rpower v p <= Rpower u p.
Proof.
  intros Hu Huv Hp. unfold Rpower.
  assert (Hln : ln u <= ln v).
  { destruct Huv as [Hlt | ->]; [left; apply ln_increasing; assumption|right; reflexivity]. }
  assert (H : p * ln v <= p * ln u) by nra.
  destruct H as [Hlt | ->]; [left; apply exp_increasing, Hlt|right; reflexivity].
Qed.

Lemma Rpower_below_one (u p : R) : 0 < u -> u < 1 -> p <= 0 -> 1 <= Rpower u p.
Proof.
  intros Hu Hu1 Hp. unfold Rpower. rewrite <- exp_0.
  assert (Hln : ln u < 0) by (rewrite <- ln_1; apply ln_increasing; assumption).
  assert (H : 0 <= p * ln u) by nra.
  destruct H as [Hlt|<-]; [left; apply exp_increasing, Hlt|right; reflexivity].
Qed.

Lemma Rpower_above_one (u p : R) : 1 <= u -> p <= 0 -> Rpower u p <= 1.
Proof.
  intros Hu Hp. unfold Rpower. rewrite <- exp_0.
  assert (Hln : 0 <= ln u).
  { rewrite <- ln_1. destruct Hu as [Hlt|<-]; [left; apply ln_increasing; lra|right; reflexivity]. }
  assert (H : p * ln u <= 0) by nra.
  destruct H as [Hlt | ->]; [left; apply exp_increasing, Hlt|right; reflexivity].
Qed.

Lemma clip_range (v : R) : 0.2 <= Np.max2 0.2 (Np.min2 v 1) <= 1.
Proof.
  unfold Np.max2, Np.min2, ltb_R.
  destruct (Rlt_dec 1 v); destruct (Rlt_dec 0.2 _); lra.
Qed.

Lemma clip_mono (v w : R) :
  v <= w -> Np.max2 0.2 (Np.min2 v 1) <= Np.max2 0.2 (Np.min2 w 1).
Proof.
  intros H. unfold Np.max2, Np.min2, ltb_R.
  destruct (Rlt_dec 1 v); destruct (Rlt_dec 1 w);
    repeat match goal with |- context [Rlt_dec ?a ?b] => destruct (Rlt_dec a b) end; lra.
Qed.

(** X29 (kepler.py, [fbpl2d]): for positive periods and sizes and
    positive breaks [b] and [e], the broken power law is clipped to
    [[0.2, 1]], and for a non-negative amplitude and two non-positive
    period exponents, as in both parameter sets of the vetting
    completeness, it never increases with the period, also across the
    break at [x = b]. *)
Theorem fbpl2d_range_and_period_trend (x1 x2 y a b c d e f g : R) :
  0 <= a -> 0 < b -> c <= 0 -> d <= 0 -> 0 < e ->
  0 < x1 -> x1 <= x2 -> 0 < y ->
  0.2 <= fbpl2d x2 y a b c d e f g /\
  fbpl2d x2 y a b c d e f g <= fbpl2d x1 y a b c d e f g /\
  fbpl2d x1 y a b c d e f g <= 1.
Proof.
  intros Ha Hb Hc Hd He Hx1 Hx12 Hy. unfold fbpl2d. cbv zeta.
  split; [apply clip_range|]. split; [|apply clip_range].
  apply clip_mono.
  set (py := Np.power (y / e) (if ltb_R y e then f else g)).
  assert (Hpy : 0 < py).
  { apply EposProps.power_pos, Rdiv_lt_0_compat; assumption. }
  assert (Hu1 : 0 < x1 / b) by (apply Rdiv_lt_0_compat; assumption).
  assert (Hu12 : x1 / b <= x2 / b).
  { unfold Rdiv. apply Rmult_le_compat_r; [left; apply Rinv_0_lt_compat, Hb|exact Hx12]. }
  assert (Hu2 : 0 < x2 / b) by lra.
  assert (Hpx : Np.power (x2 / b) (if ltb_R x2 b then c else d)
                <= Np.power (x1 / b) (if ltb_R x1 b then c else d)).
  { rewrite !EposProps.power_pos_base by assumption. unfold ltb_R.
    destruct (Rlt_dec x1 b) as [H1|H1], (Rlt_dec x2 b) as [H2|H2].
    - apply Rpower_nonincreasing; assumption.
    - assert (Hq1 : x1 / b < 1).
      { apply (Rmult_lt_reg_r b); [exact Hb|]. unfold Rdiv.
        rewrite Rmult_assoc, Rinv_l by lra. lra. }
      assert (Hq2 : 1 <= x2 / b).
      { apply (Rmult_le_reg_r b); [exact Hb|]. unfold Rdiv.
        rewrite Rmult_assoc, Rinv_l by lra. lra. }
      pose proof (Rpower_below_one (x1 / b) c Hu1 Hq1 Hc).
      pose proof (Rpower_above_one (x2 / b) d Hq2 Hd). lra.
    - lra.
    - apply Rpower_nonincreasing; assumption. }
  assert (Hx1p : 0 < Np.power (x1 / b) (if ltb_R x1 b then c else d))
    by (apply EposProps.power_pos, Hu1).
  assert (Hx2p : 0 < Np.power (x2 / b) (if ltb_R x2 b then c else d))
    by (apply EposProps.power_pos, Hu2).
  fold py. apply Rmult_le_compat_r; [lra|].
  apply Rmult_le_compat_l; [exact Ha|exact Hpx].
Qed.

Lemma fbpl2d_range_and_period_trend_witness :
  0.2 <= fbpl2d 100 2 0.88 53 (- 0.07) (- 0.39) 5.7 0.19 0.19 /\
  fbpl2d 100 2 0.88 53 (- 0.07) (- 0.39) 5.7 0.19 0.19
    <= fbpl2d 10 2 0.88 53 (- 0.07) (- 0.39) 5.7 0.19 0.19 /\
  fbpl2d 10 2 0.88 53 (- 0.07) (- 0.39) 5.7 0.19 0.19 <= 1.
Proof. apply fbpl2d_range_and_period_trend; lra. Defined.

Lemma filter_length_b2n {A} (p : A -> bool) (l : list A) :
  length (List.filter p l) = fold_right (fun r n => (Nat.b2n (p r) + n)%nat) 0%nat l.
Proof.
  induction l as [|r l IH]; [reflexivity|].
  simpl. destruct (p r); simpl; rewrite IH; reflexivity.
Qed.

Lemma sublist_filter_and {A} (p q : A -> bool) (l : list A) :
  sublist (List.filter (fun r => p r && q r) l) (List.filter p l).
Proof.
  induction l as [|r l IH]; [constructor|].
  simpl. destruct (p r), (q r); simpl; try assumption.
  - apply sublist_skip, IH.
  - apply sublist_cons, IH.
Qed.

Lemma sublist_map {A B} (h : A -> B) (l1 l2 : list A) :
  sublist l1 l2 -> sublist (map h l1) (map h l2).
Proof.
  induction 1; simpl; [constructor|apply sublist_skip|apply sublist_cons]; assumption.
Qed.

(** A temperature in [(2400, 7320]] lies in exactly one of the four
    windows; two windows never hold the same temperature. *)
Lemma window_exactly_one (r : koi_row) :
  2400 < koi_steff r <= 7320 ->
  (Nat.b2n (in_window (fst (Teff M)) (snd (Teff M)) r)
   + Nat.b2n (in_window (fst (Teff K)) (snd (Teff K)) r)
   + Nat.b2n (in_window (fst (Teff G)) (snd (Teff G)) r)
   + Nat.b2n (in_window (fst (Teff F)) (snd (Teff F)) r))%nat = 1%nat.
Proof.
  intros H. unfold in_window, Teff, ltb_R. simpl fst. simpl snd.
  destruct (Rlt_dec 2400 (koi_steff r)); [|lra].
  destruct (Rlt_dec 7320 (koi_steff r)); [lra|].
  destruct (Rlt_dec 3865 (koi_steff r)), (Rlt_dec 5310 (koi_steff r)),
    (Rlt_dec 5980 (koi_steff r)); simpl; try reflexivity; lra.
Qed.

Lemma windows_disjoint (r : koi_row) (t t' : sptype) :
  in_window (fst (Teff t)) (snd (Teff t)) r = true ->
  in_window (fst (Teff t')) (snd (Teff t')) r = true -> t = t'.
Proof.
  unfold in_window, ltb_R. intros H H'.
  apply andb_true_iff in H as [H1 H2]. apply andb_true_iff in H' as [H1' H2'].
  apply negb_true_iff in H2, H2'.
  destruct t, t'; try reflexivity; simpl in *;
    repeat match goal with
    | H : (if Rlt_dec ?a ?b then _ else _) = _ |- _ => destruct (Rlt_dec a b); try discriminate H; clear H
    end; lra.
Qed.

(** X30 (kepler.py, [dr25], the selection by spectral type): for each of
    ['M'], ['K'], ['G'], ['F'] the call returns three arrays of one
    length, drawn in order from those of [subsample='all']; no planet is
    in two of the four sub-samples; and when every planet of the ['all']
    sample has [2400 < Teff <= 7320], the sizes of the four sub-samples
    add up to the size of the ['all'] sample. *)
Theorem dr25_spectral_types_partition (koi : list koi_row) (score : R)
    (Gaia Huber : bool) :
  Forall (fun r => isall Gaia Huber score r = true -> 2400 < koi_steff r <= 7320) koi ->
  exists oall o_m o_k o_g o_f,
    dr25 koi SubAll score Gaia Huber = Ok oall /\
    dr25 koi (SubType M) score Gaia Huber = Ok o_m /\
    dr25 koi (SubType K) score Gaia Huber = Ok o_k /\
    dr25 koi (SubType G) score Gaia Huber = Ok o_g /\
    dr25 koi (SubType F) score Gaia Huber = Ok o_f /\
    length (xvar oall) =
      (length (xvar o_m) + length (xvar o_k) + length (xvar o_g) + length (xvar o_f))%nat /\
    (forall t o, dr25 koi (SubType t) score Gaia Huber = Ok o ->
       length (xvar o) = length (yvar o) /\ length (yvar o) = length (starID o) /\
       sublist (xvar o) (xvar oall) /\ sublist (yvar o) (yvar oall) /\
       sublist (starID o) (starID oall)) /\
    (forall r t t' mt mt',
       slice Gaia Huber score (SubType t) = Ok mt ->
       slice Gaia Huber score (SubType t') = Ok mt' ->
       mt r = true -> mt' r = true -> t = t').
Proof.
  intros Hrange. unfold dr25. cbn [slice mbind result_bind].
  eexists _, _, _, _, _. do 5 (split; [reflexivity|]). cbn [xvar yvar starID].
  split; [|split].
  - rewrite !length_map, !filter_length_b2n.
    induction Hrange as [|r l Hr _ IH]; [reflexivity|].
    cbn [fold_right]. rewrite IH.
    destruct (isall Gaia Huber score r) eqn:Hall; cbn [andb Nat.b2n]; [|lia].
    pose proof (window_exactly_one r (Hr eq_refl)) as H1. lia.
  - intros t o Ho. inversion Ho; subst o; clear Ho. cbn [xvar yvar starID].
    rewrite !length_map. split; [reflexivity|]. split; [reflexivity|].
    split; [|split]; apply sublist_map, sublist_filter_and.
  - intros r t t' mt mt' Hm Hm' H H'. inversion Hm; inversion Hm'; subst mt mt'.
    apply andb_true_iff in H as [_ H]. apply andb_true_iff in H' as [_ H'].
    exact (windows_disjoint r t t' H H').
Qed.

Lemma dr25_spectral_types_partition_witness :
  exists oall o_m o_k o_g o_f,
    dr25 KeplerExamples.two_kois SubAll 0.9 false false = Ok oall /\
    dr25 KeplerExamples.two_kois (SubType M) 0.9 false false = Ok o_m /\
    dr25 KeplerExamples.two_kois (SubType K) 0.9 false false = Ok o_k /\
    dr25 KeplerExamples.two_kois (SubType G) 0.9 false false = Ok o_g /\
    dr25 KeplerExamples.two_kois (SubType F) 0.9 false false = Ok o_f /\
    length (xvar oall) =
      (length (xvar o_m) + length (xvar o_k) + length (xvar o_g) + length (xvar o_f))%nat.
Proof.
  destruct (dr25_spectral_types_partition KeplerExamples.two_kois 0.9 false false)
    as (oall & o_m & o_k & o_g & o_f & H1 & H2 & H3 & H4 & H5 & H6 & _).
  - constructor; [intros _; simpl; lra|].
    constructor; [intros _; simpl; lra|]. constructor.
  - exists oall, o_m, o_k, o_g, o_f. repeat split; assumption.
Defined.

End KeplerProps.
